(** * ClimbMCP: the content-extraction and retrieval pipeline of [src/index.js]

    A shallow embedding of the text reconstructor, the two-method extractor,
    the chunker and the query engine of [ClimbingResourcesServer], with the
    properties of the specification stated over it. *)

From Stdlib Require Import ZArith NArith List Lia Ascii String Bool Permutation Sorted.
From stdpp Require Import base option list gmap sorting.
Import ListNotations.

Local Open Scope N_scope.

(** ** Strings

    A JavaScript string is a sequence of UTF-16 code units.  A code unit is a
    natural number; the character tests below are those of ECMAScript. *)

Abbreviation jsstring := (list N).

(** [js "abc"] is the string literal ['abc'] (code units below 256). *)
Definition js (s : string) : jsstring :=
  List.map N_of_ascii (list_ascii_of_string s).
Arguments js s%_string.

Definition jslen (s : jsstring) : Z := Z.of_nat (List.length s).

(** [s.substring(a, b)]: negative arguments count as 0, arguments past the
    end as the length, and the two are swapped when [a > b]. *)
Definition clampIndex (s : jsstring) (i : Z) : Z := Z.min (Z.max i 0) (jslen s).

Definition substring (s : jsstring) (a b : Z) : jsstring :=
  let a' := clampIndex s a in
  let b' := clampIndex s b in
  let from := Z.min a' b' in
  let to := Z.max a' b' in
  firstn (Z.to_nat (to - from)) (skipn (Z.to_nat from) s).

(** [s.slice(0, n)] on an array, for an integer [n]: a negative [n] counts
    from the end. *)
Definition sliceFrom0 {A} (l : list A) (n : Z) : list A :=
  if (n <? 0)%Z then firstn (List.length l - Z.to_nat (- n)) l
  else firstn (Z.to_nat n) l.

Definition inRange (lo hi c : N) : bool := (lo <=? c) && (c <=? hi).

Definition isLower (c : N) : bool := inRange 97 122 c.          (* [a-z] *)
Definition isUpper (c : N) : bool := inRange 65 90 c.           (* [A-Z] *)
Definition isLetter (c : N) : bool := isLower c || isUpper c.   (* [a-zA-Z] *)
Definition isDigit (c : N) : bool := inRange 48 57 c.           (* [0-9] *)
Definition isPunct (c : N) : bool :=                            (* [.,:;!?] *)
  existsb (N.eqb c) (js ".,:;!?").
Definition isNewline (c : N) : bool := c =? 10.                 (* \n *)

(** [\s], which is also what [trim] strips: WhiteSpace and LineTerminator. *)
Definition isSpace (c : N) : bool :=
  inRange 9 13 c || (c =? 32) || (c =? 160) || (c =? 5760)
  || inRange 8192 8202 c || (c =? 8232) || (c =? 8233) || (c =? 8239)
  || (c =? 8287) || (c =? 12288) || (c =? 65279).

(** [\w] is [A-Za-z0-9_]; [\W] is its complement. *)
Definition isWordChar (c : N) : bool := isLetter c || isDigit c || (c =? 95).

Fixpoint trimStart (s : jsstring) : jsstring :=
  match s with
  | c :: s' => if isSpace c then trimStart s' else s
  | [] => []
  end.

Definition trimEnd (s : jsstring) : jsstring := reverse (trimStart (reverse s)).

Definition trim (s : jsstring) : jsstring := trimEnd (trimStart s).

Fixpoint startsWith (p s : jsstring) : bool :=
  match p, s with
  | [], _ => true
  | a :: p', b :: s' => (a =? b) && startsWith p' s'
  | _ :: _, [] => false
  end.

(** [s.indexOf(p)], with [None] for [-1]. *)
Fixpoint indexOfFrom (p s : jsstring) (i : Z) : option Z :=
  if startsWith p s then Some i
  else match s with
       | [] => None
       | _ :: s' => indexOfFrom p s' (i + 1)
       end.

Definition indexOf (s p : jsstring) : option Z := indexOfFrom p s 0.

Definition includes (s p : jsstring) : bool :=
  match indexOf s p with Some _ => true | None => false end.

Definition endsWith (s p : jsstring) : bool := startsWith (reverse p) (reverse s).

(** [s.replace(p, r)] for a string pattern: the first occurrence only. *)
Fixpoint replaceFirst (p r s : jsstring) : jsstring :=
  if startsWith p s then r ++ skipn (List.length p) s
  else match s with
       | [] => []
       | c :: s' => c :: replaceFirst p r s'
       end.

(** [s.split(/\W+/)]: the pieces between maximal runs of non-word characters;
    a separator at either end leaves an empty piece there. *)
Fixpoint splitNonWordGo (s : jsstring) (cur : jsstring) (inSep : bool) : list jsstring :=
  match s with
  | [] => [reverse cur]
  | c :: s' =>
      if isWordChar c then splitNonWordGo s' (c :: cur) false
      else if inSep then splitNonWordGo s' [] true
      else reverse cur :: splitNonWordGo s' [] true
  end.

Definition splitNonWord (s : jsstring) : list jsstring := splitNonWordGo s [] false.

(** [a.join(sep)] *)
Fixpoint join (sep : jsstring) (l : list jsstring) : jsstring :=
  match l with
  | [] => []
  | [x] => x
  | x :: l' => x ++ sep ++ join sep l'
  end.

(** [s.split(sep)] for a separator of one character. *)
Fixpoint splitOn (sep : N) (s : jsstring) : list jsstring :=
  match s with
  | [] => [[]]
  | c :: s' =>
      if c =? sep then [] :: splitOn sep s'
      else match splitOn sep s' with
           | p :: ps => (c :: p) :: ps
           | [] => [[c]]
           end
  end.

(** ** Regular expressions

    The patterns of [index.js] are sequences of quantified atoms: a character
    class, or a group of literal alternatives.  Matching is the backtracking
    matching of ECMAScript: a quantifier is greedy and gives characters back
    when what follows fails, alternatives are tried left to right. *)

Inductive quant :=
| One                    (* x     *)
| Opt                    (* x?    *)
| AtLeast (n : nat).     (* x{n,}: [x*] is [AtLeast 0], [x+] is [AtLeast 1] *)

Inductive item :=
| Chars (p : N -> bool) (q : quant)   (* a quantified character class *)
| Group (alts : list jsstring).        (* (lit1|lit2|...) *)

Definition regex := list item.

(** The longest run of class characters at the head of [s]. *)
Fixpoint runLength (p : N -> bool) (s : jsstring) : nat :=
  match s with
  | c :: s' => if p c then S (runLength p s') else 0%nat
  | [] => 0%nat
  end.

Section Matching.
(** What follows the atom: it returns the pieces matched by the remaining
    atoms and the rest of the input. *)
Variable k : jsstring -> option (list jsstring * jsstring).

Definition withPiece (piece : jsstring) (rest : jsstring)
  : option (list jsstring * jsstring) :=
  match k rest with
  | Some (pieces, out) => Some (piece :: pieces, out)
  | None => None
  end.

(** Greedy repetition: [extra] more characters than the minimum [n] are
    tried first, then one fewer, down to the minimum. *)
Fixpoint tryRun (n extra : nat) (s : jsstring) : option (list jsstring * jsstring) :=
  match withPiece (firstn (n + extra) s) (skipn (n + extra) s) with
  | Some r => Some r
  | None => match extra with
            | O => None
            | S extra' => tryRun n extra' s
            end
  end.

Fixpoint tryAlts (alts : list jsstring) (s : jsstring) : option (list jsstring * jsstring) :=
  match alts with
  | [] => None
  | a :: alts' =>
      if startsWith a s then
        match withPiece a (skipn (List.length a) s) with
        | Some r => Some r
        | None => tryAlts alts' s
        end
      else tryAlts alts' s
  end.

Definition matchItem (it : item) (s : jsstring)
  : option (list jsstring * jsstring) :=
  match it with
  | Chars p One =>
      match s with
      | c :: s' => if p c then withPiece [c] s' else None
      | [] => None
      end
  | Chars p Opt =>
      match s with
      | c :: s' =>
          if p c then
            match withPiece [c] s' with
            | Some r => Some r
            | None => withPiece [] s
            end
          else withPiece [] s
      | [] => withPiece [] s
      end
  | Chars p (AtLeast n) =>
      let run := runLength p s in
      if (run <? n)%nat then None else tryRun n (run - n) s
  | Group alts => tryAlts alts s
  end.
End Matching.

(** [matchHere re s]: the match of [re] anchored at the head of [s], as the
    list of pieces matched by each atom and the input left after it. *)
Fixpoint matchHere (re : regex) : jsstring -> option (list jsstring * jsstring) :=
  match re with
  | [] => fun s => Some ([], s)
  | it :: re' => matchItem (matchHere re') it
  end.

(** A scan with the [g] flag cuts the input into the characters it keeps and
    the successive matches; after a match the scan resumes at its end (one
    character further after an empty match). *)
Inductive segment :=
| Keep (c : N)
| Hit (pieces : list jsstring).

Fixpoint scanGo (re : regex) (s : jsstring) (skip : nat) : list segment :=
  match s with
  | [] =>
      match skip, matchHere re [] with
      | O, Some (pieces, _) => [Hit pieces]
      | _, _ => []
      end
  | c :: s' =>
      match skip with
      | S skip' => scanGo re s' skip'
      | O =>
          match matchHere re s with
          | Some (pieces, rest) =>
              match (List.length s - List.length rest)%nat with
              | O => Hit pieces :: Keep c :: scanGo re s' 0
              | S n => Hit pieces :: scanGo re s' n
              end
          | None => Keep c :: scanGo re s' 0
          end
      end
  end.

Definition scan (re : regex) (s : jsstring) : list segment := scanGo re s 0.

(** [s.replace(/re/g, f)], the replacement computed from the pieces. *)
Definition render (f : list jsstring -> jsstring) (seg : segment) : jsstring :=
  match seg with
  | Keep c => [c]
  | Hit pieces => f pieces
  end.

Definition replaceAll (re : regex) (f : list jsstring -> jsstring) (s : jsstring) : jsstring :=
  List.concat (List.map (render f) (scan re s)).

(** [(s.match(/re/g) || []).length] *)
Definition isHit (seg : segment) : bool :=
  match seg with
  | Hit _ => true
  | Keep _ => false
  end.

Definition countMatches (re : regex) (s : jsstring) : nat :=
  List.length (List.filter isHit (scan re s)).

Definition piece (n : nat) (pieces : list jsstring) : jsstring := nth n pieces [].

Definition one (p : N -> bool) : item := Chars p One.
Definition plus (p : N -> bool) : item := Chars p (AtLeast 1).
Definition star (p : N -> bool) : item := Chars p (AtLeast 0).
Definition optional (p : N -> bool) : item := Chars p Opt.
Definition atLeast (n : nat) (p : N -> bool) : item := Chars p (AtLeast n).
Definition oneOf (alts : list string) : item := Group (List.map js alts).

(** A literal pattern, as [new RegExp(word, 'g')] builds it from a string
    without metacharacters. *)
Definition literal (w : jsstring) : regex := List.map (fun c => one (N.eqb c)) w.

(** With the [i] flag a Basic Latin letter of the pattern matches itself in
    either case, and no other code unit (canonicalisation never maps a code
    unit of 128 or more to one below). *)
Definition sameLetter (c d : N) : bool :=
  (c =? d)
  || (isUpper c && (d =? c + 32))
  || (isLower c && (d =? c - 32)).

Definition literalI (w : jsstring) : regex := List.map (fun c => one (sameLetter c)) w.

(** ** Text reconstructor: [reconstructText] *)

(** The replacement templates ['$1$2'] and ['$1 $2'] over two groups that
    are the atoms [i] and [j] of the pattern. *)
Definition glue (i j : nat) (pieces : list jsstring) : jsstring :=
  piece i pieces ++ piece j pieces.
Definition spaced (i j : nat) (pieces : list jsstring) : jsstring :=
  piece i pieces ++ js " " ++ piece j pieces.

(** The callback of steps 1 and 3: [match.replace(/\s+/g, '')]. *)
Definition dropSpaces (pieces : list jsstring) : jsstring :=
  replaceAll [plus isSpace] (fun _ => []) (List.concat pieces).

Definition fragmented3 : regex :=    (* /([a-z])\s+([a-z])\s+([a-z])/g *)
  [one isLower; plus isSpace; one isLower; plus isSpace; one isLower].
Definition fragmented2 : regex :=    (* /([a-z])\s+([a-z])/g *)
  [one isLower; plus isSpace; one isLower].
Definition fragmented5 : regex :=    (* five letters, four gaps *)
  [one isLower; plus isSpace; one isLower; plus isSpace; one isLower;
   plus isSpace; one isLower; plus isSpace; one isLower].

Definition wordBoundaryPatterns : list (regex * (list jsstring -> jsstring)) :=
  [ ([one isLower; one isUpper], spaced 0 1);
    ([one isLower;
      oneOf ["and"; "the"; "of"; "to"; "in"; "for"; "with"; "are"; "can"; "will"; "may"]%string],
     spaced 0 1);
    ([oneOf ["ing"; "tion"; "ed"; "er"; "ly"; "ness"]%string; one isLower], spaced 0 1);
    ([one isLetter; one isDigit], spaced 0 1);
    ([one isDigit; one isLetter], spaced 0 1);
    ([one isLetter; one isPunct], glue 0 1);
    ([one isPunct; one isLetter], spaced 0 1) ].

(** [/words?/gi] *)
Definition pluralI (w : string) : regex := literalI (js w) ++ [optional (sameLetter 115)].

Definition climbingFixes : list (regex * jsstring) :=
  [ (pluralI "placement", js "placement");
    (pluralI "anchor", js "anchor");
    (literalI (js "protection"), js "protection");
    (pluralI "carabiner", js "carabiner");
    (literalI (js "generally"), js "generally");
    (literalI (js "stronger"), js "stronger");
    (literalI (js "smaller"), js "smaller");
    (literalI (js "larger"), js "larger");
    (literalI (js "important"), js "important") ].

(** The keys of [commonWordsMap] in insertion order, with their values. *)
Definition commonWordsMap : list (jsstring * jsstring) :=
  [ (js "gene rally", js "generally");
    (js "place ment", js "placement");
    (js "place ments", js "placements");
    (js "import ant", js "important");
    (js "strong er", js "stronger");
    (js "small er", js "smaller");
    (js "larg er", js "larger");
    (js "fig ure", js "figure");
    (js "anch or", js "anchor");
    (js "anch ors", js "anchors");
    (js "protect ion", js "protection");
    (js "cara bin er", js "carabiner");
    (js "cara bin ers", js "carabiners") ].

Definition mergeFragments (text : jsstring) : jsstring :=      (* steps 1 to 3 *)
  let text := replaceAll fragmented3 dropSpaces text in
  let text := replaceAll fragmented2 (glue 0 2) text in
  replaceAll fragmented5 dropSpaces text.

Definition insertBoundaries (text : jsstring) : jsstring :=    (* step 4 *)
  fold_left (fun text pr => replaceAll (fst pr) (snd pr) text) wordBoundaryPatterns text.

Definition fixTerminology (text : jsstring) : jsstring :=      (* step 5 *)
  fold_left (fun text pr => replaceAll (fst pr) (fun _ => snd pr) text) climbingFixes text.

Definition spaceRun : regex := [atLeast 2 isSpace].                        (* /\s{2,}/g *)
Definition lineBreak : regex := [star isSpace; one isNewline; star isSpace]. (* /\s*\n\s*/g *)
Definition blankLines : regex := [atLeast 3 isNewline].                     (* /\n{3,}/g *)

Definition cleanWhitespace (text : jsstring) : jsstring :=     (* step 6 *)
  let text := replaceAll spaceRun (fun _ => js " ") text in
  let text := replaceAll lineBreak (fun _ => [10]) text in
  let text := replaceAll blankLines (fun _ => [10; 10]) text in
  trim text.

Definition fixCommonWords (text : jsstring) : jsstring :=      (* step 7 *)
  fold_left (fun text pr => replaceAll (literalI (fst pr)) (fun _ => snd pr) text)
    commonWordsMap text.

Definition reconstructText (rawText : jsstring) : jsstring :=
  match rawText with
  | [] => []
  | _ =>
      fixCommonWords (cleanWhitespace (fixTerminology (insertBoundaries
        (mergeFragments rawText))))
  end.

(** The guard [!rawText] also covers a value that is no string ([null],
    [undefined]): [None] here. *)
Definition reconstructTextOf (rawText : option jsstring) : jsstring :=
  match rawText with
  | None => []
  | Some t => reconstructText t
  end.

(** ** Host

    [String.prototype.toLowerCase] and [decodeURIComponent] are tables of the
    host; the code is modelled over any such pair.  [decodeURIComponent]
    returns [None] where the host raises [URIError].  [projectDir] is where
    the server is installed: the segments of the absolute path of the
    directory that holds [src], so that [__dirname] is [projectDir/src]. *)

Class Runtime := {
  toLowerCase : jsstring -> jsstring;
  decodeURIComponent : jsstring -> option jsstring;
  projectDir : list jsstring
}.

(** The property names every object literal inherits from
    [Object.prototype]; looking one of them up on [{}] yields a function (or,
    for [__proto__], the prototype object), never [undefined]. *)
Definition objectPrototypeKeys : list jsstring :=
  List.map js
    ["constructor"; "__defineGetter__"; "__defineSetter__"; "hasOwnProperty";
     "__lookupGetter__"; "__lookupSetter__"; "isPrototypeOf";
     "propertyIsEnumerable"; "toString"; "valueOf"; "__proto__";
     "toLocaleString"]%string.

Definition jsstring_eqb (a b : jsstring) : bool := bool_decide (a = b).

Definition isInherited (key : jsstring) : bool :=
  existsb (jsstring_eqb key) objectPrototypeKeys.

(** What [comprehensiveExtractPDF] catches and throws on as an [Error]. *)
Inductive Failure :=
| ReadFileFailed                 (* [fs.readFile] rejects *)
| LengthOfUndefined              (* TypeError at [fullText.length] *)
| PushIsNotAFunction             (* TypeError at [index[word].push] *)
| WriteFileFailed.               (* [fs.writeFile] rejects *)

(** A call either returns or throws. *)
Inductive Outcome (A : Type) :=
| Returned (a : A)
| Thrown (error : Failure).
Arguments Returned {A} a.
Arguments Thrown {A} error.

Definition EXTRACTION_CONFIG_CHUNK_SIZE : Z := 150000.
Definition EXTRACTION_CONFIG_CONTEXT_WINDOW : Z := 500.

(** ** Chapter titles: [getChapterTitle] *)

(** [.] matches any code unit but a line terminator. *)
Definition anyChar (c : N) : bool :=
  negb ((c =? 10) || (c =? 13) || (c =? 8232) || (c =? 8233)).

Definition dot : item := one (N.eqb 46).                          (* \. *)

(** A pattern that ends in [$]: after its last atom the input must be at its
    end. *)
Fixpoint matchToEnd (re : regex) : jsstring -> option (list jsstring * jsstring) :=
  match re with
  | [] => fun s => match s with
                   | [] => Some ([], [])
                   | _ :: _ => None
                   end
  | it :: re' => matchItem (matchToEnd re') it
  end.

(** [s.match(/re$/)] without [^]: the first index at which the pattern
    matches up to the end. *)
Fixpoint searchToEnd (re : regex) (s : jsstring) : option (list jsstring * jsstring) :=
  match matchToEnd re s with
  | Some r => Some r
  | None => match s with
            | [] => None
            | _ :: s' => searchToEnd re s'
            end
  end.

(** [/^Chapter\s*(\d+)\.\s*(.+)\.pdf$/i]; the groups are the atoms 8 and 11. *)
Definition newFormat : regex :=
  literalI (js "Chapter")
  ++ [star isSpace; plus isDigit; dot; star isSpace; plus anyChar]
  ++ literalI (js ".pdf").

(** [/Ch\d+_Chapter\s*(\d+)\.\s*(.+)\.pdf$/i]; the groups are the atoms 12
    and 15. *)
Definition oldFormat : regex :=
  literalI (js "Ch") ++ [plus isDigit] ++ literalI (js "_Chapter")
  ++ [star isSpace; plus isDigit; dot; star isSpace; plus anyChar]
  ++ literalI (js ".pdf").

(** [/^Chapter\s*(\d+)\s+(.+)\.pdf$/i]; the groups are the atoms 8 and 10. *)
Definition vdiffFormat : regex :=
  literalI (js "Chapter")
  ++ [star isSpace; plus isDigit; plus isSpace; plus anyChar]
  ++ literalI (js ".pdf").

(** [`Chapter ${number}: ${name}`] *)
Definition chapterTitleOf (number name : jsstring) : jsstring :=
  js "Chapter " ++ number ++ js ": " ++ name.

(** The chains of [if (chapterName.includes(...)) return ...]. *)
Definition anchorsChapters : list (jsstring * jsstring) :=
  [ (js "Chapter_8_SRENE", js "Chapter 8: SRENE Anchors");
    (js "Chapter_9_Belay", js "Chapter 9: Belay Anchors");
    (js "Chapter 10_Other", js "Chapter 10: Other Anchors");
    (js "Chapter 2_Passive", js "Chapter 2: Passive Chocks");
    (js "Chapter 3_Mechanical", js "Chapter 3: Mechanical Chocks");
    (js "Chapter 4_Fixed", js "Chapter 4: Fixed Gear");
    (js "Chapter 5_Fall Forces", js "Chapter 5: Fall Forces and the Jesus Nut");
    (js "Chapter 6_Judging", js "Chapter 6: Judging the Direction of Pull");
    (js "Chapter 7_Knots", js "Chapter 7: Knots for Anchoring") ].

Definition vdiffChapters : list (jsstring * jsstring) :=
  [ (js "04_Anchors", js "Chapter 4: Anchors");
    (js "05_Descending", js "Chapter 5: Descending");
    (js "01_Introduction", js "Chapter 1: Introduction");
    (js "02_Belaying", js "Chapter 2: Belaying");
    (js "03_Leading", js "Chapter 3: Leading");
    (js "06_Multi-Pitch", js "Chapter 6: Multi-Pitch");
    (js "07_Technique", js "Chapter 7: Technique");
    (js "08_Knots", js "Chapter 8: Knots") ].

Fixpoint firstIncluded (chapterName : jsstring) (l : list (jsstring * jsstring))
  : option jsstring :=
  match l with
  | [] => None
  | (marker, chapterTitle) :: l' =>
      if includes chapterName marker then Some chapterTitle
      else firstIncluded chapterName l'
  end.

Definition getChapterTitle (chapterName : jsstring) : jsstring :=
  match matchToEnd newFormat chapterName with
  | Some (newMatch, _) => chapterTitleOf (piece 8 newMatch) (piece 11 newMatch)
  | None =>
  match searchToEnd oldFormat chapterName with
  | Some (oldMatch, _) => chapterTitleOf (piece 12 oldMatch) (piece 15 oldMatch)
  | None =>
  match firstIncluded chapterName anchorsChapters with
  | Some chapterTitle => chapterTitle
  | None =>
  match matchToEnd vdiffFormat chapterName with
  | Some (vdiffMatch, _) => chapterTitleOf (piece 8 vdiffMatch) (piece 10 vdiffMatch)
  | None =>
  match firstIncluded chapterName vdiffChapters with
  | Some chapterTitle => chapterTitle
  | None => replaceFirst (js ".json") [] (replaceFirst (js ".pdf") [] chapterName)
  end end end end end.

(** ** Book metadata: [getBookMetadata] *)

Record BookMetadata := {
  bookTitle : jsstring;           (* title *)
  authors : list jsstring;
  edition : jsstring;
  publisher : jsstring;
  year : jsstring
}.

Definition bookMetadata : list (jsstring * BookMetadata) :=
  [ (js "Climbing Anchors",
     {| bookTitle := js "Climbing Anchors";
        authors := [js "John Long"; js "Bob Gaines"];
        edition := js "2nd Edition";
        publisher := js "Falcon Guides";
        year := js "2013" |});
    (js "Mountaineering - The Freedom of the Hills",
     {| bookTitle := js "Mountaineering: The Freedom of the Hills";
        authors := [js "The Mountaineers"];
        edition := js "9th Edition";
        publisher := js "The Mountaineers Books";
        year := js "2017" |});
    (js "VDiff - Sports Basics",
     {| bookTitle := js "Sport Climbing Basics";
        authors := [js "VDiff Climbing"];
        edition := js "1st Edition";
        publisher := js "VDiff";
        year := js "2020" |}) ].

Fixpoint ownProperty {A} (key : jsstring) (l : list (jsstring * A)) : option A :=
  match l with
  | [] => None
  | (k, v) :: l' => if jsstring_eqb key k then Some v else ownProperty key l'
  end.

(** [bookMetadata[bookName] || { ... }].  Under a name inherited from
    [Object.prototype] the lookup finds a function (or the prototype
    object), which is truthy and has no [authors]: [None] here. *)
Definition getBookMetadata (bookName : jsstring) : option BookMetadata :=
  match ownProperty bookName bookMetadata with
  | Some metadata => Some metadata
  | None =>
      if isInherited bookName then None
      else Some {| bookTitle := replaceAll [one (N.eqb 95)] (fun _ => js " ") bookName;
                   authors := [js "Unknown"];
                   edition := js "Unknown";
                   publisher := js "Unknown";
                   year := js "Unknown" |}
  end.

(** ** Citations *)

(** The citations are strings, or the [TypeError] of [metadata.authors.join]
    and [metadata.authors[0]] on a value without [authors] ([None]). *)
Definition formatCitation (bookName chapterName : jsstring) (sectionHeading : option jsstring)
  : option jsstring :=
  match getBookMetadata bookName with
  | None => None
  | Some metadata =>
      let chapterTitle := getChapterTitle chapterName in
      let citation :=
        join (js ", ") (authors metadata) ++ js ". " ++ [34] ++ chapterTitle ++ js "."
        ++ [34] ++ js " In " ++ bookTitle metadata ++ js ", " ++ edition metadata in
      let citation :=
        match sectionHeading with
        | Some (c :: heading) => citation ++ js ", " ++ (c :: heading) ++ js " section"
        | _ => citation
        end in
      Some (citation ++ js ". " ++ publisher metadata ++ js ", " ++ year metadata ++ js ".")
  end.

(** [chapterTitle.split(':')[1].trim()] when the title has a colon. *)
Definition chapterTopicOf (chapterTitle : jsstring) : jsstring :=
  if includes chapterTitle (js ":")
  then trim (nth 1 (splitOn 58 chapterTitle) [])
  else chapterTitle.

Definition formatInlineCitation (bookName chapterName : jsstring) : option jsstring :=
  match getBookMetadata bookName with
  | None => None
  | Some metadata =>
      match authors metadata with
      | [] => None
      | first :: others =>
          let author := List.last (splitOn 32 first) [] in
          let chapterTopic := chapterTopicOf (getChapterTitle chapterName) in
          let citation := js "(" ++ author in
          let citation :=
            if (1 <? List.length (authors metadata))%nat then citation ++ js " et al."
            else citation in
          let citation := citation ++ js ", " ++ year metadata ++ js ", " ++ [34]
                          ++ chapterTopic ++ [34] in
          Some (citation ++ js ")")
      end
  end.

Definition formatShortCitation (bookName chapterName : jsstring) : jsstring :=
  [34] ++ chapterTopicOf (getChapterTitle chapterName) ++ [34].

(** ** Data model *)

(** A chunk of [textChunks].  [endPage] is [undefined] ([None]) when neither
    the character map nor [totalPages] supplies a number.  The presentation
    fields [pageReferences] and [sectionHeading] are not part of the record;
    the tools that read [sectionHeading] take it as a function of the
    chunk. *)
Record Chunk := {
  id : Z;
  text : jsstring;
  startChar : Z;
  endChar : Z;
  startPage : Z;
  endPage : option Z;
  topics : list jsstring
}.

(** What an extraction method resolves to when it resolves to an object. *)
Record Extraction := {
  exText : jsstring;
  pageData : gmap Z jsstring;
  totalPages : option Z
}.

(** [extractTextWithPDF2JSON] resolves to the string [''] on two paths. *)
Inductive Resolved :=
| ResObject (e : Extraction)
| ResString (s : jsstring).

Record ExtractedContent := {
  chapterName : jsstring;
  extractedAt : jsstring;
  contentText : jsstring;
  contentTotalPages : option Z;
  contentPageData : gmap Z jsstring;
  textChunks : list Chunk;
  searchIndex : gmap jsstring (list Z)
}.

Section Pipeline.
Context {rt : Runtime}.

(** ** Topics and search index *)

Definition climbingTerms : list jsstring :=
  List.map js
    ["anchor"; "anchors"; "belay"; "belaying"; "rappel"; "rappelling";
     "knot"; "knots"; "rope"; "carabiner"; "cam"; "nut"; "protection";
     "pitch"; "multipitch"; "trad"; "traditional"; "sport"; "lead";
     "follow"; "climbing"; "technique"; "safety"; "SERENE"; "equalization"]%string.

Definition extractTopics (text : jsstring) : list jsstring :=
  let lowerText := toLowerCase text in
  List.filter (fun term => includes lowerText term) climbingTerms.

(** [this.x.toLowerCase().split(/\W+/).filter(w => w.length > 2)] *)
Definition wordsOf (s : jsstring) : list jsstring :=
  List.filter (fun w => (2 <? jslen w)%Z) (splitNonWord (toLowerCase s)).

(** [index[word].push(id)], after [if (!index[word]) index[word] = []].  For
    a word that names an inherited property, [index[word]] is already truthy
    and has no [push]: the call throws [TypeError] ([None]). *)
Definition indexWord (cid : Z) (index : option (gmap jsstring (list Z))) (word : jsstring)
  : option (gmap jsstring (list Z)) :=
  match index with
  | None => None
  | Some index =>
      if isInherited word then None
      else Some (<[word := default [] (index !! word) ++ [cid]]> index)
  end.

Definition createSearchIndex (fullText : jsstring) (textChunks : list Chunk)
  : option (gmap jsstring (list Z)) :=
  fold_left (fun index chunk => fold_left (indexWord (id chunk)) (wordsOf (text chunk)) index)
    textChunks (Some ∅).

(** ** Chunker *)

(** [Object.keys(pageData).sort((a, b) => parseInt(a) - parseInt(b))] *)
Definition sortedPages (pageData : gmap Z jsstring) : list Z :=
  merge_sort Z.le (fst <$> map_to_list pageData).

(** The inner loop of [createCharToPageMap]: at most [n] characters, and
    none once [currentChar] has reached the end of the text. *)
Fixpoint assignPage (n : nat) (textLength pageNum : Z) (st : gmap Z Z * Z) : gmap Z Z * Z :=
  match n with
  | O => st
  | S n' =>
      let '(charToPageMap, currentChar) := st in
      if (currentChar <? textLength)%Z
      then assignPage n' textLength pageNum
             (<[currentChar := pageNum]> charToPageMap, (currentChar + 1)%Z)
      else st
  end.

Definition createCharToPageMap (fullText : jsstring) (pageData : gmap Z jsstring) : gmap Z Z :=
  fst (fold_left
         (fun st pageNum =>
            let pageText := default [] (pageData !! pageNum) in
            let pageLength := S (List.length pageText) in     (* +1 for line break *)
            assignPage pageLength (jslen fullText) pageNum st)
         (sortedPages pageData) (∅, 0%Z)).

(** [x || d] for a number or [undefined] on the left. *)
Definition orNumber (x : option Z) (d : Z) : Z :=
  match x with
  | Some v => if (v =? 0)%Z then d else v
  | None => d
  end.

Definition orMaybe (x : option Z) (d : option Z) : option Z :=
  match x with
  | Some v => if (v =? 0)%Z then d else Some v
  | None => d
  end.

Definition makeChunk (fullText : jsstring) (charToPageMap : gmap Z Z)
    (totalPages : option Z) (chunkSize i : Z) (n : nat) : Chunk :=
  let chunkText := substring fullText i (i + chunkSize) in
  let endChar := Z.min (i + chunkSize) (jslen fullText) in
  {| id := Z.of_nat n;
     text := chunkText;
     startChar := i;
     endChar := endChar;
     startPage := orNumber (charToPageMap !! i) 1;
     endPage := orMaybe (charToPageMap !! (endChar - 1)%Z) totalPages;
     topics := extractTopics chunkText |}.

(** [for (let i = 0; i < fullText.length; i += chunkSize)], one iteration per
    unit of fuel. *)
Fixpoint chunkLoop (fuel : nat) (fullText : jsstring) (charToPageMap : gmap Z Z)
    (totalPages : option Z) (chunkSize i : Z) (chunks : list Chunk) : list Chunk :=
  match fuel with
  | O => chunks
  | S fuel' =>
      if (i <? jslen fullText)%Z then
        chunkLoop fuel' fullText charToPageMap totalPages chunkSize (i + chunkSize)%Z
          (chunks ++ [makeChunk fullText charToPageMap totalPages chunkSize i (List.length chunks)])
      else chunks
  end.

(** The loop advances by [chunkSize >= 1] characters at a time, so it makes
    no more iterations than the text has characters. *)
Definition createPageAwareChunks (fullText : jsstring) (pageData : gmap Z jsstring)
    (totalPages : option Z) : list Chunk :=
  let chunkSize := EXTRACTION_CONFIG_CHUNK_SIZE in
  let charToPageMap := createCharToPageMap fullText pageData in
  chunkLoop (List.length fullText) fullText charToPageMap totalPages chunkSize 0 [].

(** ** Text extractor *)

(** What [PdfReader.parseBuffer] hands to its callback: items that carry a
    page number, a text, both or neither, and then either an error or the
    end of the document (a falsy item). *)
Record ReaderItem := {
  itemPage : option Z;
  itemText : option jsstring
}.

Inductive ReaderEnd := ReaderError | EndOfDocument.

Record ReaderRun := {
  readerItems : list ReaderItem;
  readerEnd : ReaderEnd
}.

Definition emptyExtraction : Extraction :=      (* { text: '', pageData: {} } *)
  {| exText := []; pageData := ∅; totalPages := None |}.

Definition onReaderItem (st : gmap Z jsstring * Z) (item : ReaderItem) : gmap Z jsstring * Z :=
  let '(pageText, currentPage) := st in
  let '(pageText, currentPage) :=
    match itemPage item with
    | Some p =>
        if (p =? 0)%Z then (pageText, currentPage)
        else (match pageText !! p with
              | Some (_ :: _) => pageText
              | _ => <[p := []]> pageText
              end, p)
    | None => (pageText, currentPage)
    end in
  match itemText item with
  | Some (c :: t) =>
      (<[currentPage := default [] (pageText !! currentPage) ++ (c :: t) ++ js " "]> pageText,
       currentPage)
  | _ => (pageText, currentPage)
  end.

Definition extractTextWithPdfReader (run : ReaderRun) : Extraction :=
  match readerEnd run with
  | ReaderError => emptyExtraction
  | EndOfDocument =>
      let pageText := fst (fold_left onReaderItem (readerItems run) (∅, 0%Z)) in
      let pages := sortedPages pageText in
      let fullText :=
        trim (join [10] (List.map (fun page => default [] (pageText !! page)) pages)) in
      {| exText := fullText;
         pageData := pageText;
         totalPages := Some (Z.of_nat (List.length pages)) |}
  end.

(** The data [pdf2json] reports with [pdfParser_dataReady]. *)
Record TextRun := { runT : option jsstring }.
Record TextItem := { itemR : option (list TextRun) }.      (* [None]: no array *)
Record Page := { pageTexts : option (list TextItem) }.     (* [None]: no array *)

Inductive PdfData :=
| NoPages                        (* [pdfData] or [pdfData.Pages] is falsy *)
| Pages (pages : list Page)
| Malformed.                     (* a shape on which the handler throws *)

Inductive Pdf2JsonRun :=
| DataError                      (* the parser emits [pdfParser_dataError] *)
| DataReady (pdfData : PdfData)
| ParseBufferThrows.

(** [s.replace(/\s{2,}/g, ' ').trim()] *)
Definition squeeze (s : jsstring) : jsstring :=
  trim (replaceAll spaceRun (fun _ => js " ") s).

Definition runText (run : TextRun) : jsstring :=
  match runT run with
  | Some (c :: t) =>
      let cleaned :=
        match decodeURIComponent (c :: t) with
        | Some decodedText => squeeze decodedText
        | None => squeeze (c :: t)
        end in
      match cleaned with
      | [] => []
      | _ => cleaned ++ js " "
      end
  | _ => []
  end.

Definition pageTextOf (page : Page) : jsstring :=
  match pageTexts page with
  | Some texts =>
      List.concat (List.map (fun textItem =>
                     match itemR textItem with
                     | Some runs => List.concat (List.map runText runs)
                     | None => []
                     end) texts)
  | None => []
  end.

(** The body of [Pages.forEach]: [pageNum = pageIndex + 1]. *)
Definition onPage (st : jsstring * gmap Z jsstring * Z) (page : Page)
  : jsstring * gmap Z jsstring * Z :=
  let '(fullText, pageData, pageIndex) := st in
  let pageNum := (pageIndex + 1)%Z in
  let pageText := pageTextOf page in
  (fullText ++ pageText ++ [10], <[pageNum := trim pageText]> pageData, (pageIndex + 1)%Z).

Definition extractTextWithPDF2JSON (run : Pdf2JsonRun) : Resolved :=
  match run with
  | DataError => ResString []
  | ParseBufferThrows => ResString []
  | DataReady Malformed => ResObject emptyExtraction
  | DataReady pdfData =>
      let pages := match pdfData with Pages pages => pages | _ => [] end in
      let '(fullText, pageData, _) := fold_left onPage pages ([], ∅, 0%Z) in
      ResObject {| exText := reconstructText fullText;
                   pageData := pageData;
                   totalPages := Some (Z.of_nat (size pageData)) |}
  end.

(** The two parsers' behaviour on the bytes of one PDF file. *)
Record PdfFile := {
  readerRun : ReaderRun;
  pdf2jsonRun : Pdf2JsonRun
}.

Inductive Method := PdfReaderMethod | PDF2JSONMethod.

(** What [fs.writeFile] does at a path: it writes the file, or it rejects
    before the file is opened (no such directory, no permission, a directory
    at the path) and leaves what is there, or it rejects after the file was
    opened and truncated, which leaves a text that [JSON.parse] refuses. *)
Inductive WriteOutcome := Written | NotOpened | Truncated.

(** The file system and the calls: the cache files that can be read and
    parsed, by their path; what a write at a path does; and the extraction
    methods invoked so far.  A file is taken to be identified by its
    normalised path (no links, a file system that tells cases apart). *)
Record World := {
  extracted : gmap jsstring ExtractedContent;
  writeFile : jsstring -> WriteOutcome;
  invoked : list Method
}.

Definition invoke (m : Method) (w : World) : World :=
  {| extracted := extracted w; writeFile := writeFile w; invoked := invoked w ++ [m] |}.

(** [path.join] on POSIX, under a directory given by its segments: the
    segments of the normalised path.  Empty segments and ['.'] are dropped,
    ['..'] drops the segment before it and is itself dropped at the root.
    [above] holds the segments so far, the last one first. *)
Fixpoint normalizeSegments (above : list jsstring) (segments : list jsstring)
  : list jsstring :=
  match segments with
  | [] => reverse above
  | segment :: rest =>
      if jsstring_eqb segment [] || jsstring_eqb segment (js ".")
      then normalizeSegments above rest
      else if jsstring_eqb segment (js "..")
      then normalizeSegments (tail above) rest
      else normalizeSegments (segment :: above) rest
  end.

(** [path.join(dir, name)] for an absolute, normalised [dir]: the path as a
    string.  A name that ends in a slash keeps it, but for the root. *)
Definition pathJoin (dir : list jsstring) (name : jsstring) : jsstring :=
  match normalizeSegments (reverse dir) (splitOn 47 name) with
  | [] => js "/"
  | segments =>
      List.concat (List.map (fun segment => 47 :: segment) segments)
      ++ (if endsWith name (js "/") then js "/" else [])
  end.

(** [path.join(__dirname, '..', 'extracted_content')] *)
Definition EXTRACTED_DIR : list jsstring := projectDir ++ [js "extracted_content"].

(** [path.join(EXTRACTED_DIR, chapterName.replace('.pdf', '.json'))] *)
Definition cacheFile (chapterName : jsstring) : jsstring :=
  pathJoin EXTRACTED_DIR (replaceFirst (js ".pdf") (js ".json") chapterName).

(** [await fs.writeFile(cacheFile, JSON.stringify(extractedContent, null, 2))]:
    whether the call resolves, and the files after it. *)
Definition writeCache (chapterName : jsstring) (content : ExtractedContent) (w : World)
  : bool * World :=
  match writeFile w (cacheFile chapterName) with
  | Written =>
      (true, {| extracted := <[cacheFile chapterName := content]> (extracted w);
                writeFile := writeFile w;
                invoked := invoked w |})
  | NotOpened => (false, w)
  | Truncated =>
      (false, {| extracted := delete (cacheFile chapterName) (extracted w);
                 writeFile := writeFile w;
                 invoked := invoked w |})
  end.

(** The primary result and the choice of the result to use. *)
Definition selectExtraction (pdf : PdfFile) (w : World) : Resolved * World :=
  let w := invoke PdfReaderMethod w in
  let extractionResult := extractTextWithPdfReader (readerRun pdf) in
  match exText extractionResult with
  | [] => (extractTextWithPDF2JSON (pdf2jsonRun pdf), invoke PDF2JSONMethod w)
  | _ =>
      if (jslen (exText extractionResult) <? 100)%Z
      then (extractTextWithPDF2JSON (pdf2jsonRun pdf), invoke PDF2JSONMethod w)
      else (ResObject extractionResult, w)
  end.

(** [file] is what [fs.readFile(filePath)] finds, [now] the time stamp. *)
Definition comprehensiveExtractPDF (file : option PdfFile) (chapterName now : jsstring)
    (w : World) : Outcome ExtractedContent * World :=
  match file with
  | None => (Thrown ReadFileFailed, w)
  | Some pdf =>
      let '(extractionResult, w) := selectExtraction pdf w in
      match extractionResult with
      | ResString _ => (Thrown LengthOfUndefined, w)
      | ResObject e =>
          let fullText := exText e in
          let textChunks := createPageAwareChunks fullText (pageData e) (totalPages e) in
          match createSearchIndex fullText textChunks with
          | None => (Thrown PushIsNotAFunction, w)
          | Some index =>
              let extractedContent :=
                {| chapterName := chapterName;
                   extractedAt := now;
                   contentText := fullText;
                   contentTotalPages := totalPages e;
                   contentPageData := pageData e;
                   textChunks := textChunks;
                   searchIndex := index |} in
              match writeCache chapterName extractedContent w with
              | (true, w) => (Returned extractedContent, w)
              | (false, w) => (Thrown WriteFileFailed, w)
              end
          end
      end
  end.

(** [JSON.parse] of the cache file, or [null] ([None]) when it cannot be
    read or parsed. *)
Definition getCachedContent (w : World) (chapterName : jsstring) : option ExtractedContent :=
  extracted w !! cacheFile chapterName.

(** ** Query engine *)

(** [a.sort(cmp)]: the sort is stable; [cmp x y <= 0] keeps [x] before [y]. *)
Fixpoint insertBy {A} (cmp : A -> A -> Z) (x : A) (l : list A) : list A :=
  match l with
  | [] => [x]
  | y :: l' => if (cmp x y <=? 0)%Z then x :: l else y :: insertBy cmp x l'
  end.

Definition jsSort {A} (cmp : A -> A -> Z) (l : list A) : list A :=
  List.fold_right (insertBy cmp) [] l.

(** [words.includes(w)] *)
Definition inWords (w : jsstring) (words : list jsstring) : bool :=
  existsb (jsstring_eqb w) words.

(** The sidecar metadata of a chapter; a field is [None] when absent. *)
Record Metadata := {
  title : option jsstring;
  description : option jsstring;
  keywords : option (list jsstring)
}.

Inductive DirEntry :=
| NotDirectory
| Directory (files : list jsstring).

(** [BOOKS_DIR]: its entries in [readdir] order, and for a book directory and
    a file name the parsed metadata file ([None] when it cannot be read or
    parsed). *)
Record Library := {
  bookDirs : list (jsstring * DirEntry);
  metadataFile : jsstring -> jsstring -> option Metadata
}.

Record ChapterRelevance := {
  file : jsstring;
  metadataScore : Z;
  metadata : option Metadata
}.

(** A scored match: a chunk spread with its score, or the placeholder built
    from the metadata ([source] is [None]). *)
Record ScoredMatch := {
  source : option Chunk;
  matchText : jsstring;
  matchTopics : list jsstring;
  score : Z
}.

Record SearchResult := {
  book : jsstring;
  chapter : jsstring;
  resultMetadataScore : Z;
  resultMetadata : option Metadata;
  matches : list ScoredMatch
}.

Definition scoreMetadata (queryWords : list jsstring) (m : Metadata) : Z :=
  let metadataScore := 0%Z in
  let metadataScore :=
    match keywords m with
    | Some kws =>
        fold_left (fun acc keyword =>
          let keywordLower := toLowerCase keyword in
          fold_left (fun acc queryWord =>
            if includes keywordLower queryWord || includes queryWord keywordLower
            then (acc + 50)%Z else acc) queryWords acc) kws metadataScore
    | None => metadataScore
    end in
  let metadataScore :=
    match title m with
    | Some t =>
        let titleLower := toLowerCase t in
        fold_left (fun acc queryWord =>
          if includes titleLower queryWord then (acc + 30)%Z else acc) queryWords metadataScore
    | None => metadataScore
    end in
  match description m with
  | Some d =>
      let descLower := toLowerCase d in
      fold_left (fun acc queryWord =>
        if includes descLower queryWord then (acc + 20)%Z else acc) queryWords metadataScore
  | None => metadataScore
  end.

Definition chapterRelevance (lib : Library) (queryWords : list jsstring)
    (bookDir f : jsstring) : ChapterRelevance :=
  match metadataFile lib bookDir (replaceFirst (js ".pdf") (js ".json") f) with
  | Some m => {| file := f; metadataScore := scoreMetadata queryWords m; metadata := Some m |}
  | None => {| file := f; metadataScore := 0; metadata := None |}
  end.

(** The filter of [searchContent] and [getChapterSection]. *)
Definition chunkIsRelevant (words : list jsstring) (chunk : Chunk) : bool :=
  let chunkTextLower := toLowerCase (text chunk) in
  existsb (fun word => includes chunkTextLower word) words
  || existsb (fun topic => inWords (toLowerCase topic) words) (topics chunk).

(** The score of a chunk.  A query word is made of word characters only,
    so [new RegExp(word, 'g')] is the literal pattern. *)
Definition scoreChunk (queryWords : list jsstring) (metadataScore : Z) (chunk : Chunk) : Z :=
  let score := metadataScore in
  let score :=
    fold_left (fun score word =>
      let matches := countMatches (literal word) (toLowerCase (text chunk)) in
      (score + Z.of_nat matches * 10)%Z) queryWords score in
  fold_left (fun score topic =>
    if inWords (toLowerCase topic) queryWords then (score + 20)%Z else score)
    (topics chunk) score.

Definition scored (queryWords : list jsstring) (metadataScore : Z) (chunk : Chunk) : ScoredMatch :=
  {| source := Some chunk;
     matchText := text chunk;
     matchTopics := topics chunk;
     score := scoreChunk queryWords metadataScore chunk |}.

Definition byScoreDescending (a b : ScoredMatch) : Z := (score b - score a)%Z.

Definition placeholderMatch (metadataScore : Z) (metadata : option Metadata) : ScoredMatch :=
  let kws := match metadata with
             | Some m => default [] (keywords m)
             | None => []
             end in
  let listed := match join (js ", ") kws with
                | [] => js "N/A"
                | l => l
                end in
  {| source := None;
     matchText := js "Chapter highly relevant based on keywords: " ++ listed;
     matchTopics := kws;
     score := metadataScore |}.

(** The scored matches of one chapter, before the cut to two. *)
Definition scoredMatchesOf (queryWords : list jsstring) (c : ChapterRelevance)
    (cached : ExtractedContent) : list ScoredMatch :=
  let chunkMatches := List.filter (chunkIsRelevant queryWords) (textChunks cached) in
  if (0 <? List.length chunkMatches)%nat || (0 <? metadataScore c)%Z then
    let scoredMatches :=
      jsSort byScoreDescending (List.map (scored queryWords (metadataScore c)) chunkMatches) in
    match scoredMatches with
    | [] => if (50 <=? metadataScore c)%Z
            then [placeholderMatch (metadataScore c) (metadata c)]
            else []
    | _ => scoredMatches
    end
  else [].

(** The body of the loop over [chaptersToSearch]: the results it pushes. *)
Definition searchChapter (w : World) (queryWords : list jsstring) (bookDir : jsstring)
    (c : ChapterRelevance) : list SearchResult :=
  match getCachedContent w (file c) with
  | None => []
  | Some cached =>
      match scoredMatchesOf queryWords c cached with
      | [] => []
      | scoredMatches =>
          [ {| book := bookDir;
               chapter := file c;
               resultMetadataScore := metadataScore c;
               resultMetadata := metadata c;
               matches := firstn 2 scoredMatches |} ]
      end
  end.

Definition searchBook (lib : Library) (w : World) (queryWords : list jsstring)
    (entry : jsstring * DirEntry) : list SearchResult :=
  let '(bookDir, e) := entry in
  match e with
  | NotDirectory => []
  | Directory files =>
      let pdfFiles := List.filter (fun f => endsWith (toLowerCase f) (js ".pdf")) files in
      let chaptersWithRelevance :=
        jsSort (fun a b => (metadataScore b - metadataScore a)%Z)
          (List.map (chapterRelevance lib queryWords bookDir) pdfFiles) in
      let hasMetadataMatches :=
        existsb (fun c => (0 <? metadataScore c)%Z) chaptersWithRelevance in
      let chaptersToSearch :=
        if hasMetadataMatches
        then List.filter (fun c => (0 <? metadataScore c)%Z) chaptersWithRelevance
        else chaptersWithRelevance in
      List.concat (List.map (searchChapter w queryWords bookDir) chaptersToSearch)
  end.

(** [Math.max(...scores)]; every result has at least one match, the empty
    case does not arise. *)
Definition maxScore (l : list ScoredMatch) : Z :=
  match l with
  | [] => 0%Z
  | m :: l' => fold_left (fun acc m' => Z.max acc (score m')) l' (score m)
  end.

Definition byBestMatchDescending (a b : SearchResult) : Z :=
  (maxScore (matches b) - maxScore (matches a))%Z.

(** The array [results] once sorted. *)
Definition searchResults (lib : Library) (w : World) (query : jsstring) : list SearchResult :=
  let queryWords := wordsOf query in
  jsSort byBestMatchDescending
    (List.concat (List.map (searchBook lib w queryWords) (bookDirs lib))).

(** The loop of [getContextSnippet] over the query words: [bestMatch.index],
    which starts at 0. *)
Definition bestMatchIndex (text : jsstring) (queryWords : list jsstring) : Z :=
  fold_left (fun bestMatch word =>
    match indexOf (toLowerCase text) word with
    | Some index =>
        if (bestMatch =? 0)%Z || (index <? bestMatch)%Z then index else bestMatch
    | None => bestMatch
    end) queryWords 0%Z.

(** [contextLength] defaults to [CONTEXT_WINDOW]; every caller uses the
    default, whose half is a whole number. *)
Definition getContextSnippet (text : jsstring) (queryWords : list jsstring)
    (contextLength : Z) : jsstring :=
  let bestMatch := bestMatchIndex text queryWords in
  if (bestMatch =? 0)%Z then
    substring text 0 contextLength
    ++ (if (contextLength <? jslen text)%Z then js "..." else [])
  else
    let start := Z.max 0 (bestMatch - contextLength / 2) in
    let end_ := Z.min (jslen text) (bestMatch + contextLength / 2) in
    let snippet := substring text start end_ in
    (if (0 <? start)%Z then js "..." else [])
    ++ snippet
    ++ (if (end_ <? jslen text)%Z then js "..." else []).

(** The field [sectionHeading] of a cached chunk, which the chunk model
    leaves out, supplies the heading a citation names and nothing else; the
    tools are modelled over any such field. *)
Variable sectionHeading : Chunk -> option jsstring.

(** [result.matches[0].sectionHeading]: the heading of the chunk, or for the
    placeholder [metadata?.title || 'Chapter Content']. *)
Definition firstHeading (result : SearchResult) : option jsstring :=
  match matches result with
  | [] => None
  | m :: _ =>
      match source m with
      | Some chunk => sectionHeading chunk
      | None =>
          match resultMetadata result with
          | Some {| title := Some (c :: t) |} => Some (c :: t)
          | _ => Some (js "Chapter Content")
          end
      end
  end.

(** What [searchContent] answers: the no-content message, or the number of
    chapters found and, for each of the first [maxResults], the result with
    the quoted snippet of each of its matches. *)
Inductive SearchResponse :=
| NoContentFound
| SearchResults (found : nat) (shown : list (SearchResult * list jsstring)).

(** [None] is the response of the [catch] block: a citation of a shown
    result threw. *)
Definition searchContent (lib : Library) (w : World) (query : jsstring) (maxResults : Z)
  : option SearchResponse :=
  let queryWords := wordsOf query in
  let results := searchResults lib w query in
  match results with
  | [] => Some NoContentFound
  | _ =>
      let shown := sliceFrom0 results maxResults in
      if forallb (fun result =>
           match formatCitation (book result) (chapter result) (firstHeading result),
                 formatInlineCitation (book result) (chapter result) with
           | Some _, Some _ => true
           | _, _ => false
           end) shown
      then
        Some (SearchResults (List.length results)
          (List.map (fun result =>
             (result,
              List.map (fun m => getContextSnippet (matchText m) queryWords
                                   EXTRACTION_CONFIG_CONTEXT_WINDOW) (matches result)))
             shown))
      else None
  end.

(** A property value of the object literal [contextSizes]: a number, or one
    of the functions and objects inherited from [Object.prototype]. *)
Inductive PropertyValue :=
| NumberValue (n : Z)
| InheritedValue.

Definition contextSizes (key : jsstring) : option PropertyValue :=
  if jsstring_eqb key (js "brief") then Some (NumberValue 1)
  else if jsstring_eqb key (js "detailed") then Some (NumberValue 2)
  else if jsstring_eqb key (js "comprehensive") then Some (NumberValue 3)
  else if isInherited key then Some InheritedValue
  else None.

(** [contextSizes[contextLevel] || 2] *)
Definition maxChunksFor (contextLevel : jsstring) : PropertyValue :=
  match contextSizes contextLevel with
  | Some (NumberValue n) => if (n =? 0)%Z then NumberValue 2 else NumberValue n
  | Some InheritedValue => InheritedValue
  | None => NumberValue 2
  end.

(** The integer [slice] makes of its argument: a function or an object
    converts to NaN, which counts as 0. *)
Definition toIntegerOrZero (v : PropertyValue) : Z :=
  match v with
  | NumberValue n => n
  | InheritedValue => 0%Z
  end.

Inductive SectionResponse :=
| NotExtracted                           (* error result: extract first *)
| NoSectionFound
| Sections (chunks : list Chunk).        (* one EVIDENCE block per chunk *)

(** [None] is the response of the [catch] block: a citation threw. *)
Definition getChapterSection (w : World) (bookName chapterName sectionTopic contextLevel : jsstring)
  : option SectionResponse :=
  match getCachedContent w chapterName with
  | None => Some NotExtracted
  | Some cached =>
      let topicWords := wordsOf sectionTopic in
      let relevantChunks := List.filter (chunkIsRelevant topicWords) (textChunks cached) in
      match relevantChunks with
      | [] => Some NoSectionFound
      | _ =>
          let maxChunks := maxChunksFor contextLevel in
          match formatCitation bookName chapterName (Some sectionTopic) with
          | None => None
          | Some _ =>
              let shown := sliceFrom0 relevantChunks (toIntegerOrZero maxChunks) in
              if forallb (fun chunk =>
                   match formatInlineCitation bookName chapterName,
                         formatCitation bookName chapterName (sectionHeading chunk) with
                   | Some _, Some _ => true
                   | _, _ => false
                   end) shown
              then Some (Sections shown)
              else None
          end
      end
  end.

End Pipeline.

(** The host functions on Basic Latin text: [toLowerCase] maps [A-Z] to
    [a-z], and a string without [%] decodes to itself.  Code units and
    escapes outside that range are beyond this instance; it serves to run
    the definitions on concrete inputs. *)
Definition lowerUnit (c : N) : N := if isUpper c then c + 32 else c.

Definition basicLatin : Runtime :=
  {| toLowerCase := List.map lowerUnit;
     decodeURIComponent := fun s => if existsb (N.eqb 37) s then None else Some s;
     projectDir := [js "srv"; js "climbmcp"] |}.

(** * Specification

    The predicates in which the properties are stated. *)

(** A string without whitespace at either end. *)
Definition edgesClean (s : jsstring) : Prop :=
  (forall c, head s = Some c -> isSpace c = false)
  /\ (forall c, last s = Some c -> isSpace c = false).

(** [unchangedBy re f t]: every match of [re] in [t] is replaced by what it
    matched. *)
Definition unchangedBy (re : regex) (f : list jsstring -> jsstring) (t : jsstring) : bool :=
  forallb (fun seg => jsstring_eqb (render f seg) (render (@List.concat N) seg)) (scan re t).

(** Already-clean text: no step of the reconstructor has anything to repair
    in it. *)
Definition alreadyClean (t : jsstring) : bool :=
  unchangedBy fragmented3 dropSpaces t
  && unchangedBy fragmented2 (glue 0 2) t
  && unchangedBy fragmented5 dropSpaces t
  && forallb (fun pr => unchangedBy (fst pr) (snd pr) t) wordBoundaryPatterns
  && forallb (fun pr => unchangedBy (fst pr) (fun _ => snd pr) t) climbingFixes
  && unchangedBy spaceRun (fun _ => js " ") t
  && unchangedBy lineBreak (fun _ => [10]) t
  && unchangedBy blankLines (fun _ => [10; 10]) t
  && jsstring_eqb (trim t) t
  && forallb (fun pr => unchangedBy (literalI (fst pr)) (fun _ => snd pr) t) commonWordsMap.

(** Settled text: the steps that merge fragments, insert word boundaries
    and fix the terminology (steps 1 to 5), taken together, have nothing to
    change in it, and neither has the step that joins the common words
    (step 7).  A single step may change it, as long as the others change it
    back. *)
Definition settled (t : jsstring) : bool :=
  jsstring_eqb (fixTerminology (insertBoundaries (mergeFragments t))) t
  && jsstring_eqb (fixCommonWords t) t.

(** A continuation is sound when the pieces it returns, followed by the rest,
    are its input. *)
Definition soundMatcher (k : jsstring -> option (list jsstring * jsstring)) : Prop :=
  forall s pieces rest, k s = Some (pieces, rest) -> List.concat pieces ++ rest = s.

(** [tiles from chunks to]: the chunks cover [from, to) one after the other,
    each of them non-empty. *)
Fixpoint tiles (from : Z) (chunks : list Chunk) (to : Z) : Prop :=
  match chunks with
  | [] => from = to
  | c :: rest => startChar c = from /\ (from < endChar c)%Z /\ tiles (endChar c) rest to
  end.

(** The chunks partition the text: the first starts at character 0, each
    ends where the next starts, the last ends at the end of the text, none is
    empty, and the chunk texts in order spell the text. *)
Definition partitionsText (fullText : jsstring) (chunks : list Chunk) : Prop :=
  (forall c, head chunks = Some c -> startChar c = 0%Z)
  /\ (forall k c d, chunks !! k = Some c -> chunks !! S k = Some d ->
        endChar c = startChar d)
  /\ (forall c, last chunks = Some c -> endChar c = jslen fullText)
  /\ (forall k c, chunks !! k = Some c ->
        id c = Z.of_nat k
        /\ startChar c = (Z.of_nat k * 150000)%Z
        /\ (startChar c < endChar c)%Z
        /\ text c = substring fullText (startChar c) (endChar c))
  /\ List.concat (List.map text chunks) = fullText.

(** A chunk's page range is in order: [endPage] is a number and
    [startPage <= endPage]. *)
Definition pagesOrdered (c : Chunk) : Prop :=
  exists e, endPage c = Some e /\ (startPage c <= e)%Z.

(** The state of [createCharToPageMap]: the characters [0 .. currentChar)
    are mapped, to pages that satisfy [P], are at most [bound], and do not
    decrease along the text. *)
Definition mapInv (P : Z -> Prop) (bound : Z) (st : gmap Z Z * Z) : Prop :=
  (0 <= snd st)%Z
  /\ (forall k, is_Some (fst st !! k) <-> (0 <= k < snd st)%Z)
  /\ (forall k v, fst st !! k = Some v -> P v /\ (v <= bound)%Z)
  /\ (forall k1 k2 v1 v2, (k1 <= k2)%Z ->
        fst st !! k1 = Some v1 -> fst st !! k2 = Some v2 -> (v1 <= v2)%Z).

(** One round of the outer loop of [createCharToPageMap]. *)
Definition assignStep (fullText : jsstring) (pageData : gmap Z jsstring)
    (st : gmap Z Z * Z) (pageNum : Z) : gmap Z Z * Z :=
  assignPage (S (List.length (default [] (pageData !! pageNum))))
    (jslen fullText) pageNum st.

(** The characters the pages in [pages] can take, line breaks included. *)
Definition capacity (pageData : gmap Z jsstring) (pages : list Z) : Z :=
  fold_right (fun pageNum acc =>
                (Z.of_nat (S (List.length (default [] (pageData !! pageNum)))) + acc)%Z)
    0%Z pages.

(** The state of [Pages.forEach] after [k] pages: the page map has exactly
    the keys [1 .. k], and the text is empty only when no page was seen. *)
Definition pagesSeen (k : nat) (st : jsstring * gmap Z jsstring * Z) : Prop :=
  let '(fullText, pageData, pageIndex) := st in
  pageIndex = Z.of_nat k
  /\ (forall p, is_Some (pageData !! p) <-> (1 <= p <= Z.of_nat k)%Z)
  /\ size pageData = k
  /\ (fullText = [] <-> k = 0%nat).

(** What the primary method resolves to on a file. *)
Definition primaryResult (pdf : PdfFile) : Extraction :=
  extractTextWithPdfReader (readerRun pdf).

(** The calls an extraction adds to those made before. *)
Definition callsOf {A} (before : World) (run : A * World) : list Method :=
  skipn (List.length (invoked before)) (invoked (snd run)).

(** The occurrences of a query word that [scoreChunk] counts in a chunk. *)
Definition occurrences {rt : Runtime} (word : jsstring) (chunk : Chunk) : nat :=
  countMatches (literal word) (toLowerCase (text chunk)).

(** The comparator [(a, b) => key(b) - key(a)]. *)
Definition descendingBy {A} (key : A -> Z) (a b : A) : Z := (key b - key a)%Z.

(** [x] is not ranked below [y]. *)
Definition notBelow {A} (key : A -> Z) (x y : A) : Prop := (key y <= key x)%Z.

(** What a result of the loop over the chapters is made of. *)
Definition fromChapter {rt : Runtime} (w : World) (queryWords : list jsstring)
    (r : SearchResult) : Prop :=
  exists c cached,
    getCachedContent w (chapter r) = Some cached
    /\ matches r = firstn 2 (scoredMatchesOf queryWords c cached)
    /\ matches r <> [].

(** The chunk ids an index lists under [word]: one entry per occurrence of
    the word among the words of each chunk, in chunk order. *)
Definition postings {rt : Runtime} (word : jsstring) (chunks : list Chunk) : list Z :=
  List.flat_map (fun chunk =>
    List.map (fun _ => id chunk) (List.filter (jsstring_eqb word) (wordsOf (text chunk))))
    chunks.

(** Some chunk has a word that names an inherited property. *)
Definition hasInheritedWord {rt : Runtime} (chunks : list Chunk) : bool :=
  existsb (fun chunk => existsb isInherited (wordsOf (text chunk))) chunks.

(** The record [comprehensiveExtractPDF] makes of an extraction result and
    the index of its chunks. *)
Definition contentOf {rt : Runtime} (chapterName now : jsstring) (e : Extraction)
    (index : gmap jsstring (list Z)) : ExtractedContent :=
  {| chapterName := chapterName;
     extractedAt := now;
     contentText := exText e;
     contentTotalPages := totalPages e;
     contentPageData := pageData e;
     textChunks := createPageAwareChunks (exText e) (pageData e) (totalPages e);
     searchIndex := index |}.

(** [builtFrom e chapterName now w outcome]: the outcome is that of an
    extraction that uses the result [e].  It throws the [TypeError] of the
    index when a chunk of [e] has a word that names an inherited property,
    else the error of the write when the cache file cannot be written, and
    else returns the record made of [e]. *)
Definition builtFrom {rt : Runtime} (e : Extraction) (chapterName now : jsstring) (w : World)
    (outcome : Outcome ExtractedContent) : Prop :=
  let chunks := createPageAwareChunks (exText e) (pageData e) (totalPages e) in
  if hasInheritedWord chunks then outcome = Thrown PushIsNotAFunction
  else match writeFile w (cacheFile chapterName) with
       | Written =>
           exists index,
             createSearchIndex (exText e) chunks = Some index
             /\ outcome = Returned (contentOf chapterName now e index)
       | _ => outcome = Thrown WriteFileFailed
       end.

(** The number of chunks a context level asks for. *)
Definition chunksFor (contextLevel : jsstring) : nat :=
  if jsstring_eqb contextLevel (js "brief") then 1
  else if jsstring_eqb contextLevel (js "comprehensive") then 3
  else 2.

(** ** Worked inputs *)

(** The paths of the cache files in the worked inputs, for the server
    installed at [/srv/climbmcp]. *)
Definition cachePath (chapterName : string) : jsstring :=
  @cacheFile basicLatin (js chapterName).

(** No cache file yet; every write succeeds. *)
Definition emptyWorld : World :=
  {| extracted := ∅; writeFile := fun _ => Written; invoked := [] |}.

(** Two chunks that differ in the occurrences of ['rope'] only. *)
Definition ropeOnce : Chunk :=
  {| id := 0; text := js "Tie the rope."; startChar := 0; endChar := 13;
     startPage := 1; endPage := Some 1%Z; topics := [js "rope"] |}.

Definition ropeTwice : Chunk :=
  {| id := 0; text := js "Tie the rope. Coil the rope."; startChar := 0; endChar := 28;
     startPage := 1; endPage := Some 1%Z; topics := [js "rope"] |}.

(** Two chunks of which the second has ['xyz'] put into the middle of the
    first one's text. *)
Definition plainChunk (t : string) : Chunk :=
  {| id := 0; text := js t; startChar := 0; endChar := jslen (js t);
     startPage := 1; endPage := Some 1%Z; topics := [] |}.

(** A text of 1006 characters with ['rope'] at index 0 and ['anchor'] at
    index 600. *)
Definition ropeThenAnchor : jsstring :=
  js "rope" ++ repeat 45 596 ++ js "anchor" ++ repeat 45 400.

(** A file on which [PdfReader] reports an error and [pdf2json] emits
    [pdfParser_dataError]. *)
Definition unparsablePdf : PdfFile :=
  {| readerRun := {| readerItems := []; readerEnd := ReaderError |};
     pdf2jsonRun := DataError |}.

(** A file whose primary text has 120 characters on one page. *)
Definition onePagePdf : PdfFile :=
  {| readerRun :=
       {| readerItems := [ {| itemPage := Some 1%Z; itemText := None |};
                           {| itemPage := None; itemText := Some (repeat 65 120) |} ];
          readerEnd := EndOfDocument |};
     pdf2jsonRun := DataError |}.

(** A run of the primary method with the pages 5 and 7. *)
Definition pagesFiveAndSeven : ReaderRun :=
  {| readerItems := [ {| itemPage := Some 5%Z; itemText := Some (js "abc") |};
                      {| itemPage := Some 7%Z; itemText := Some (js "de") |} ];
     readerEnd := EndOfDocument |}.

(** A run of the secondary method with one page, whose text ['a1b2c3'] the
    reconstructor lengthens to ['a 1 b 2 c 3']. *)
Definition onePageOfDigits : Pdf2JsonRun :=
  DataReady (Pages [ {| pageTexts :=
                          Some [ {| itemR := Some [ {| runT := Some (js "a1b2c3") |} ] |} ] |} ]).

(** A cached chapter of four chunks about ropes; the third has the most
    occurrences. *)
Definition ropeChunk (n : Z) (t : string) : Chunk :=
  {| id := n; text := js t; startChar := 0; endChar := jslen (js t);
     startPage := 1; endPage := Some 1%Z; topics := [js "rope"] |}.

Definition ropeChapter : ExtractedContent :=
  {| chapterName := js "ropes.pdf";
     extractedAt := js "2024-01-01T00:00:00.000Z";
     contentText := [];
     contentTotalPages := Some 1%Z;
     contentPageData := ∅;
     textChunks := [ ropeChunk 0 "Coil the rope.";
                     ropeChunk 1 "A rope is dynamic or static.";
                     ropeChunk 2 "Rope, rope and more rope.";
                     ropeChunk 3 "Inspect the rope." ];
     searchIndex := ∅ |}.

Definition ropeWorld : World :=
  {| extracted := {[ cachePath "ropes.pdf" := ropeChapter ]};
     writeFile := fun _ => Written;
     invoked := [] |}.

(** Five extracted chapters of one book, each with one chunk that names the
    rope a different number of times. *)
Definition ropesText (n : nat) : jsstring := List.concat (repeat (js "rope ") n).

Definition ropesChapter (name : string) (n : nat) : ExtractedContent :=
  {| chapterName := js name;
     extractedAt := js "2024-01-01T00:00:00.000Z";
     contentText := ropesText n;
     contentTotalPages := Some 1%Z;
     contentPageData := ∅;
     textChunks := [ {| id := 0; text := ropesText n; startChar := 0;
                        endChar := jslen (ropesText n); startPage := 1;
                        endPage := Some 1%Z; topics := [js "rope"] |} ];
     searchIndex := ∅ |}.

Definition fiveChapters : Library :=
  {| bookDirs := [ (js "README.md", NotDirectory);
                   (js "Ropes",
                    Directory (List.map js ["a.pdf"; "b.pdf"; "c.pdf"; "d.pdf"; "e.pdf"]%string)) ];
     metadataFile := fun _ _ => None |}.

Definition fiveChaptersWorld : World :=
  {| extracted := list_to_map [ (cachePath "a.pdf", ropesChapter "a.pdf" 1);
                                (cachePath "b.pdf", ropesChapter "b.pdf" 3);
                                (cachePath "c.pdf", ropesChapter "c.pdf" 2);
                                (cachePath "d.pdf", ropesChapter "d.pdf" 5);
                                (cachePath "e.pdf", ropesChapter "e.pdf" 4) ];
     writeFile := fun _ => Written;
     invoked := [] |}.

(** * Headings, page references and chapter tools

    The functions that find the headings and page references of a text, and
    the tools that extract a chapter and serve its text. *)

(** ** Section headings: [detectSectionHeading] *)

Definition isLineTerminator (c : N) : bool :=
  (c =? 10) || (c =? 13) || (c =? 8232) || (c =? 8233).

(** [[A-Z\s&-]] and [[a-zA-Z\s&-]] *)
Definition isCapsHeadingChar (c : N) : bool :=
  isUpper c || isSpace c || (c =? 38) || (c =? 45).
Definition isTitleHeadingChar (c : N) : bool :=
  isLetter c || isSpace c || (c =? 38) || (c =? 45).

(** A pattern that ends in [$] under the [m] flag: after its last atom the
    input is at its end or at a line terminator. *)
Definition atLineEnd (s : jsstring) : option (list jsstring * jsstring) :=
  match s with
  | [] => Some ([], [])
  | c :: _ => if isLineTerminator c then Some ([], s) else None
  end.

Fixpoint matchToLineEnd (re : regex) : jsstring -> option (list jsstring * jsstring) :=
  match re with
  | [] => atLineEnd
  | it :: re' => matchItem (matchToLineEnd re') it
  end.

(** [s.match(/^re$/m)]: the first index at the start of the input or after a
    line terminator at which the pattern matches up to the end of a line. *)
Fixpoint searchLines (re : regex) (s : jsstring) (atLineStart : bool)
  : option (list jsstring * jsstring) :=
  match (if atLineStart then matchToLineEnd re s else None) with
  | Some r => Some r
  | None => match s with
            | [] => None
            | c :: s' => searchLines re s' (isLineTerminator c)
            end
  end.

(** The four patterns, each with the number of atoms its group 1 spans; all
    end in [\s*$].  The alternatives of the last one differ in their first
    word only, which is the alternation here. *)
Definition headingPatterns : list (regex * nat) :=
  [ ([one isUpper; atLeast 5 isCapsHeadingChar; star isSpace], 2%nat);
    ([one isUpper; atLeast 10 isTitleHeadingChar; star isSpace], 2%nat);
    ([plus isDigit; dot; star isSpace; one isUpper; atLeast 5 isTitleHeadingChar;
      star isSpace], 5%nat);
    ([oneOf ["BASIC"; "ADVANCED"; "SAFETY"; "EQUIPMENT"; "TECHNIQUE"]%string;
      plus isSpace; plus isUpper; star isSpace], 3%nat) ].

Definition commonSections : list jsstring :=
  List.map js
    ["sleeping system"; "campsite selection"; "food and water"; "stoves";
     "basic safety"; "knots"; "anchors"; "belaying"; "rappelling";
     "rock protection"; "leading"; "aid climbing"; "snow travel";
     "ice climbing"; "avalanche safety"; "glacier travel"; "rescue";
     "first aid"; "leadership"; "navigation"; "weather"]%string.

(** [word.charAt(0).toUpperCase() + word.slice(1)] on the words of
    [commonSections], which are made of the letters [a-z]. *)
Definition capitalize (word : jsstring) : jsstring :=
  match word with
  | [] => []
  | c :: rest => (if isLower c then c - 32 else c) :: rest
  end.

Fixpoint firstHeadingMatch (patterns : list (regex * nat)) (text : jsstring)
  : option jsstring :=
  match patterns with
  | [] => None
  | (pattern, group) :: patterns' =>
      match searchLines pattern text true with
      | Some (pieces, _) => Some (trim (List.concat (firstn group pieces)))
      | None => firstHeadingMatch patterns' text
      end
  end.

Fixpoint firstSection (textLower : jsstring) (sections : list jsstring) : option jsstring :=
  match sections with
  | [] => None
  | section :: sections' =>
      if includes textLower section
      then Some (join (js " ") (List.map capitalize (splitOn 32 section)))
      else firstSection textLower sections'
  end.

Definition detectSectionHeading {rt : Runtime} (text : jsstring) : option jsstring :=
  match firstHeadingMatch headingPatterns text with
  | Some heading => Some heading
  | None => firstSection (toLowerCase text) commonSections
  end.

(** ** Page references: [extractPageReferences] *)

Record PageReference := {
  term : jsstring;
  context : jsstring
}.

(** [[...s.matchAll(/re/g)].map(match => match.index)]: a kept character
    moves the index on by one, a match by its length. *)
Fixpoint hitIndices (segments : list segment) (index : Z) : list Z :=
  match segments with
  | [] => []
  | Keep _ :: rest => hitIndices rest (index + 1)
  | Hit pieces :: rest => index :: hitIndices rest (index + jslen (List.concat pieces))
  end.

Definition matchIndices (re : regex) (s : jsstring) : list Z := hitIndices (scan re s) 0.

(** The key terms are words of letters, so [new RegExp(term, 'gi')] is the
    literal pattern without regard to case.  [startPage] and [endPage] are
    not used. *)
Definition extractPageReferences {rt : Runtime} (text : jsstring) (startPage : Z)
    (endPage : option Z) : list PageReference :=
  List.flat_map (fun keyTerm =>
    List.map (fun index =>
      {| term := keyTerm;
         context := substring text (Z.max 0 (index - 50)) (index + 50) |})
      (matchIndices (literalI keyTerm) text))
    (extractTopics text).

(** ** The tools *)

(** What stands at the path of a chapter: nothing, something [fs.access]
    accepts and [fs.readFile] cannot read, or a PDF file. *)
Inductive PathEntry :=
| Missing
| Unreadable
| PdfAt (pdf : PdfFile).

Definition readFile (entry : PathEntry) : option PdfFile :=
  match entry with
  | PdfAt pdf => Some pdf
  | _ => None
  end.

Inductive ExtractError :=
| AccessFailed                           (* [fs.access] rejects *)
| ExtractionFailed (error : Failure).    (* [comprehensiveExtractPDF] throws *)

Inductive ExtractResponse :=
| AlreadyExtracted (cached : ExtractedContent)
| ExtractionCompleted (extractedContent : ExtractedContent)
| ExtractionError (error : ExtractError).

(** The response of [getChapterText]: the error of the extraction, the
    message that no text is available, the [TypeError] caught while the
    response is written, or the quoted text with its position. *)
Inductive TextResponse :=
| TextExtractionError (error : ExtractError)
| NoTextContent
| TextError
| TextContent (fullCitation inlineCitation : jsstring) (extractedText : jsstring)
    (startChars endChars textLength : Z) (continues : bool).

Section Tools.
Context {rt : Runtime}.

Definition extractChapterContent (entry : PathEntry) (bookName chapterName : jsstring)
    (forceReextract : bool) (now : jsstring) (w : World) : ExtractResponse * World :=
  match entry with
  | Missing => (ExtractionError AccessFailed, w)
  | _ =>
      match (if forceReextract then None else getCachedContent w chapterName) with
      | Some cached => (AlreadyExtracted cached, w)
      | None =>
          match comprehensiveExtractPDF (readFile entry) chapterName now w with
          | (Returned extractedContent, w') => (ExtractionCompleted extractedContent, w')
          | (Thrown error, w') => (ExtractionError (ExtractionFailed error), w')
          end
      end
  end.

(** The first part of [getChapterText]: the content to serve, from the
    cache or from an extraction run for the call. *)
Definition cachedOrExtracted (entry : PathEntry) (chapterName : jsstring)
    (forceReextract : bool) (now : jsstring) (w : World)
  : (ExtractError + ExtractedContent) * World :=
  match (if forceReextract then None else getCachedContent w chapterName) with
  | Some cached => (inr cached, w)
  | None =>
      match entry with
      | Missing => (inl AccessFailed, w)
      | _ =>
          match comprehensiveExtractPDF (readFile entry) chapterName now w with
          | (Returned extractedContent, w') => (inr extractedContent, w')
          | (Thrown error, w') => (inl (ExtractionFailed error), w')
          end
      end
  end.

(** [startChars] and [length] are taken as integers. *)
Definition getChapterText (entry : PathEntry) (bookName chapterName : jsstring)
    (startChars length : Z) (forceReextract : bool) (now : jsstring) (w : World)
  : TextResponse * World :=
  match cachedOrExtracted entry chapterName forceReextract now w with
  | (inl error, w') => (TextExtractionError error, w')
  | (inr cached, w') =>
      match contentText cached with
      | [] => (NoTextContent, w')
      | _ =>
          let cleanedText := reconstructText (contentText cached) in
          let textLength := jslen cleanedText in
          let endChars := Z.min (startChars + length) textLength in
          let extractedText := substring cleanedText startChars endChars in
          let sectionHeading := detectSectionHeading extractedText in
          match formatCitation bookName chapterName sectionHeading,
                formatInlineCitation bookName chapterName with
          | Some fullCitation, Some inlineCitation =>
              (TextContent fullCitation inlineCitation extractedText startChars endChars
                 textLength (endChars <? textLength)%Z, w')
          | _, _ => (TextError, w')
          end
      end
  end.

End Tools.

(** * Further specification

    The predicates and worked inputs of the further properties. *)

(** The result [searchContent] pushes for the chapter [c] of [bookDir]. *)
Definition chapterResult {rt : Runtime} (queryWords : list jsstring) (bookDir : jsstring)
    (c : ChapterRelevance) (cached : ExtractedContent) : SearchResult :=
  {| book := bookDir;
     chapter := file c;
     resultMetadataScore := metadataScore c;
     resultMetadata := metadata c;
     matches := firstn 2 (scoredMatchesOf queryWords c cached) |}.

(** The PDF files among the entries of a book directory. *)
Definition isPdf {rt : Runtime} (f : jsstring) : bool := endsWith (toLowerCase f) (js ".pdf").

(** No chapter of the book has a positive metadata score. *)
Definition noMetadataMatch {rt : Runtime} (lib : Library) (queryWords : list jsstring)
    (bookDir : jsstring) (files : list jsstring) : Prop :=
  forall f, In f files -> isPdf f = true ->
    (metadataScore (chapterRelevance lib queryWords bookDir f) <= 0)%Z.

(** The chapters of the library: the PDF files of its book directories,
    each with its directory. *)
Definition allChapters {rt : Runtime} (lib : Library) : list (jsstring * jsstring) :=
  List.flat_map (fun entry : jsstring * DirEntry =>
    match snd entry with
    | NotDirectory => []
    | Directory files => List.map (pair (fst entry)) (List.filter isPdf files)
    end) (bookDirs lib).

(** The metadata gate: of the PDF files of a book directory, those with a
    positive metadata score are searched when there is one, and all of them
    when there is none. *)
Definition searchedChapters {rt : Runtime} (lib : Library) (queryWords : list jsstring)
    (entry : jsstring * DirEntry) : list (jsstring * jsstring) :=
  match snd entry with
  | NotDirectory => []
  | Directory files =>
      let positive := fun f =>
        (0 <? metadataScore (chapterRelevance lib queryWords (fst entry) f))%Z in
      let pdfFiles := List.filter isPdf files in
      List.map (pair (fst entry))
        (if existsb positive pdfFiles then List.filter positive pdfFiles else pdfFiles)
  end.

(** A matching chapter: it has been extracted, and a chunk of it is relevant
    to the query or its metadata score is 50 or more. *)
Definition chapterMatches {rt : Runtime} (lib : Library) (w : World)
    (queryWords : list jsstring) (chapter : jsstring * jsstring) : bool :=
  match getCachedContent w (snd chapter) with
  | Some cached =>
      existsb (chunkIsRelevant queryWords) (textChunks cached)
      || (50 <=? metadataScore (chapterRelevance lib queryWords (fst chapter) (snd chapter)))%Z
  | None => false
  end.

(** The matching chapters of the library, and those of them that the
    metadata gate lets through. *)
Definition matchingChapters {rt : Runtime} (lib : Library) (w : World)
    (queryWords : list jsstring) : list (jsstring * jsstring) :=
  List.filter (chapterMatches lib w queryWords) (allChapters lib).

Definition searchedMatchingChapters {rt : Runtime} (lib : Library) (w : World)
    (queryWords : list jsstring) : list (jsstring * jsstring) :=
  List.filter (chapterMatches lib w queryWords)
    (List.flat_map (searchedChapters lib queryWords) (bookDirs lib)).

(** [rankedMatches queryWords metadataScore relevant matches]: the matches
    are made of the two highest-scored of the relevant chunks, the higher
    one first: of the first two of the relevant chunks put in the order of
    descending score, each with its text, its topics and its score. *)
Definition rankedMatches {rt : Runtime} (queryWords : list jsstring) (metadataScore : Z)
    (relevant : list Chunk) (matches : list ScoredMatch) : Prop :=
  exists ranked,
    ranked ≡ₚ relevant
    /\ StronglySorted (notBelow (scoreChunk queryWords metadataScore)) ranked
    /\ Forall2 (fun m chunk =>
          source m = Some chunk
          /\ matchText m = text chunk
          /\ matchTopics m = topics chunk
          /\ score m = scoreChunk queryWords metadataScore chunk)
         matches (firstn 2 ranked).

(** The string starts with a whitespace character. *)
Definition headSpace (s : jsstring) : bool :=
  match s with
  | c :: _ => isSpace c
  | [] => false
  end.

(** No two whitespace characters stand side by side. *)
Fixpoint singleSpaced (s : jsstring) : bool :=
  match s with
  | c :: s' => negb (isSpace c && headSpace s') && singleSpaced s'
  | [] => true
  end.

(** The quoted text of a response of [getChapterText] and the position
    [endChars] it reports. *)
Definition servedText (response : TextResponse) : option (jsstring * Z) :=
  match response with
  | TextContent _ _ extractedText _ endChars _ _ => Some (extractedText, endChars)
  | _ => None
  end.

(** [w] stands in [s] at [index], in whatever case. *)
Definition standsAt (w s : jsstring) (index : Z) : Prop :=
  exists before found after,
    s = before ++ found ++ after
    /\ jslen before = index
    /\ Forall2 (fun c d => sameLetter c d = true) w found.

(** ** Further worked inputs *)

(** A file whose one page, of 120 characters, speaks of a constructor. *)
Definition constructorPdf : PdfFile :=
  {| readerRun :=
       {| readerItems :=
            [ {| itemPage := Some 1%Z;
                 itemText := Some (js "The constructor of the anchor " ++ repeat 46 90) |} ];
          readerEnd := EndOfDocument |};
     pdf2jsonRun := DataError |}.

(** The cache of [ropeWorld] on a full disk: a write opens its file and
    fails. *)
Definition fullDiskWorld : World :=
  {| extracted := extracted ropeWorld; writeFile := fun _ => Truncated; invoked := [] |}.

(** No cache directory: a write fails before a file is opened. *)
Definition noCacheDirWorld : World :=
  {| extracted := ∅; writeFile := fun _ => NotOpened; invoked := [] |}.

(** The library of the five chapters with one metadata file, which lists
    ['rope'] as a keyword of ['a.pdf']. *)
Definition oneSidecar : Library :=
  {| bookDirs := bookDirs fiveChapters;
     metadataFile := fun _ name =>
       if jsstring_eqb name (js "a.json")
       then Some {| title := None; description := None; keywords := Some [js "rope"] |}
       else None |}.

(** A cached chapter whose text is already clean. *)
Definition anchorChapter : ExtractedContent :=
  {| chapterName := js "anchors.pdf";
     extractedAt := js "2024-01-01T00:00:00.000Z";
     contentText := js "Use SERENE anchor.";
     contentTotalPages := Some 1%Z;
     contentPageData := ∅;
     textChunks := [ {| id := 0; text := js "Use SERENE anchor."; startChar := 0;
                        endChar := 18; startPage := 1; endPage := Some 1%Z;
                        topics := [js "anchor"] |} ];
     searchIndex := ∅ |}.

Definition anchorWorld : World :=
  {| extracted := {[ cachePath "anchors.pdf" := anchorChapter ]};
     writeFile := fun _ => Written;
     invoked := [] |}.

(** * Properties *)

(** ** Strings *)

Lemma jslen_nonneg (s : jsstring) : (0 <= jslen s)%Z.
Proof. unfold jslen. lia. Qed.

Lemma jslen_app (s t : jsstring) : jslen (s ++ t) = (jslen s + jslen t)%Z.
Proof. unfold jslen. rewrite length_app. lia. Qed.

(** Within the bounds of the string, [substring] is [take] after [drop]. *)
Lemma substring_within (s : jsstring) (a b : Z) :
  (0 <= a <= b)%Z -> (b <= jslen s)%Z ->
  substring s a b = firstn (Z.to_nat (b - a)) (skipn (Z.to_nat a) s).
Proof.
  intros Hab Hb. unfold substring, clampIndex.
  replace (Z.min (Z.max a 0) (jslen s)) with a by lia.
  replace (Z.min (Z.max b 0) (jslen s)) with b by lia.
  replace (Z.min a b) with a by lia.
  replace (Z.max a b) with b by lia.
  reflexivity.
Qed.

(** An end past the string counts as the end of the string. *)
Lemma substring_clamp_end (s : jsstring) (a b : Z) :
  substring s a b = substring s a (Z.min b (jslen s)).
Proof.
  unfold substring, clampIndex.
  replace (Z.min (Z.max (Z.min b (jslen s)) 0) (jslen s))
    with (Z.min (Z.max b 0) (jslen s)); [reflexivity |].
  pose proof (jslen_nonneg s). lia.
Qed.

(** ** Whitespace at the ends of a string *)

Lemma trimStart_suffix (s : jsstring) : exists pre, s = pre ++ trimStart s.
Proof.
  induction s as [| c s [pre IH]]; [by exists [] |]. simpl.
  destruct (isSpace c); [| by exists []].
  exists (c :: pre). simpl. by f_equal.
Qed.

Lemma trimStart_head (s : jsstring) c : head (trimStart s) = Some c -> isSpace c = false.
Proof.
  induction s as [| d s IH]; simpl; [discriminate |].
  destruct (isSpace d) eqn:Hd; [exact IH |]. simpl. by intros [= <-].
Qed.

Lemma trimEnd_prefix (s : jsstring) : exists post, s = trimEnd s ++ post.
Proof.
  unfold trimEnd. destruct (trimStart_suffix (reverse s)) as [pre Hpre].
  exists (reverse pre). rewrite <- reverse_app, <- Hpre. by rewrite reverse_involutive.
Qed.

Lemma trimEnd_last (s : jsstring) c : last (trimEnd s) = Some c -> isSpace c = false.
Proof. unfold trimEnd. rewrite last_reverse. apply trimStart_head. Qed.

Lemma trim_edgesClean (s : jsstring) : edgesClean (trim s).
Proof.
  unfold trim. split; intros c Hc.
  - destruct (trimEnd_prefix (trimStart s)) as [post Hpost].
    apply (trimStart_head s). rewrite Hpost, head_app, Hc. reflexivity.
  - by apply trimEnd_last in Hc.
Qed.

(** ** Replacing every match by a fixed word *)

Section ConstantReplacement.
Variables (re : regex) (v : jsstring).
Hypothesis v_nonempty : v <> [].
Hypothesis v_clean : edgesClean v.

Local Abbreviation out s skip :=
  (List.concat (List.map (render (fun _ => v)) (scanGo re s skip))).

(** The three ways a scan at the head of [c :: s] goes on. *)
Lemma out_cons c s :
  out (c :: s) 0 = (v ++ [c]) ++ out s 0
  \/ (exists n, out (c :: s) 0 = v ++ out s n)
  \/ out (c :: s) 0 = [c] ++ out s 0.
Proof.
  cbn [scanGo]. destruct (matchHere re (c :: s)) as [[pieces rest] |].
  - destruct (List.length (c :: s) - List.length rest)%nat as [| n].
    + left. cbn [List.map List.concat render]. by rewrite <- app_assoc.
    + right. left. exists n. reflexivity.
  - right. right. reflexivity.
Qed.

Lemma out_nil skip : out [] skip = [] \/ out [] skip = v.
Proof.
  cbn [scanGo]. destruct skip; [| by left].
  destruct (matchHere re []) as [[pieces rest] |]; [right | by left].
  cbn [List.map List.concat render]. by rewrite app_nil_r.
Qed.

Lemma out_nonempty s : s <> [] -> out s 0 <> [].
Proof.
  destruct s as [| c s]; [done |]. intros _.
  destruct (out_cons c s) as [-> | [[n ->] | ->]]; try done.
  - by destruct v.
  - by destruct v.
Qed.

Lemma out_head s c :
  (forall d, head s = Some d -> isSpace d = false) ->
  head (out s 0) = Some c -> isSpace c = false.
Proof.
  intros Hs. destruct v_clean as [Hv _].
  destruct s as [| d s].
  - destruct (out_nil 0) as [-> | ->]; [discriminate | apply Hv].
  - destruct (out_cons d s) as [-> | [[n ->] | ->]].
    + rewrite <- app_assoc, head_app. destruct v as [| x v']; [done |]. apply Hv.
    + rewrite head_app. destruct v as [| x v']; [done |]. apply Hv.
    + simpl. intros [= <-]. by apply Hs.
Qed.

Lemma out_last s : forall skip c,
  (forall d, last s = Some d -> isSpace d = false) ->
  last (out s skip) = Some c -> isSpace c = false.
Proof.
  destruct v_clean as [_ Hv].
  induction s as [| d s IH]; intros skip c Hs.
  - destruct (out_nil skip) as [-> | ->]; [discriminate | apply Hv].
  - assert (Hs' : forall e, last s = Some e -> isSpace e = false).
    { intros e He. apply Hs. rewrite last_cons, He. reflexivity. }
    assert (Hd : s = [] -> isSpace d = false).
    { intros ->. by apply Hs. }
    destruct skip as [| skip]; [| cbn [scanGo]; by apply IH].
    destruct (out_cons d s) as [-> | [[n ->] | ->]]; rewrite last_app.
    + destruct (last (out s 0)) as [y |] eqn:Hy; [intros [= <-]; by eapply IH |].
      rewrite last_snoc. intros [= <-]. apply Hd.
      apply last_None in Hy. destruct s; [done |]. by apply out_nonempty in Hy.
    + destruct (last (out s n)) as [y |] eqn:Hy; [intros [= <-]; by eapply IH |].
      apply Hv.
    + destruct (last (out s 0)) as [y |] eqn:Hy; [intros [= <-]; by eapply IH |].
      simpl. intros [= <-]. apply Hd.
      apply last_None in Hy. destruct s; [done |]. by apply out_nonempty in Hy.
Qed.

(** Replacing every match of [re] by [v] keeps the ends free of
    whitespace. *)
Lemma replaceAll_constant_edgesClean s :
  edgesClean s -> edgesClean (replaceAll re (fun _ => v) s).
Proof.
  intros [Hh Hl]. split; intros c.
  - by apply out_head.
  - by apply out_last.
Qed.
End ConstantReplacement.

(** ** The reconstructor returns trimmed text *)

Ltac edges_by_computation :=
  split; [discriminate | split; intros c Hc; vm_compute in Hc; injection Hc as <-; reflexivity].

(** Every corrected word of [commonWordsMap] is non-empty and has a letter at
    each end. *)
Lemma commonWordsMap_solid :
  Forall (fun pr : jsstring * jsstring => snd pr <> [] /\ edgesClean (snd pr)) commonWordsMap.
Proof. unfold commonWordsMap. repeat (constructor; [edges_by_computation |]). constructor. Qed.

(** Step 7 does not undo the trim of step 6. *)
Lemma fixCommonWords_edgesClean (text : jsstring) :
  edgesClean text -> edgesClean (fixCommonWords text).
Proof.
  unfold fixCommonWords. generalize commonWordsMap_solid.
  generalize commonWordsMap as l. intros l Hl. revert text.
  induction Hl as [| [k v] l [Hne Hv] _ IH]; intros text Ht; [exact Ht |].
  cbn [fold_left fst snd]. apply IH. by apply replaceAll_constant_edgesClean.
Qed.

Lemma reconstructText_edgesClean (rawText : jsstring) : edgesClean (reconstructText rawText).
Proof.
  destruct rawText as [| c t]; [split; discriminate |].
  unfold reconstructText. apply fixCommonWords_edgesClean.
  unfold cleanWhitespace. apply trim_edgesClean.
Qed.

(** C10. [reconstructText] returns the empty string for an input that is
    empty or falsy, and for every input string its output neither starts
    nor ends with a whitespace character. *)
Theorem reconstructText_trimmed (rawText : jsstring) :
  reconstructTextOf None = []
  /\ reconstructTextOf (Some []) = []
  /\ (forall c, head (reconstructText rawText) = Some c -> isSpace c = false)
  /\ (forall c, last (reconstructText rawText) = Some c -> isSpace c = false).
Proof.
  split; [reflexivity |]. split; [reflexivity |].
  apply reconstructText_edgesClean.
Qed.

(** ** Text the reconstructor leaves as it is *)

Lemma startsWith_app (p s : jsstring) :
  startsWith p s = true -> p ++ skipn (List.length p) s = s.
Proof.
  revert s. induction p as [| a p IH]; intros s; [reflexivity |].
  destruct s as [| b s]; simpl; [discriminate |].
  intros [Hab Hp]%andb_prop. apply N.eqb_eq in Hab as ->. f_equal. by apply IH.
Qed.

Lemma withPiece_sound k (piece rest0 : jsstring) pieces rest :
  soundMatcher k ->
  withPiece k piece rest0 = Some (pieces, rest) ->
  List.concat pieces ++ rest = piece ++ rest0.
Proof.
  intros Hk. unfold withPiece. destruct (k rest0) as [[ps out] |] eqn:Hk0; [| discriminate].
  intros [= <- <-]. simpl. rewrite <- app_assoc. f_equal. by apply Hk.
Qed.

Ltac by_withPiece Hk Hw :=
  apply (withPiece_sound _ _ _ _ _ Hk) in Hw; rewrite Hw.

Lemma tryRun_sound k n extra : soundMatcher k -> soundMatcher (tryRun k n extra).
Proof.
  intros Hk. induction extra as [| extra IH]; intros s pieces rest; simpl.
  - destruct (withPiece k _ _) as [r |] eqn:Hw; [| discriminate].
    intros [= ->]. by_withPiece Hk Hw. apply take_drop.
  - destruct (withPiece k _ _) as [r |] eqn:Hw; [| apply IH].
    intros [= ->]. by_withPiece Hk Hw. apply take_drop.
Qed.

Lemma tryAlts_sound k alts : soundMatcher k -> soundMatcher (tryAlts k alts).
Proof.
  intros Hk. induction alts as [| a alts IH]; intros s pieces rest; simpl; [discriminate |].
  destruct (startsWith a s) eqn:Ha; [| apply IH].
  destruct (withPiece k _ _) as [r |] eqn:Hw; [| apply IH].
  intros [= ->]. by_withPiece Hk Hw. by apply startsWith_app.
Qed.

Lemma matchItem_sound k it : soundMatcher k -> soundMatcher (matchItem k it).
Proof.
  intros Hk s pieces rest. destruct it as [p [| | n] | alts]; simpl.
  - destruct s as [| c s']; [discriminate |]. destruct (p c); [| discriminate].
    intros Hw. by by_withPiece Hk Hw.
  - destruct s as [| c s'].
    + intros Hw. by by_withPiece Hk Hw.
    + destruct (p c).
      * destruct (withPiece k [c] s') as [r |] eqn:Hw.
        -- intros [= ->]. by by_withPiece Hk Hw.
        -- intros Hw'. by by_withPiece Hk Hw'.
      * intros Hw. by by_withPiece Hk Hw.
  - destruct (_ <? _)%nat; [discriminate |]. by apply tryRun_sound.
  - by apply tryAlts_sound.
Qed.

(** A match is a prefix of the input, cut into the pieces of its atoms. *)
Lemma matchHere_sound re : soundMatcher (matchHere re).
Proof.
  induction re as [| it re IH]; simpl.
  - intros s pieces rest [= <- <-]. reflexivity.
  - by apply matchItem_sound.
Qed.

(** A scan cuts its input into kept characters and matches, in order. *)
Lemma scanGo_covers re s : forall skip,
  List.concat (List.map (render (@List.concat N)) (scanGo re s skip)) = skipn skip s.
Proof.
  induction s as [| c s IH]; intros skip.
  - cbn [scanGo]. destruct skip; [| reflexivity].
    destruct (matchHere re []) as [[pieces rest] |] eqn:Hm; [| reflexivity].
    apply matchHere_sound in Hm. apply app_eq_nil in Hm as [Hp _].
    cbn [List.map List.concat render]. rewrite Hp. reflexivity.
  - cbn [scanGo]. destruct skip as [| skip]; [| apply IH].
    destruct (matchHere re (c :: s)) as [[pieces rest] |] eqn:Hm.
    + apply matchHere_sound in Hm.
      assert (Hlen : (List.length (c :: s) - List.length rest)%nat
                     = List.length (List.concat pieces)).
      { rewrite <- Hm, length_app. lia. }
      rewrite Hlen. destruct (List.concat pieces) as [| d m] eqn:Hp.
      * cbn [List.length List.map List.concat render]. rewrite IH, Hp. reflexivity.
      * cbn [List.length List.map List.concat render]. rewrite IH, Hp.
        simpl in Hm. injection Hm as -> Hm. rewrite <- Hm.
        rewrite drop_app_length. reflexivity.
    + cbn [List.map List.concat render]. rewrite IH. reflexivity.
Qed.

Lemma unchangedBy_replaceAll re f t : unchangedBy re f t = true -> replaceAll re f t = t.
Proof.
  unfold unchangedBy, replaceAll, scan. intros Hall.
  rewrite <- (scanGo_covers re t 0) at 2. f_equal.
  apply map_ext_in. intros seg Hin.
  rewrite forallb_forall in Hall. specialize (Hall seg Hin).
  unfold jsstring_eqb in Hall. by apply bool_decide_eq_true in Hall.
Qed.

Lemma fold_unchanged {A} (step : A -> regex * (list jsstring -> jsstring)) (l : list A) t :
  forallb (fun x => unchangedBy (fst (step x)) (snd (step x)) t) l = true ->
  fold_left (fun text x => replaceAll (fst (step x)) (snd (step x)) text) l t = t.
Proof.
  induction l as [| x l IH]; [reflexivity |]. simpl.
  intros [Hx Hl]%andb_prop. rewrite (unchangedBy_replaceAll _ _ _ Hx). by apply IH.
Qed.

(** Already-clean text is returned as it is. *)
Lemma reconstructText_alreadyClean t : alreadyClean t = true -> reconstructText t = t.
Proof.
  unfold alreadyClean. intros H.
  apply andb_prop in H as [H H10]. apply andb_prop in H as [H H9].
  apply andb_prop in H as [H H8]. apply andb_prop in H as [H H7].
  apply andb_prop in H as [H H6]. apply andb_prop in H as [H H5].
  apply andb_prop in H as [H H4]. apply andb_prop in H as [H H3].
  apply andb_prop in H as [H1 H2].
  destruct t as [| c t]; [reflexivity |]. unfold reconstructText.
  set (u := c :: t) in *.
  assert (Hm : mergeFragments u = u).
  { unfold mergeFragments.
    rewrite (unchangedBy_replaceAll _ _ _ H1), (unchangedBy_replaceAll _ _ _ H2).
    exact (unchangedBy_replaceAll _ _ _ H3). }
  assert (Hb : insertBoundaries u = u).
  { unfold insertBoundaries. by apply (fold_unchanged (fun pr => pr)). }
  assert (Hf : fixTerminology u = u).
  { unfold fixTerminology.
    by apply (fold_unchanged (fun pr : regex * jsstring => (fst pr, fun _ => snd pr))). }
  assert (Hw : cleanWhitespace u = u).
  { unfold cleanWhitespace.
    rewrite (unchangedBy_replaceAll _ _ _ H6), (unchangedBy_replaceAll _ _ _ H7),
      (unchangedBy_replaceAll _ _ _ H8).
    unfold jsstring_eqb in H9. by apply bool_decide_eq_true in H9. }
  assert (Hc : fixCommonWords u = u).
  { unfold fixCommonWords.
    by apply (fold_unchanged (fun pr : jsstring * jsstring =>
                                (literalI (fst pr), fun _ => snd pr))). }
  by rewrite Hm, Hb, Hf, Hw, Hc.
Qed.

(** ** Chunk coverage *)

Lemma tiles_head from chunks to c :
  tiles from chunks to -> head chunks = Some c -> startChar c = from.
Proof. destruct chunks; simpl; [discriminate |]. intros (? & _) [= ->]. done. Qed.

Lemma tiles_last chunks : forall from to c,
  tiles from chunks to -> last chunks = Some c -> endChar c = to.
Proof.
  induction chunks as [| d rest IH]; intros from to c; simpl; [discriminate |].
  intros (_ & _ & Hrest) Hlast. destruct rest as [| e rest'].
  - injection Hlast as ->. exact Hrest.
  - eapply IH; eauto.
Qed.

Lemma tiles_adjacent chunks : forall from to k c d,
  tiles from chunks to -> chunks !! k = Some c -> chunks !! S k = Some d ->
  endChar c = startChar d.
Proof.
  induction chunks as [| e rest IH]; intros from to k c d; simpl; [discriminate |].
  intros (_ & _ & Hrest) Hc Hd. destruct k as [| k]; simpl in *.
  - injection Hc as ->. destruct rest as [| d' rest']; simpl in *; [discriminate |].
    injection Hd as ->. symmetry. apply Hrest.
  - eapply IH; eauto.
Qed.

Lemma tiles_nonempty chunks : forall from to c,
  tiles from chunks to -> c ∈ chunks -> (startChar c < endChar c)%Z.
Proof.
  induction chunks as [| e rest IH]; intros from to c Ht Hin.
  - by apply not_elem_of_nil in Hin.
  - destruct Ht as (Hs & Hlt & Hrest). apply elem_of_cons in Hin as [-> | Hin].
    + lia.
    + eapply IH; eauto.
Qed.

Section ChunkLoop.
Context {rt : Runtime}.
Variables (fullText : jsstring) (charToPageMap : gmap Z Z) (totalPages : option Z).
Variable chunkSize : Z.
Hypothesis chunkSize_pos : (0 < chunkSize)%Z.

Local Abbreviation L := (jslen fullText).
Local Abbreviation mk := (makeChunk fullText charToPageMap totalPages chunkSize).

Lemma makeChunk_text i n :
  (0 <= i < L)%Z ->
  text (mk i n) = substring fullText (startChar (mk i n)) (endChar (mk i n))
  /\ text (mk i n) ++ skipn (Z.to_nat (endChar (mk i n))) fullText
     = skipn (Z.to_nat i) fullText.
Proof.
  intros Hi. unfold makeChunk; simpl.
  rewrite (substring_clamp_end fullText i (i + chunkSize)).
  split; [reflexivity |].
  set (e := Z.min (i + chunkSize) (jslen fullText)).
  rewrite substring_within by (subst e; lia).
  replace (Z.to_nat e) with (Z.to_nat i + Z.to_nat (e - i))%nat by (subst e; lia).
  rewrite <- drop_drop. apply take_drop.
Qed.

(** The loop invariant: with enough fuel the chunks appended from position
    [i] tile the rest of the text and spell it out, and are numbered in
    emission order. *)
Lemma chunkLoop_spec fuel : forall i chunks,
  (0 <= i)%Z -> (L <= i + Z.of_nat fuel * chunkSize)%Z ->
  exists fresh,
    chunkLoop fuel fullText charToPageMap totalPages chunkSize i chunks = chunks ++ fresh
    /\ tiles (Z.min i L) fresh L
    /\ List.concat (List.map text fresh) = skipn (Z.to_nat (Z.min i L)) fullText
    /\ (forall k c, fresh !! k = Some c ->
          id c = Z.of_nat (List.length chunks + k)
          /\ text c = substring fullText (startChar c) (endChar c)
          /\ (i + Z.of_nat k * chunkSize < L)%Z
          /\ c = mk (i + Z.of_nat k * chunkSize) (List.length chunks + k)).
Proof.
  induction fuel as [| fuel IH]; intros i chunks Hi Hfuel.
  - exists []. simpl. rewrite app_nil_r. split; [| split; [| split]].
    + reflexivity.
    + lia.
    + replace (Z.min i L) with L by lia. unfold jslen.
      rewrite Nat2Z.id. by rewrite drop_all.
    + intros k c Hk. by rewrite lookup_nil in Hk.
  - simpl. destruct (i <? L)%Z eqn:Hlt.
    + apply Z.ltb_lt in Hlt.
      destruct (IH (i + chunkSize)%Z
                  (chunks ++ [mk i (List.length chunks)])) as (fresh & Heq & Ht & Hc & Hk);
        [lia | lia |].
      exists (mk i (List.length chunks) :: fresh).
      destruct (makeChunk_text i (List.length chunks)) as [Htxt Hcat]; [lia |].
      assert (Hend : endChar (mk i (List.length chunks)) = Z.min (i + chunkSize) L)
        by reflexivity.
      split; [| split; [| split]].
      * rewrite Heq, <- app_assoc. reflexivity.
      * replace (Z.min i L) with i by lia. cbn [tiles].
        split; [reflexivity |]. rewrite Hend. split; [lia | exact Ht].
      * cbn [List.map List.concat]. rewrite Hc. replace (Z.min i L) with i by lia.
        rewrite <- Hcat, Hend. reflexivity.
      * intros [| k] c Hlk; cbn [lookup list_lookup] in Hlk.
        -- injection Hlk as <-. rewrite Nat.add_0_r.
           split; [reflexivity |]. split; [exact Htxt |].
           replace (i + Z.of_nat 0 * chunkSize)%Z with i by lia.
           split; [lia | reflexivity].
        -- destruct (Hk k c Hlk) as (Hid & Ht' & Hj & Hmk).
           rewrite length_app in Hid, Hmk. simpl in Hid, Hmk.
           replace (List.length chunks + S k)%nat
             with (List.length chunks + 1 + k)%nat by lia.
           replace (i + Z.of_nat (S k) * chunkSize)%Z
             with (i + chunkSize + Z.of_nat k * chunkSize)%Z by lia.
           split; [exact Hid |]. split; [exact Ht' |]. split; [exact Hj | exact Hmk].
    + apply Z.ltb_ge in Hlt. exists []. rewrite app_nil_r. split; [| split; [| split]].
      * reflexivity.
      * simpl. lia.
      * replace (Z.min i L) with L by lia. unfold jslen.
        rewrite Nat2Z.id. by rewrite drop_all.
      * intros k c Hk. by rewrite lookup_nil in Hk.
Qed.
End ChunkLoop.

(** C1. For every full text (and page map and page count), the chunks of
    [createPageAwareChunks], cut at the fixed size of 150000 characters,
    partition the text exactly: chunk 0 starts at 0, each [endChar] is the
    next [startChar], the last [endChar] is the length of the text, each
    chunk text is the substring between its bounds, and the chunk texts
    concatenated in id order are the text; the empty text has no chunk. *)
Theorem createPageAwareChunks_partition (rt : Runtime) (fullText : jsstring)
    (pageData : gmap Z jsstring) (totalPages : option Z) :
  partitionsText fullText (createPageAwareChunks fullText pageData totalPages)
  /\ createPageAwareChunks [] pageData totalPages = [].
Proof.
  split; [| reflexivity].
  unfold createPageAwareChunks.
  destruct (chunkLoop_spec fullText (createCharToPageMap fullText pageData) totalPages
              EXTRACTION_CONFIG_CHUNK_SIZE ltac:(reflexivity)
              (List.length fullText) 0%Z [])
    as (fresh & -> & Ht & Hcat & Hk).
  - lia.
  - unfold EXTRACTION_CONFIG_CHUNK_SIZE, jslen. lia.
  - pose proof (jslen_nonneg fullText) as Hlen.
    replace (Z.min 0 (jslen fullText)) with 0%Z in Ht, Hcat by lia.
    rewrite app_nil_l. unfold partitionsText. split; [| split; [| split; [| split]]].
    + intros c Hc. eapply tiles_head; eauto.
    + intros k c d Hc Hd. eapply tiles_adjacent; eauto.
    + intros c Hc. eapply tiles_last; eauto.
    + intros k c Hc. destruct (Hk k c Hc) as (Hid & Htxt & _ & Hmk).
      split; [exact Hid |]. split; [by rewrite Hmk |].
      split; [| exact Htxt].
      eapply tiles_nonempty; [exact Ht |]. eapply list_elem_of_lookup_2; eauto.
    + exact Hcat.
Qed.

(** ** Search scoring *)

Section Scoring.
Context {rt : Runtime}.

Lemma fold_left_add_le {A} (g1 g2 : A -> Z) (l : list A) : forall s1 s2 : Z,
  (s1 <= s2)%Z ->
  (forall x, In x l -> (g1 x <= g2 x)%Z) ->
  (fold_left (fun score x => score + g1 x) l s1
   <= fold_left (fun score x => score + g2 x) l s2)%Z.
Proof.
  induction l as [| x l IH]; intros s1 s2 Hs Hg; simpl; [exact Hs |].
  apply IH.
  - specialize (Hg x (or_introl eq_refl)). lia.
  - intros y Hy. apply Hg. by right.
Qed.

Lemma topicBonus_le (queryWords : list jsstring) (ts : list jsstring) : forall s1 s2 : Z,
  (s1 <= s2)%Z ->
  (fold_left (fun score topic =>
      if inWords (toLowerCase topic) queryWords then score + 20 else score) ts s1
   <= fold_left (fun score topic =>
      if inWords (toLowerCase topic) queryWords then score + 20 else score) ts s2)%Z.
Proof.
  induction ts as [| t ts IH]; intros s1 s2 Hs; simpl; [exact Hs |].
  apply IH. destruct (inWords _ _); lia.
Qed.

(** The score grows with the occurrence counts, word by word. *)
Lemma scoreChunk_le (queryWords : list jsstring) (metadataScore : Z) (c1 c2 : Chunk) :
  topics c1 = topics c2 ->
  (forall v, In v queryWords -> (occurrences v c1 <= occurrences v c2)%nat) ->
  (scoreChunk queryWords metadataScore c1 <= scoreChunk queryWords metadataScore c2)%Z.
Proof.
  intros Htopics Hcount. unfold scoreChunk. rewrite Htopics.
  apply topicBonus_le.
  apply (fold_left_add_le
           (fun word => Z.of_nat (occurrences word c1) * 10)%Z
           (fun word => Z.of_nat (occurrences word c2) * 10)%Z); [lia |].
  intros v Hv. specialize (Hcount v Hv). lia.
Qed.

End Scoring.

(** *** Adding text after a chunk's text *)

Lemma startsWith_length (w s : jsstring) :
  startsWith w s = true -> (List.length w <= List.length s)%nat.
Proof.
  revert s. induction w as [| a w IH]; intros [| c s]; simpl; try lia; try discriminate.
  intros [_ Hw]%andb_prop. apply IH in Hw. lia.
Qed.

Lemma startsWith_app_l (w s u : jsstring) :
  startsWith w s = true -> startsWith w (s ++ u) = true.
Proof.
  revert s. induction w as [| a w IH]; intros [| c s]; simpl; try done.
  intros [Ha Hw]%andb_prop. rewrite Ha. by apply IH.
Qed.

Lemma startsWith_app_inv (w s u : jsstring) :
  startsWith w (s ++ u) = true -> (List.length w <= List.length s)%nat ->
  startsWith w s = true.
Proof.
  revert s. induction w as [| a w IH]; intros [| c s]; simpl; try done; try lia.
  intros [Ha Hw]%andb_prop Hlen. rewrite Ha. apply IH; [done | lia].
Qed.

(** A literal pattern matches where the word starts the input, and the match
    has the length of the word. *)
Lemma matchHere_literal (w s : jsstring) :
  matchHere (literal w) s
  = if startsWith w s
    then Some (List.map (fun c => [c]) w, skipn (List.length w) s)
    else None.
Proof.
  revert s. induction w as [| a w IH]; intros s; [reflexivity |].
  cbn [literal List.map matchHere matchItem one]. fold (literal w).
  destruct s as [| c s]; [reflexivity |]. cbn [startsWith].
  destruct (a =? c) eqn:Hac; [| reflexivity].
  apply N.eqb_eq in Hac as <-. unfold withPiece. rewrite IH.
  by destruct (startsWith w s).
Qed.

Lemma scanGo_literal_short (w s : jsstring) (skip : nat) :
  (List.length s < List.length w)%nat ->
  List.filter isHit (scanGo (literal w) s skip) = [].
Proof.
  revert skip. induction s as [| c s IH]; intros skip Hlen; cbn [scanGo].
  - destruct skip; [| reflexivity]. rewrite matchHere_literal.
    destruct (startsWith w []) eqn:Hw; [| reflexivity].
    apply startsWith_length in Hw. lia.
  - destruct skip as [| skip]; [| apply IH; simpl in Hlen; lia].
    rewrite matchHere_literal. destruct (startsWith w (c :: s)) eqn:Hw.
    + apply startsWith_length in Hw. lia.
    + simpl. apply IH. simpl in Hlen. lia.
Qed.

Lemma matched_length (w s : jsstring) :
  startsWith w s = true ->
  (List.length s - List.length (skipn (List.length w) s))%nat = List.length w.
Proof. intros Hw. apply startsWith_length in Hw. rewrite length_skipn. lia. Qed.

(** The count of a literal pattern does not go down when text is added at
    the end. *)
Lemma scanGo_literal_app (w t u : jsstring) : forall skip,
  (List.length (List.filter isHit (scanGo (literal w) t skip))
   <= List.length (List.filter isHit (scanGo (literal w) (t ++ u) skip)))%nat.
Proof.
  induction t as [| c t IH]; intros skip.
  - destruct w as [| a w].
    + (* the empty pattern: one match at the end, one at least before any text *)
      destruct skip; [| simpl; lia]. destruct u as [| d u]; simpl; [lia |].
      destruct (List.length u - List.length u)%nat; simpl; lia.
    + rewrite (scanGo_literal_short (a :: w) [] skip); simpl; lia.
  - cbn [app scanGo]. destruct skip as [| skip]; [| apply IH].
    rewrite !matchHere_literal.
    destruct (startsWith w (c :: t)) eqn:Hw.
    + pose proof (startsWith_app_l w (c :: t) u Hw) as Hwu. cbn [app] in Hwu.
      rewrite Hwu, (matched_length w (c :: t) Hw), (matched_length w (c :: t ++ u) Hwu).
      destruct (List.length w) as [| n]; cbn [List.filter isHit List.length].
      * specialize (IH 0%nat). lia.
      * specialize (IH n). lia.
    + destruct (startsWith w (c :: t ++ u)) eqn:Hwu.
      * assert (Hshort : (List.length (c :: t) < List.length w)%nat).
        { destruct (le_lt_dec (List.length w) (List.length (c :: t))) as [Hle | Hlt];
            [| exact Hlt].
          rewrite (startsWith_app_inv w (c :: t) u Hwu Hle) in Hw. discriminate. }
        cbn [List.filter isHit]. rewrite (scanGo_literal_short w t 0); [simpl; lia |].
        simpl in Hshort. lia.
      * cbn [List.filter isHit]. apply IH.
Qed.

Lemma countMatches_literal_app (w t u : jsstring) :
  (countMatches (literal w) t <= countMatches (literal w) (t ++ u))%nat.
Proof. unfold countMatches, scan. apply scanGo_literal_app. Qed.

(** Text added at the end of a chunk's lower-cased text never lowers the
    score. *)
Lemma scoreChunk_appended (rt : Runtime) (queryWords : list jsstring) (metadataScore : Z)
    (c1 c2 : Chunk) (added : jsstring) :
  topics c1 = topics c2 ->
  toLowerCase (text c2) = toLowerCase (text c1) ++ added ->
  (scoreChunk queryWords metadataScore c1 <= scoreChunk queryWords metadataScore c2)%Z.
Proof.
  intros Htopics Htext. apply scoreChunk_le; [exact Htopics |].
  intros v _. unfold occurrences. rewrite Htext. apply countMatches_literal_app.
Qed.

Section ScoringMore.
Context {rt : Runtime}.

Lemma fold_left_add_shift {A} (g : A -> Z) (l : list A) (k : Z) : forall s : Z,
  fold_left (fun score x => score + g x)%Z l (s + k)%Z
  = (fold_left (fun score x => score + g x)%Z l s + k)%Z.
Proof.
  induction l as [| x l IH]; intros s; simpl; [reflexivity |].
  replace (s + k + g x)%Z with (s + g x + k)%Z by lia. apply IH.
Qed.

(** One word that gains an occurrence lifts the sum over the words by ten at
    least. *)
Lemma fold_left_add_more {A} (g1 g2 : A -> Z) (l : list A) (w : A) : forall s : Z,
  In w l ->
  (g1 w + 10 <= g2 w)%Z ->
  (forall x, In x l -> (g1 x <= g2 x)%Z) ->
  (fold_left (fun score x => score + g1 x) l s + 10
   <= fold_left (fun score x => score + g2 x) l s)%Z.
Proof.
  induction l as [| x l IH]; intros s Hw Hmore Hle; [by destruct Hw |].
  cbn [fold_left].
  assert (Hrest : forall y, In y l -> (g1 y <= g2 y)%Z) by (intros y Hy; apply Hle; by right).
  destruct Hw as [-> | Hin].
  - rewrite <- fold_left_add_shift.
    apply fold_left_add_le; [lia | exact Hrest].
  - specialize (IH (s + g1 x)%Z Hin Hmore Hrest).
    pose proof (fold_left_add_le g2 g2 l (s + g1 x)%Z (s + g2 x)%Z) as Hstep.
    specialize (Hle x (or_introl eq_refl)).
    specialize (Hstep ltac:(lia) ltac:(intros; lia)). lia.
Qed.

Lemma scoreChunk_more (queryWords : list jsstring) (metadataScore : Z) (c1 c2 : Chunk)
    (w : jsstring) :
  In w queryWords ->
  topics c1 = topics c2 ->
  (occurrences w c1 < occurrences w c2)%nat ->
  (forall v, In v queryWords -> (occurrences v c1 <= occurrences v c2)%nat) ->
  (scoreChunk queryWords metadataScore c1 + 10 <= scoreChunk queryWords metadataScore c2)%Z.
Proof.
  intros Hw Htopics Hmore Hcount. unfold scoreChunk. rewrite Htopics.
  set (byTopic := fun (score : Z) (topic : jsstring) =>
         if inWords (toLowerCase topic) queryWords then (score + 20)%Z else score).
  assert (Hshift : forall ts s k, fold_left byTopic ts (s + k)%Z
                                  = (fold_left byTopic ts s + k)%Z).
  { induction ts as [| t ts IH]; intros s k; simpl; [reflexivity |].
    unfold byTopic at 2 4. destruct (inWords _ _); [| apply IH].
    replace (s + k + 20)%Z with (s + 20 + k)%Z by lia. apply IH. }
  rewrite <- Hshift. apply topicBonus_le.
  apply (fold_left_add_more
           (fun word => Z.of_nat (occurrences word c1) * 10)%Z
           (fun word => Z.of_nat (occurrences word c2) * 10)%Z queryWords w).
  - exact Hw.
  - lia.
  - intros v Hv. specialize (Hcount v Hv). lia.
Qed.

End ScoringMore.

(** C3, as amended.  For every query-word list and two chunks that are alike
    (same topics, same metadata seed) except that the text of the second has
    strictly more occurrences of one query word and no fewer occurrences of
    any other query word, the score of the second is at least the score of
    the first; it is higher by ten or more. *)
Theorem scoreChunk_monotone (rt : Runtime) (queryWords : list jsstring) (metadataScore : Z)
    (c1 c2 : Chunk) (w : jsstring) :
  In w queryWords ->
  topics c1 = topics c2 ->
  (occurrences w c1 < occurrences w c2)%nat ->
  (forall v, In v queryWords -> (occurrences v c1 <= occurrences v c2)%nat) ->
  (scoreChunk queryWords metadataScore c1 <= scoreChunk queryWords metadataScore c2)%Z
  /\ (scoreChunk queryWords metadataScore c1 + 10
      <= scoreChunk queryWords metadataScore c2)%Z.
Proof.
  intros Hw Htopics Hmore Hcount.
  pose proof (scoreChunk_more queryWords metadataScore c1 c2 w Hw Htopics Hmore Hcount).
  split; lia.
Qed.

(** ['Tie the rope. Coil the rope.'] against ['Tie the rope.'], for the
    query words ['rope'] and ['tie']. *)
Lemma scoreChunk_monotone_witness :
  @scoreChunk basicLatin [js "rope"; js "tie"] 0 ropeOnce = 40%Z
  /\ @scoreChunk basicLatin [js "rope"; js "tie"] 0 ropeTwice = 50%Z
  /\ (@scoreChunk basicLatin [js "rope"; js "tie"] 0 ropeOnce
      <= @scoreChunk basicLatin [js "rope"; js "tie"] 0 ropeTwice)%Z.
Proof.
  split; [vm_compute; reflexivity |]. split; [vm_compute; reflexivity |].
  apply (scoreChunk_monotone basicLatin [js "rope"; js "tie"] 0 ropeOnce ropeTwice (js "rope")).
  - simpl. auto.
  - reflexivity.
  - vm_compute. lia.
  - intros v [<- | [<- | []]]; vm_compute; lia.
Defined.

(** C3 as stated fails.  The chunks ['abcde'] and ['abcxyzde'] have the same
    topics and the second has strictly more occurrences of the query word
    ['xyz'], none against one; but the word put into the middle breaks the
    occurrences of ['abcd'] and ['bcde'], and the score goes down from 20
    to 10. *)
Lemma scoreChunk_word_inside_words :
  In (js "xyz") (List.map js ["abcd"; "bcde"; "xyz"]%string)
  /\ topics (plainChunk "abcde") = topics (plainChunk "abcxyzde")
  /\ (@occurrences basicLatin (js "xyz") (plainChunk "abcde")
      < @occurrences basicLatin (js "xyz") (plainChunk "abcxyzde"))%nat
  /\ @scoreChunk basicLatin (List.map js ["abcd"; "bcde"; "xyz"]%string) 0
       (plainChunk "abcde") = 20%Z
  /\ @scoreChunk basicLatin (List.map js ["abcd"; "bcde"; "xyz"]%string) 0
       (plainChunk "abcxyzde") = 10%Z
  /\ ~ (@scoreChunk basicLatin (List.map js ["abcd"; "bcde"; "xyz"]%string) 0
          (plainChunk "abcde")
        <= @scoreChunk basicLatin (List.map js ["abcd"; "bcde"; "xyz"]%string) 0
             (plainChunk "abcxyzde"))%Z.
Proof.
  split; [simpl; auto |]. split; [reflexivity |].
  split; [vm_compute; lia |]. split; [vm_compute; reflexivity |].
  split; [vm_compute; reflexivity |]. vm_compute. intros Hle. by apply Hle.
Qed.

(** ** Context snippets *)

(** C4 fails where a query word stands at index 0 and another one later:
    index 0 also means "nothing found yet" to the loop, so the later word
    replaces it and the window is cut around index 600, not around the
    earliest occurrence. *)
Lemma getContextSnippet_later_word_wins :
  indexOf (@toLowerCase basicLatin ropeThenAnchor) (js "rope") = Some 0%Z
  /\ indexOf (@toLowerCase basicLatin ropeThenAnchor) (js "anchor") = Some 600%Z
  /\ @bestMatchIndex basicLatin ropeThenAnchor [js "rope"; js "anchor"] = 600%Z
  /\ @getContextSnippet basicLatin ropeThenAnchor [js "rope"; js "anchor"] 500
     = js "..." ++ substring ropeThenAnchor 350 850 ++ js "..."
  /\ includes (@getContextSnippet basicLatin ropeThenAnchor [js "rope"; js "anchor"] 500)
       (js "rope") = false.
Proof. vm_compute. repeat split; reflexivity. Qed.

Section Snippets.
Context {rt : Runtime}.

Lemma indexOfFrom_ge (p s : jsstring) : forall i j, indexOfFrom p s i = Some j -> (i <= j)%Z.
Proof.
  induction s as [| c s IH]; intros i j; simpl.
  - destruct (startsWith p []); [intros [= <-]; lia | discriminate].
  - destruct (startsWith p (c :: s)); [intros [= <-]; lia |].
    intros Hj. apply IH in Hj. lia.
Qed.

(** Where no query word stands at index 0, the loop does find the earliest
    occurrence: from a start value [b0] (0 for "nothing yet") it ends on 0
    when nothing is found, and otherwise on the smallest index seen. *)
Lemma bestMatch_fold (text : jsstring) (queryWords : list jsstring) : forall b0 : Z,
  (0 <= b0)%Z ->
  (forall w, In w queryWords -> indexOf (toLowerCase text) w <> Some 0%Z) ->
  let b :=
    fold_left (fun bestMatch word =>
      match indexOf (toLowerCase text) word with
      | Some index =>
          if (bestMatch =? 0)%Z || (index <? bestMatch)%Z then index else bestMatch
      | None => bestMatch
      end) queryWords b0 in
  (0 <= b)%Z
  /\ (b = 0%Z <-> b0 = 0%Z /\ forall w, In w queryWords -> indexOf (toLowerCase text) w = None)
  /\ (b0 <> 0%Z -> (b <= b0)%Z)
  /\ (b = b0 \/ exists w, In w queryWords /\ indexOf (toLowerCase text) w = Some b)
  /\ (forall w i, In w queryWords -> indexOf (toLowerCase text) w = Some i -> (b <= i)%Z).
Proof.
  induction queryWords as [| word rest IH]; intros b0 Hb0 Hnz; cbn zeta.
  - simpl. split; [lia |]. split; [| split; [| split]].
    + split; [intros ->; split; [done | by intros ? []] | by intros [-> _]].
    + lia.
    + by left.
    + by intros ? ? [].
  - cbn [fold_left].
    assert (Hrest : forall w, In w rest -> indexOf (toLowerCase text) w <> Some 0%Z)
      by (intros w Hw; apply Hnz; by right).
    pose proof (Hnz word (or_introl eq_refl)) as Hword.
    destruct (indexOf (toLowerCase text) word) as [index |] eqn:Hidx.
    + assert (0 < index)%Z.
      { pose proof (indexOfFrom_ge _ _ _ _ Hidx). destruct (decide (index = 0%Z)); [| lia].
        subst. done. }
      set (b1 := if (b0 =? 0)%Z || (index <? b0)%Z then index else b0).
      assert (Hb1 : (0 < b1)%Z /\ (b1 <= index)%Z /\ (b0 <> 0%Z -> (b1 <= b0)%Z)
                    /\ (b1 = b0 \/ b1 = index)).
      { subst b1. destruct (b0 =? 0)%Z eqn:H0; simpl.
        - apply Z.eqb_eq in H0. lia.
        - apply Z.eqb_neq in H0. destruct (index <? b0)%Z eqn:Hlt.
          + apply Z.ltb_lt in Hlt. lia.
          + apply Z.ltb_ge in Hlt. lia. }
      destruct Hb1 as (Hpos & Hle & Hle0 & Hwhich).
      destruct (IH b1 ltac:(lia) Hrest) as (Hge & Hzero & Hbound & Hfrom & Hmin).
      split; [exact Hge |]. split; [| split; [| split]].
      * split.
        -- intros Hb. apply Hzero in Hb as [Hb _]. lia.
        -- intros [_ Hnone]. specialize (Hnone word (or_introl eq_refl)). congruence.
      * intros Hne. specialize (Hbound ltac:(lia)). specialize (Hle0 Hne). lia.
      * destruct Hfrom as [-> | (w & Hw & Hwi)].
        -- destruct Hwhich as [-> | ->]; [by left |].
           right. exists word. split; [by left | done].
        -- right. exists w. split; [by right | done].
      * intros w i [<- | Hw] Hi.
        -- rewrite Hidx in Hi. injection Hi as <-. specialize (Hbound ltac:(lia)). lia.
        -- by apply (Hmin w).
    + destruct (IH b0 Hb0 Hrest) as (Hge & Hzero & Hbound & Hfrom & Hmin).
      split; [exact Hge |]. split; [| split; [| split]].
      * rewrite Hzero. split.
        -- intros [-> Hnone]. split; [done |]. intros w [<- | Hw]; [done | by apply Hnone].
        -- intros [-> Hnone]. split; [done |]. intros w Hw. apply Hnone. by right.
      * exact Hbound.
      * destruct Hfrom as [-> | (w & Hw & Hwi)]; [by left |].
        right. exists w. split; [by right | done].
      * intros w i [<- | Hw] Hi; [congruence | by apply (Hmin w)].
Qed.

(** With no query word in the text, the snippet is the leading window. *)
Lemma getContextSnippet_no_match (text : jsstring) (queryWords : list jsstring)
    (contextLength : Z) :
  (forall w, In w queryWords -> indexOf (toLowerCase text) w = None) ->
  getContextSnippet text queryWords contextLength
  = substring text 0 contextLength
    ++ (if (contextLength <? jslen text)%Z then js "..." else []).
Proof.
  intros Hnone. unfold getContextSnippet.
  destruct (bestMatch_fold text queryWords 0%Z ltac:(lia)) as (_ & Hzero & _).
  { intros w Hw. by rewrite (Hnone w Hw). }
  cbn zeta in Hzero. fold (bestMatchIndex text queryWords) in Hzero.
  rewrite (proj2 Hzero (conj eq_refl Hnone)). reflexivity.
Qed.

(** With no query word at index 0 and one at least in the text, the window
    is cut around the earliest occurrence of a query word. *)
Lemma getContextSnippet_earliest (text : jsstring) (queryWords : list jsstring)
    (contextLength : Z) :
  (forall w, In w queryWords -> indexOf (toLowerCase text) w <> Some 0%Z) ->
  (exists w, In w queryWords /\ indexOf (toLowerCase text) w <> None) ->
  exists w b,
    In w queryWords
    /\ indexOf (toLowerCase text) w = Some b
    /\ (forall v i, In v queryWords -> indexOf (toLowerCase text) v = Some i -> (b <= i)%Z)
    /\ getContextSnippet text queryWords contextLength
       = (if (0 <? Z.max 0 (b - contextLength / 2))%Z then js "..." else [])
         ++ substring text (Z.max 0 (b - contextLength / 2))
              (Z.min (jslen text) (b + contextLength / 2))
         ++ (if (Z.min (jslen text) (b + contextLength / 2) <? jslen text)%Z
             then js "..." else []).
Proof.
  intros Hnz (w0 & Hw0 & Hfound).
  destruct (bestMatch_fold text queryWords 0%Z ltac:(lia) Hnz)
    as (Hge & Hzero & _ & Hfrom & Hmin).
  cbn zeta in *. fold (bestMatchIndex text queryWords) in *.
  assert (Hne : bestMatchIndex text queryWords <> 0%Z).
  { intros Hb. apply Hzero in Hb as [_ Hnone]. by apply Hfound, Hnone. }
  destruct Hfrom as [Hb | (w & Hw & Hwi)]; [done |].
  exists w, (bestMatchIndex text queryWords).
  split; [done |]. split; [done |]. split; [exact Hmin |].
  unfold getContextSnippet. apply Z.eqb_neq in Hne. by rewrite Hne.
Qed.

End Snippets.

(** ** Extraction: fallback and failure *)

(** C6 fails on that file: the secondary method resolves to the string
    [''], whose [text] is [undefined]; reading its length throws, the
    extraction throws in turn and nothing is written to the cache. *)
Lemma comprehensiveExtractPDF_throws_on_data_error :
  @extractTextWithPdfReader (readerRun unparsablePdf) = emptyExtraction
  /\ @extractTextWithPDF2JSON basicLatin (pdf2jsonRun unparsablePdf) = ResString []
  /\ @comprehensiveExtractPDF basicLatin (Some unparsablePdf) (js "anchors.pdf") (js "now")
       emptyWorld
     = (Thrown LengthOfUndefined,
        {| extracted := ∅;
           writeFile := writeFile emptyWorld;
           invoked := [PdfReaderMethod; PDF2JSONMethod] |}).
Proof. repeat split; reflexivity. Qed.

Lemma selectExtraction_cases (rt : Runtime) (pdf : PdfFile) (w : World) :
  selectExtraction pdf w =
  if bool_decide (exText (primaryResult pdf) = [])
     || (jslen (exText (primaryResult pdf)) <? 100)%Z
  then (extractTextWithPDF2JSON (pdf2jsonRun pdf),
        invoke PDF2JSONMethod (invoke PdfReaderMethod w))
  else (ResObject (primaryResult pdf), invoke PdfReaderMethod w).
Proof.
  unfold selectExtraction, primaryResult.
  destruct (exText (extractTextWithPdfReader (readerRun pdf))) as [| c t] eqn:Htext.
  - reflexivity.
  - rewrite bool_decide_eq_false_2 by discriminate. reflexivity.
Qed.

Lemma selectExtraction_files (rt : Runtime) (pdf : PdfFile) (w : World) :
  extracted (snd (selectExtraction pdf w)) = extracted w
  /\ writeFile (snd (selectExtraction pdf w)) = writeFile w.
Proof. rewrite selectExtraction_cases. by destruct (_ || _). Qed.

(** The files after an extraction: a returned record is in the cache file
    of the chapter; a write that fails after the file was opened leaves no
    readable cache file there; in every other case the cache is as it was. *)
Lemma comprehensiveExtractPDF_files (rt : Runtime) (file : option PdfFile)
    (chapterName now : jsstring) (w : World) :
  writeFile (snd (comprehensiveExtractPDF file chapterName now w)) = writeFile w
  /\ match fst (comprehensiveExtractPDF file chapterName now w) with
     | Returned content =>
         writeFile w (cacheFile chapterName) = Written
         /\ extracted (snd (comprehensiveExtractPDF file chapterName now w))
            = <[cacheFile chapterName := content]> (extracted w)
     | Thrown WriteFileFailed =>
         match writeFile w (cacheFile chapterName) with
         | Written => False
         | NotOpened =>
             extracted (snd (comprehensiveExtractPDF file chapterName now w)) = extracted w
         | Truncated =>
             extracted (snd (comprehensiveExtractPDF file chapterName now w))
             = delete (cacheFile chapterName) (extracted w)
         end
     | Thrown _ =>
         extracted (snd (comprehensiveExtractPDF file chapterName now w)) = extracted w
     end.
Proof.
  unfold comprehensiveExtractPDF. destruct file as [pdf |]; [| done].
  destruct (selectExtraction_files rt pdf w) as [Hfiles Hwrite].
  destruct (selectExtraction pdf w) as [[e | s] w1]; simpl in Hfiles, Hwrite; [| done].
  destruct (createSearchIndex _ _) as [index |]; [| done].
  unfold writeCache. rewrite Hwrite.
  destruct (writeFile w (cacheFile chapterName)) eqn:Hout; simpl;
    rewrite ?Hout, ?Hfiles; done.
Qed.

(** Whenever the fallback is taken and the secondary parser reports a data
    error (or [parseBuffer] throws), the extraction throws and the cache is
    left as it was. *)
Lemma comprehensiveExtractPDF_throws_after_fallback (rt : Runtime) (pdf : PdfFile)
    (chapterName now : jsstring) (w : World) :
  (jslen (exText (primaryResult pdf)) < 100)%Z ->
  pdf2jsonRun pdf = DataError \/ pdf2jsonRun pdf = ParseBufferThrows ->
  comprehensiveExtractPDF (Some pdf) chapterName now w
  = (Thrown LengthOfUndefined, invoke PDF2JSONMethod (invoke PdfReaderMethod w))
  /\ extracted (snd (comprehensiveExtractPDF (Some pdf) chapterName now w)) = extracted w.
Proof.
  intros Hshort Hrun.
  assert (Heq : comprehensiveExtractPDF (Some pdf) chapterName now w
                = (Thrown LengthOfUndefined, invoke PDF2JSONMethod (invoke PdfReaderMethod w))).
  { unfold comprehensiveExtractPDF. rewrite selectExtraction_cases.
    apply Z.ltb_lt in Hshort. rewrite Hshort, orb_true_r.
    by destruct Hrun as [-> | ->]. }
  split; [exact Heq |]. by rewrite Heq.
Qed.

(** ** Page ranges of the chunks *)

Lemma mapInv_weaken P b b' st : (b <= b')%Z -> mapInv P b st -> mapInv P b' st.
Proof.
  intros Hb (H0 & Hdom & Hval & Hmono). split; [| split; [| split]]; try done.
  intros k v Hk. destruct (Hval k v Hk). split; [done | lia].
Qed.

Lemma assignPage_inv P textLength pageNum n : forall st bound,
  mapInv P bound st -> (bound <= pageNum)%Z -> P pageNum ->
  mapInv P pageNum (assignPage n textLength pageNum st).
Proof.
  induction n as [| n IH]; intros [m cur] bound Hinv Hb HP; simpl.
  - by eapply mapInv_weaken.
  - destruct (cur <? textLength)%Z eqn:Hlt; [| by eapply mapInv_weaken].
    apply (IH _ pageNum); [| lia | done].
    destruct Hinv as (H0 & Hdom & Hval & Hmono). simpl in *.
    assert (Hold : forall k v, m !! k = Some v -> (k < cur)%Z).
    { intros k v Hk. apply mk_is_Some, Hdom in Hk. lia. }
    split; [| split; [| split]]; simpl.
    + lia.
    + intros k. destruct (decide (k = cur)) as [-> | Hne].
      * rewrite lookup_insert_eq. split; [lia | eauto].
      * rewrite lookup_insert_ne by done. rewrite Hdom. lia.
    + intros k v. destruct (decide (k = cur)) as [-> | Hne].
      * rewrite lookup_insert_eq. intros [= <-]. split; [done | lia].
      * rewrite lookup_insert_ne by done. intros Hk.
        destruct (Hval k v Hk). split; [done | lia].
    + intros k1 k2 v1 v2 Hle H1 H2.
      destruct (decide (k2 = cur)) as [-> | Hne2].
      * rewrite lookup_insert_eq in H2. injection H2 as <-.
        destruct (decide (k1 = cur)) as [-> | Hne1].
        -- rewrite lookup_insert_eq in H1. injection H1 as <-. lia.
        -- rewrite lookup_insert_ne in H1 by done. destruct (Hval k1 v1 H1). lia.
      * rewrite lookup_insert_ne in H2 by done.
        pose proof (Hold k2 v2 H2).
        rewrite lookup_insert_ne in H1 by lia.
        by apply (Hmono k1 k2).
Qed.

(** How far the inner loop gets. *)
Lemma assignPage_position textLength pageNum n : forall st,
  (snd st <= textLength)%Z ->
  snd (assignPage n textLength pageNum st) = Z.min textLength (snd st + Z.of_nat n).
Proof.
  induction n as [| n IH]; intros [m cur] Hle; simpl in *; [lia |].
  destruct (cur <? textLength)%Z eqn:Hlt; simpl.
  - apply Z.ltb_lt in Hlt. rewrite IH by (simpl; lia). simpl. lia.
  - apply Z.ltb_ge in Hlt. lia.
Qed.

Section CharToPageMap.
Variable fullText : jsstring.
Variable pageData : gmap Z jsstring.

Local Abbreviation step := (assignStep fullText pageData).
Local Abbreviation room := (capacity pageData).

Lemma fold_assign_inv P pages : forall st bound,
  StronglySorted Z.le pages ->
  Forall (fun p => P p /\ (bound <= p)%Z) pages ->
  mapInv P bound st ->
  exists bound', mapInv P bound' (fold_left step pages st).
Proof.
  induction pages as [| p pages IH]; intros st bound Hsorted Hall Hinv; simpl.
  - by exists bound.
  - apply StronglySorted_inv in Hsorted as [Hsorted Hp].
    apply Forall_cons in Hall as [[HP Hb] Hall].
    apply (IH _ p); [done | |].
    + rewrite Forall_forall in Hall, Hp |- *. intros q Hq.
      split; [by apply Hall | by apply Hp].
    + by apply (assignPage_inv P _ _ _ _ bound).
Qed.

Lemma fold_assign_position pages : forall st,
  (snd st <= jslen fullText)%Z ->
  snd (fold_left step pages st) = Z.min (jslen fullText) (snd st + room pages).
Proof.
  induction pages as [| p pages IH]; intros st Hle; simpl; [lia |].
  assert (Hpos : snd (step st p)
                 = Z.min (jslen fullText)
                     (snd st + Z.of_nat (S (List.length (default [] (pageData !! p))))))
    by (by apply assignPage_position).
  rewrite IH by (rewrite Hpos; lia). rewrite Hpos.
  pose proof (jslen_nonneg fullText).
  assert (0 <= room pages)%Z.
  { clear. induction pages; simpl; lia. }
  lia.
Qed.

Lemma sortedPages_sorted : StronglySorted Z.le (sortedPages pageData).
Proof. unfold sortedPages. apply StronglySorted_merge_sort; apply _. Qed.

Lemma sortedPages_elem p : p ∈ sortedPages pageData <-> is_Some (pageData !! p).
Proof.
  unfold sortedPages. rewrite merge_sort_Permutation, list_elem_of_fmap. split.
  - intros [[q t] [-> Hin]]. apply elem_of_map_to_list in Hin. simpl. eauto.
  - intros [t Ht]. exists (p, t). split; [done |]. by apply elem_of_map_to_list.
Qed.

Lemma sortedPages_length : List.length (sortedPages pageData) = size pageData.
Proof.
  unfold sortedPages. rewrite merge_sort_Permutation, length_fmap.
  apply length_map_to_list.
Qed.

(** The character map covers a prefix of the text, with page numbers of
    [pageData] that do not decrease. *)
Lemma createCharToPageMap_inv :
  exists bound covered,
    mapInv (fun p => is_Some (pageData !! p)) bound
      (createCharToPageMap fullText pageData, covered)
    /\ covered = Z.min (jslen fullText) (room (sortedPages pageData)).
Proof.
  unfold createCharToPageMap.
  change (fold_left _ (sortedPages pageData) (∅, 0%Z))
    with (fold_left step (sortedPages pageData) (∅, 0%Z)).
  set (final := fold_left step (sortedPages pageData) (∅, 0%Z)).
  set (b0 := match sortedPages pageData with p :: _ => p | [] => 0%Z end).
  assert (Hstart : mapInv (fun p => is_Some (pageData !! p)) b0 (∅, 0%Z)).
  { split; [| split; [| split]]; simpl.
    - lia.
    - intros k. rewrite lookup_empty. split; [by intros [v Hv] | lia].
    - intros k v Hk. by rewrite lookup_empty in Hk.
    - intros k1 k2 v1 v2 _ H1. by rewrite lookup_empty in H1. }
  destruct (fold_assign_inv (fun p => is_Some (pageData !! p)) (sortedPages pageData)
              (∅, 0%Z) b0 sortedPages_sorted) as [bound Hinv]; [| exact Hstart |].
  - pose proof sortedPages_sorted as Hs.
    rewrite Forall_forall. intros p Hp. split; [by apply sortedPages_elem |].
    subst b0.
    destruct (sortedPages pageData) as [| q rest]; [by apply not_elem_of_nil in Hp |].
    apply elem_of_cons in Hp as [-> | Hp]; [lia |].
    apply StronglySorted_inv in Hs as [_ Hq]. rewrite Forall_forall in Hq. by apply Hq.
  - exists bound, (snd final). split.
    + exact Hinv.
    + subst final. rewrite fold_assign_position; simpl; [lia |]. apply jslen_nonneg.
Qed.

End CharToPageMap.

Section ChunkPages.
Context {rt : Runtime}.

(** A chunk's pages are in order when the page count is at least 1 and
    either the map covers the whole text or its pages lie in [1 .. n]. *)
Lemma makeChunk_pagesOrdered (P : Z -> Prop) (fullText : jsstring) (m : gmap Z Z)
    (covered bound n chunkSize i : Z) (k : nat) :
  mapInv P bound (m, covered) ->
  (0 < chunkSize)%Z -> (0 <= i < jslen fullText)%Z -> (1 <= n)%Z ->
  (covered = jslen fullText \/ forall v, P v -> (1 <= v <= n)%Z) ->
  pagesOrdered (makeChunk fullText m (Some n) chunkSize i k).
Proof.
  intros (H0 & Hdom & Hval & Hmono) HC Hi Hn Hsupply. simpl in *.
  unfold pagesOrdered, makeChunk; simpl.
  set (e := (Z.min (i + chunkSize) (jslen fullText) - 1)%Z).
  assert (He : (i <= e < jslen fullText)%Z) by (subst e; lia).
  unfold orNumber, orMaybe.
  destruct (m !! i) as [p |] eqn:Hp; destruct (m !! e) as [q |] eqn:Hq.
  - pose proof (Hmono i e p q ltac:(lia) Hp Hq).
    destruct (p =? 0)%Z eqn:Hp0; destruct (q =? 0)%Z eqn:Hq0;
      eexists; (split; [reflexivity | lia]).
  - assert (Hcov : ~ (0 <= e < covered)%Z).
    { rewrite <- Hdom, Hq. by intros [? ?]. }
    destruct Hsupply as [-> | Hrange]; [lia |].
    destruct (Hval i p Hp) as [HP _]. specialize (Hrange p HP).
    destruct (p =? 0)%Z eqn:Hp0; eexists; (split; [reflexivity | lia]).
  - assert (Hcov : ~ (0 <= i < covered)%Z).
    { rewrite <- Hdom, Hp. by intros [? ?]. }
    assert (0 <= e < covered)%Z by (rewrite <- Hdom, Hq; eauto). lia.
  - eexists; (split; [reflexivity | lia]).
Qed.

Lemma createPageAwareChunks_pagesOrdered (fullText : jsstring) (pageData : gmap Z jsstring)
    (n : Z) :
  (fullText <> [] -> (1 <= n)%Z) ->
  ((jslen fullText <= capacity pageData (sortedPages pageData))%Z
   \/ forall p, is_Some (pageData !! p) -> (1 <= p <= n)%Z) ->
  Forall pagesOrdered (createPageAwareChunks fullText pageData (Some n)).
Proof.
  intros Hn Hsupply. unfold createPageAwareChunks.
  destruct (createCharToPageMap_inv fullText pageData) as (bound & covered & Hinv & Hcov).
  destruct (chunkLoop_spec fullText (createCharToPageMap fullText pageData) (Some n)
              EXTRACTION_CONFIG_CHUNK_SIZE ltac:(reflexivity)
              (List.length fullText) 0%Z [])
    as (fresh & -> & _ & _ & Hk).
  - lia.
  - unfold EXTRACTION_CONFIG_CHUNK_SIZE, jslen. lia.
  - rewrite app_nil_l. apply Forall_lookup. intros k c Hc.
    destruct (Hk k c Hc) as (_ & _ & Hlt & ->).
    apply (makeChunk_pagesOrdered (fun p => is_Some (pageData !! p))
             fullText _ covered bound); try done.
    + unfold EXTRACTION_CONFIG_CHUNK_SIZE in *. lia.
    + apply Hn. intros ->.
      unfold jslen, EXTRACTION_CONFIG_CHUNK_SIZE in Hlt. simpl in Hlt. lia.
    + destruct Hsupply as [Hcap | Hrange]; [left; lia | by right].
Qed.

End ChunkPages.

(** *** What [extractTextWithPdfReader] supplies *)

Lemma trim_shorter (s : jsstring) : (jslen (trim s) <= jslen s)%Z.
Proof.
  unfold trim. destruct (trimStart_suffix s) as [pre Hpre].
  destruct (trimEnd_prefix (trimStart s)) as [post Hpost].
  rewrite Hpre at 2. rewrite Hpost at 2. rewrite !jslen_app.
  pose proof (jslen_nonneg pre). pose proof (jslen_nonneg post). lia.
Qed.

Lemma join_capacity (pageText : gmap Z jsstring) (pages : list Z) :
  (jslen (join [10%N] (List.map (fun page => default [] (pageText !! page)) pages))
   <= capacity pageText pages)%Z.
Proof.
  induction pages as [| p pages IH]; [unfold jslen; simpl; lia |].
  cbn [List.map join capacity fold_right].
  fold (capacity pageText pages).
  destruct (List.map _ pages) as [| t rest] eqn:Hrest.
  - assert (0 <= capacity pageText pages)%Z.
    { clear. induction pages; simpl; lia. }
    unfold jslen. lia.
  - rewrite !jslen_app. unfold jslen in *. change (List.length [10%N]) with 1%nat. lia.
Qed.

Lemma extractTextWithPdfReader_pagesOrdered (rt : Runtime) (run : ReaderRun) :
  Forall pagesOrdered
    (createPageAwareChunks (exText (extractTextWithPdfReader run))
       (pageData (extractTextWithPdfReader run))
       (totalPages (extractTextWithPdfReader run))).
Proof.
  unfold extractTextWithPdfReader. destruct (readerEnd run); [by constructor |].
  set (pageText := fst (fold_left onReaderItem (readerItems run) (∅, 0%Z))).
  cbn [exText pageData totalPages].
  apply createPageAwareChunks_pagesOrdered.
  - intros Hne. destruct (sortedPages pageText) as [| p rest] eqn:Hpages.
    + by destruct Hne.
    + simpl. lia.
  - left. etransitivity; [apply trim_shorter | apply join_capacity].
Qed.

(** *** What [extractTextWithPDF2JSON] supplies *)

Lemma onPage_pagesSeen (rt : Runtime) (pages : list Page) : forall k st,
  pagesSeen k st -> pagesSeen (k + List.length pages) (fold_left onPage pages st).
Proof.
  induction pages as [| page pages IH]; intros k st Hst; simpl.
  - by rewrite Nat.add_0_r.
  - replace (k + S (List.length pages))%nat with (S k + List.length pages)%nat by lia.
    apply IH. destruct st as [[fullText pageData] pageIndex].
    destruct Hst as (-> & Hdom & Hsize & Hempty). unfold onPage, pagesSeen.
    assert (Hfresh : pageData !! (Z.of_nat k + 1)%Z = None).
    { apply eq_None_not_Some. rewrite Hdom. lia. }
    split; [lia |]. split; [| split].
    + intros p. destruct (decide (p = (Z.of_nat k + 1)%Z)) as [-> | Hne].
      * rewrite lookup_insert_eq. split; [lia | eauto].
      * rewrite lookup_insert_ne by done. rewrite Hdom. lia.
    + rewrite map_size_insert_None by done. by rewrite Hsize.
    + split; [| discriminate].
      intros Hnil. apply app_eq_nil in Hnil as [_ Hnil].
      apply app_eq_nil in Hnil as [_ Hnil]. discriminate.
Qed.

Lemma extractTextWithPDF2JSON_pagesOrdered (rt : Runtime) (run : Pdf2JsonRun) :
  match extractTextWithPDF2JSON run with
  | ResObject e =>
      Forall pagesOrdered (createPageAwareChunks (exText e) (pageData e) (totalPages e))
  | ResString _ => True
  end.
Proof.
  destruct run as [| pdfData |]; [done | | done].
  assert (Hpages : forall pages,
    let '(fullText, pd, _) := fold_left onPage pages ([], ∅, 0%Z) in
    Forall pagesOrdered
      (createPageAwareChunks (reconstructText fullText) pd (Some (Z.of_nat (size pd))))).
  { intros pages.
    pose proof (onPage_pagesSeen rt pages 0 ([], ∅, 0%Z)) as Hseen.
    destruct (fold_left onPage pages ([], ∅, 0%Z)) as [[fullText pd] pageIndex].
    destruct Hseen as (_ & Hdom & Hsize & Hempty).
    { split; [done |]. split; [| split]; [| apply map_size_empty | done].
      intros p. rewrite lookup_empty. split; [by intros [? ?] | simpl; lia]. }
    apply createPageAwareChunks_pagesOrdered.
    - intros Hne. destruct (size pd) eqn:Hn; [| lia].
      destruct Hne. simpl in Hsize. rewrite <- Hsize in Hempty.
      by rewrite (proj2 Hempty eq_refl).
    - right. intros p Hp. apply Hdom in Hp. simpl in Hsize. lia. }
  destruct pdfData as [| pages |]; simpl.
  - apply (Hpages []).
  - specialize (Hpages pages).
    by destruct (fold_left onPage pages ([], ∅, 0%Z)) as [[fullText pd] pageIndex].
  - by constructor.
Qed.

(** C5. Every chunk that [createPageAwareChunks] makes of what an
    extraction method supplies has [startPage <= endPage]: for the result of
    the primary method (whose page numbers need not start at 1), for the
    result of the secondary method (whose page map need not cover the
    reconstructed text, so that the fallbacks 1 and [totalPages] apply), and
    hence for the chunks of every record [comprehensiveExtractPDF] returns. *)
Theorem chunk_pages_ordered (rt : Runtime) (pdf : PdfFile) (chapterName now : jsstring)
    (w : World) :
  Forall pagesOrdered
    (createPageAwareChunks (exText (primaryResult pdf)) (pageData (primaryResult pdf))
       (totalPages (primaryResult pdf)))
  /\ match extractTextWithPDF2JSON (pdf2jsonRun pdf) with
     | ResObject e =>
         Forall pagesOrdered (createPageAwareChunks (exText e) (pageData e) (totalPages e))
     | ResString _ => True
     end
  /\ match fst (comprehensiveExtractPDF (Some pdf) chapterName now w) with
     | Returned content => Forall pagesOrdered (textChunks content)
     | Thrown _ => True
     end.
Proof.
  pose proof (extractTextWithPdfReader_pagesOrdered rt (readerRun pdf)) as Hprimary.
  pose proof (extractTextWithPDF2JSON_pagesOrdered rt (pdf2jsonRun pdf)) as Hsecondary.
  split; [exact Hprimary |]. split; [exact Hsecondary |].
  unfold comprehensiveExtractPDF. rewrite selectExtraction_cases.
  destruct (bool_decide _ || _).
  - destruct (extractTextWithPDF2JSON (pdf2jsonRun pdf)) as [e | s]; [| done].
    destruct (createSearchIndex _ _); [| done].
    unfold writeCache. by destruct (writeFile _ _).
  - destruct (createSearchIndex _ _); [| done].
    unfold writeCache. by destruct (writeFile _ _).
Qed.

Example chunk_pages_from_five :
  List.map (fun c => (startPage c, endPage c))
    (@createPageAwareChunks basicLatin
       (exText (extractTextWithPdfReader pagesFiveAndSeven))
       (pageData (extractTextWithPdfReader pagesFiveAndSeven))
       (totalPages (extractTextWithPdfReader pagesFiveAndSeven)))
  = [(5%Z, Some 7%Z)].
Proof. vm_compute. reflexivity. Qed.

Example chunk_pages_uncovered :
  match @extractTextWithPDF2JSON basicLatin onePageOfDigits with
  | ResObject e =>
      exText e = js "a 1 b 2 c 3"
      /\ createCharToPageMap (exText e) (pageData e) !! 10%Z = None
      /\ List.map (fun c => (startPage c, endPage c))
           (@createPageAwareChunks basicLatin (exText e) (pageData e) (totalPages e))
         = [(1%Z, Some 1%Z)]
  | ResString _ => False
  end.
Proof. vm_compute. repeat split; reflexivity. Qed.

(** The order of the pages rests on what the extraction methods supply: on a
    page map that neither covers the text nor numbers its pages from 1, the
    chunker returns a chunk from page 5 to page 1. *)
Example chunk_pages_need_the_extractor :
  List.map (fun c => (startPage c, endPage c))
    (@createPageAwareChunks basicLatin (js "abcdefgh") {[ 5%Z := js "abc" ]} (Some 1%Z))
  = [(5%Z, Some 1%Z)].
Proof. vm_compute. reflexivity. Qed.

(** ** The chunks a context level selects *)

Lemma sliceFrom0_nat {A} (l : list A) (n : nat) : sliceFrom0 l (Z.of_nat n) = firstn n l.
Proof.
  unfold sliceFrom0. destruct (Z.of_nat n <? 0)%Z eqn:Hneg.
  - apply Z.ltb_lt in Hneg. lia.
  - by rewrite Nat2Z.id.
Qed.

Lemma maxChunksFor_own (contextLevel : jsstring) :
  isInherited contextLevel = false ->
  toIntegerOrZero (maxChunksFor contextLevel) = Z.of_nat (chunksFor contextLevel).
Proof.
  intros Hown. unfold maxChunksFor, contextSizes, chunksFor.
  destruct (jsstring_eqb contextLevel (js "brief")); [reflexivity |].
  destruct (jsstring_eqb contextLevel (js "detailed")) eqn:Hd.
  - unfold jsstring_eqb in Hd. apply bool_decide_eq_true in Hd as ->. reflexivity.
  - destruct (jsstring_eqb contextLevel (js "comprehensive")); [reflexivity |].
    by rewrite Hown.
Qed.

(** ** Sorting *)

Section SortByKey.
Context {A : Type}.
Variable key : A -> Z.

Local Abbreviation cmp := (descendingBy key).
Local Abbreviation above := (notBelow key).

Lemma insertBy_perm x l : insertBy cmp x l ≡ₚ x :: l.
Proof.
  induction l as [| y l IH]; simpl; [done |].
  destruct (cmp x y <=? 0)%Z; [done |].
  rewrite IH. apply perm_swap.
Qed.

Lemma insertBy_sorted x l :
  StronglySorted above l -> StronglySorted above (insertBy cmp x l).
Proof.
  induction 1 as [| y l Hl IH Hy]; simpl.
  - repeat constructor.
  - destruct (cmp x y <=? 0)%Z eqn:Hcmp.
    + apply Z.leb_le in Hcmp. unfold descendingBy in Hcmp.
      constructor; [by constructor |].
      constructor; [unfold notBelow; lia |].
      eapply Forall_impl; [exact Hy |]. unfold notBelow. intros z Hz. lia.
    + apply Z.leb_gt in Hcmp. unfold descendingBy in Hcmp.
      constructor; [exact IH |].
      rewrite insertBy_perm. constructor; [unfold notBelow; lia | exact Hy].
Qed.

Lemma jsSort_perm l : jsSort cmp l ≡ₚ l.
Proof.
  induction l as [| x l IH]; simpl; [done |].
  rewrite insertBy_perm. by constructor.
Qed.

Lemma jsSort_sorted l : StronglySorted above (jsSort cmp l).
Proof.
  induction l as [| x l IH]; simpl; [constructor |]. by apply insertBy_sorted.
Qed.

(** In a list sorted that way, the elements kept by [slice(0, n)] are not
    ranked below any of the elements dropped. *)
Lemma sorted_take_drop n l x y :
  StronglySorted above l -> x ∈ firstn n l -> y ∈ skipn n l -> above x y.
Proof.
  intros Hs. revert n. induction Hs as [| z l Hl IH Hz]; intros n Hx Hy.
  - rewrite take_nil in Hx. by apply not_elem_of_nil in Hx.
  - destruct n as [| n]; [by apply not_elem_of_nil in Hx |]. simpl in Hx, Hy.
    apply elem_of_cons in Hx as [-> | Hx].
    + rewrite Forall_forall in Hz. apply Hz. by apply (subseteq_drop n l).
    + by apply (IH n).
Qed.

End SortByKey.

Section Ranking.
Context {rt : Runtime}.

Lemma scoredMatchesOf_sorted (queryWords : list jsstring) (c : ChapterRelevance)
    (cached : ExtractedContent) :
  StronglySorted (notBelow score) (scoredMatchesOf queryWords c cached).
Proof.
  unfold scoredMatchesOf. destruct (_ || _); [| constructor].
  pose proof (jsSort_sorted score
                (List.map (scored queryWords (metadataScore c))
                   (List.filter (chunkIsRelevant queryWords) (textChunks cached)))) as Hs.
  change (descendingBy score) with byScoreDescending in Hs.
  destruct (jsSort byScoreDescending _) as [| m l]; [| exact Hs].
  destruct (50 <=? metadataScore c)%Z; repeat constructor.
Qed.

Lemma searchChapter_fromChapter (w : World) (queryWords : list jsstring) (bookDir : jsstring)
    (c : ChapterRelevance) (r : SearchResult) :
  In r (searchChapter w queryWords bookDir c) -> fromChapter w queryWords r.
Proof.
  unfold searchChapter.
  destruct (getCachedContent w (file c)) as [cached |] eqn:Hcached; [| done].
  destruct (scoredMatchesOf queryWords c cached) as [| m l] eqn:Hall; [done |].
  intros [<- | []]. exists c, cached. simpl. rewrite Hall. by repeat split.
Qed.

Lemma searchBook_fromChapter (lib : Library) (w : World) (queryWords : list jsstring)
    (entry : jsstring * DirEntry) (r : SearchResult) :
  In r (searchBook lib w queryWords entry) -> fromChapter w queryWords r.
Proof.
  destruct entry as [bookDir [| files]]; simpl; [done |].
  intros Hin. apply in_concat in Hin as (rs & Hrs & Hr).
  apply in_map_iff in Hrs as (c & <- & _).
  by eapply searchChapter_fromChapter.
Qed.

Lemma searchResults_fromChapter (lib : Library) (w : World) (query : jsstring)
    (r : SearchResult) :
  r ∈ searchResults lib w query -> fromChapter w (wordsOf query) r.
Proof.
  unfold searchResults.
  pose proof (jsSort_perm (fun r => maxScore (matches r))
                (List.concat (List.map (searchBook lib w (wordsOf query)) (bookDirs lib))))
    as Hperm.
  change (descendingBy _) with byBestMatchDescending in Hperm.
  rewrite Hperm, list_elem_of_In. intros Hin.
  apply in_concat in Hin as (rs & Hrs & Hr).
  apply in_map_iff in Hrs as (entry & <- & _).
  by eapply searchBook_fromChapter.
Qed.

Lemma maxScore_head (m : ScoredMatch) (l : list ScoredMatch) :
  (score m <= maxScore (m :: l))%Z.
Proof.
  simpl. generalize (score m) as a.
  induction l as [| m' l' IH]; intros a; simpl; [lia |].
  specialize (IH (Z.max a (score m'))). lia.
Qed.

(** The best score among the matches kept is the best score of the
    chapter. *)
Lemma maxScore_best (l : list ScoredMatch) (m : ScoredMatch) :
  StronglySorted (notBelow score) l -> m ∈ l -> (score m <= maxScore (firstn 2 l))%Z.
Proof.
  intros Hs Hm. destruct l as [| m0 rest]; [by apply not_elem_of_nil in Hm |].
  change (firstn 2 (m0 :: rest)) with (m0 :: firstn 1 rest).
  pose proof (maxScore_head m0 (firstn 1 rest)) as Hhead.
  apply StronglySorted_inv in Hs as [_ Hall].
  apply elem_of_cons in Hm as [-> | Hm]; [done |].
  rewrite Forall_forall in Hall. specialize (Hall m Hm). unfold notBelow in Hall. lia.
Qed.

Lemma searchResults_sorted (lib : Library) (w : World) (query : jsstring) :
  StronglySorted (notBelow (fun r => maxScore (matches r))) (searchResults lib w query).
Proof. unfold searchResults. apply jsSort_sorted. Qed.

Lemma sliceFrom0_nonneg {A} (l : list A) (n : Z) :
  (0 <= n)%Z -> sliceFrom0 l n = firstn (Z.to_nat n) l.
Proof.
  intros Hn. unfold sliceFrom0. destruct (n <? 0)%Z eqn:Hneg; [| done].
  apply Z.ltb_lt in Hneg. lia.
Qed.

End Ranking.

(** * Further properties *)

(** ** The chunker *)

Lemma substring_length (s : jsstring) (a b : Z) :
  jslen (substring s a b) = Z.abs (clampIndex s b - clampIndex s a).
Proof.
  unfold substring. set (a' := clampIndex s a). set (b' := clampIndex s b).
  assert (Ha : (0 <= a' <= jslen s)%Z).
  { subst a'. unfold clampIndex. pose proof (jslen_nonneg s). lia. }
  assert (Hb : (0 <= b' <= jslen s)%Z).
  { subst b'. unfold clampIndex. pose proof (jslen_nonneg s). lia. }
  unfold jslen in *. rewrite length_take, length_drop. lia.
Qed.

(** X1. The text of [L] characters is cut into [ceil(L / 150000)] chunks;
    chunk [k] ends at [min((k + 1) * 150000, L)], has as many characters as
    lie between its bounds, 150000 of them unless it is the last chunk, and
    carries the topics of its own text. *)
Theorem createPageAwareChunks_sizes (rt : Runtime) (fullText : jsstring)
    (pageData : gmap Z jsstring) (totalPages : option Z) :
  Z.of_nat (List.length (createPageAwareChunks fullText pageData totalPages))
  = ((jslen fullText + 149999) / 150000)%Z
  /\ forall k c,
       createPageAwareChunks fullText pageData totalPages !! k = Some c ->
       endChar c = Z.min ((Z.of_nat k + 1) * 150000) (jslen fullText)
       /\ jslen (text c) = (endChar c - startChar c)%Z
       /\ (jslen (text c) <= 150000)%Z
       /\ ((S k < List.length (createPageAwareChunks fullText pageData totalPages))%nat ->
           jslen (text c) = 150000%Z)
       /\ topics c = extractTopics (text c).
Proof.
  unfold createPageAwareChunks.
  destruct (chunkLoop_spec fullText (createCharToPageMap fullText pageData) totalPages
              EXTRACTION_CONFIG_CHUNK_SIZE ltac:(reflexivity)
              (List.length fullText) 0%Z [])
    as (fresh & -> & Ht & _ & Hk).
  - lia.
  - unfold EXTRACTION_CONFIG_CHUNK_SIZE, jslen. lia.
  - rewrite app_nil_l. unfold EXTRACTION_CONFIG_CHUNK_SIZE in *.
    pose proof (jslen_nonneg fullText) as HL.
    replace (Z.min 0 (jslen fullText)) with 0%Z in Ht by lia.
    assert (Hshape : forall k c, fresh !! k = Some c ->
              startChar c = (Z.of_nat k * 150000)%Z
              /\ (startChar c < jslen fullText)%Z
              /\ endChar c = Z.min ((Z.of_nat k + 1) * 150000) (jslen fullText)
              /\ text c = substring fullText (startChar c) (endChar c)
              /\ topics c = extractTopics (text c)).
    { intros k c Hc. destruct (Hk k c Hc) as (_ & Htxt & Hlt & ->).
      unfold makeChunk in *. simpl in *. repeat split; try lia. exact Htxt. }
    assert (Hcount : Z.of_nat (List.length fresh) = ((jslen fullText + 149999) / 150000)%Z).
    { destruct (last fresh) as [c |] eqn:Hlast.
      - pose proof (tiles_last _ _ _ _ Ht Hlast) as Hend.
        rewrite last_lookup in Hlast.
        destruct (Hshape _ _ Hlast) as (Hs & Hlt & He & _).
        assert (Hn : (0 < List.length fresh)%nat).
        { destruct fresh; [discriminate | simpl; lia]. }
        apply (Z.div_unique_pos _ _ _
          (jslen fullText + 149999 - Z.of_nat (List.length fresh) * 150000)); lia.
      - apply last_None in Hlast as ->. simpl in Ht. rewrite <- Ht. reflexivity. }
    split; [exact Hcount |].
    intros k c Hc. destruct (Hshape k c Hc) as (Hs & Hlt & He & Htxt & Htop).
    assert (Hlen : jslen (text c) = (endChar c - startChar c)%Z).
    { rewrite Htxt at 1. rewrite substring_length. unfold clampIndex. lia. }
    split; [exact He |]. split; [exact Hlen |]. split; [lia |]. split; [| exact Htop].
    intros Hnext. rewrite Hlen, He, Hs.
    destruct (lookup_lt_is_Some_2 fresh (S k) Hnext) as [d Hd].
    destruct (Hshape _ _ Hd) as (Hs' & Hlt' & _). lia.
Qed.

Lemma createCharToPageMap_domain (fullText : jsstring) (pageData : gmap Z jsstring) (k : Z) :
  is_Some (createCharToPageMap fullText pageData !! k)
  <-> (0 <= k < Z.min (jslen fullText) (capacity pageData (sortedPages pageData)))%Z.
Proof.
  destruct (createCharToPageMap_inv fullText pageData)
    as (bound & covered & (_ & Hdom & _) & ->).
  apply Hdom.
Qed.

(** X2. [createCharToPageMap] maps exactly the characters from 0 up to the
    end of the text or to the room the pages offer (their lengths, plus one
    line break each), whichever comes first; every page it assigns is a key
    of [pageData], and the pages do not decrease along the text. *)
Theorem createCharToPageMap_prefix (fullText : jsstring) (pageData : gmap Z jsstring) :
  (forall k,
     is_Some (createCharToPageMap fullText pageData !! k)
     <-> (0 <= k < Z.min (jslen fullText) (capacity pageData (sortedPages pageData)))%Z)
  /\ (forall k p,
        createCharToPageMap fullText pageData !! k = Some p -> is_Some (pageData !! p))
  /\ (forall k1 k2 p1 p2,
        (k1 <= k2)%Z ->
        createCharToPageMap fullText pageData !! k1 = Some p1 ->
        createCharToPageMap fullText pageData !! k2 = Some p2 ->
        (p1 <= p2)%Z).
Proof.
  destruct (createCharToPageMap_inv fullText pageData)
    as (bound & covered & (_ & Hdom & Hval & Hmono) & ->).
  simpl in *. split; [exact Hdom |]. split; [| exact Hmono].
  intros k p Hk. by destruct (Hval k p Hk).
Qed.

(** ** Topics *)

Lemma filter_sublist {A} (f : A -> bool) (l : list A) : sublist (List.filter f l) l.
Proof.
  induction l as [| x l IH]; simpl; [constructor |].
  destruct (f x); by constructor.
Qed.

Lemma climbingTerms_NoDup : List.NoDup climbingTerms.
Proof.
  apply NoDup_ListNoDup.
  apply (bool_decide_unpack (NoDup climbingTerms)). vm_compute. exact I.
Qed.

(** [extractTopics] returns the terms of the fixed vocabulary that the
    lower-cased text includes: in the order of the vocabulary, none twice. *)
Lemma extractTopics_vocabulary {rt : Runtime} (text : jsstring) :
  sublist (extractTopics text) climbingTerms
  /\ List.NoDup (extractTopics text)
  /\ forall term,
       In term (extractTopics text)
       <-> In term climbingTerms /\ includes (toLowerCase text) term = true.
Proof.
  unfold extractTopics. split; [apply filter_sublist |]. split.
  - apply List.NoDup_filter, climbingTerms_NoDup.
  - intros term. apply filter_In.
Qed.

Lemma indexOfFrom_In (p s : jsstring) (c : N) : forall i j,
  indexOfFrom (c :: p) s i = Some j -> In c s.
Proof.
  induction s as [| d s IH]; intros i j; simpl; [discriminate |].
  destruct (c =? d) eqn:Hcd.
  - apply N.eqb_eq in Hcd as ->. by left.
  - simpl. intros Hj. right. by eapply IH.
Qed.

(** X3. The term ['SERENE'] of the vocabulary is never reported: the terms
    are looked up in the lower-cased text, which has no capital letter. *)
Theorem extractTopics_never_SERENE (rt : Runtime) (text : jsstring) :
  (forall s c, In c (toLowerCase s) -> isUpper c = false) ->
  ~ In (js "SERENE") (extractTopics text).
Proof.
  intros Hlower Hin. apply extractTopics_vocabulary in Hin as [_ Hinc].
  unfold includes, indexOf in Hinc.
  destruct (indexOfFrom (js "SERENE") (toLowerCase text) 0) as [j |] eqn:Hj; [| discriminate].
  apply indexOfFrom_In in Hj. apply Hlower in Hj. discriminate.
Qed.

Lemma basicLatin_lower_case (s : jsstring) (c : N) :
  In c (@toLowerCase basicLatin s) -> isUpper c = false.
Proof.
  simpl. intros Hin. apply in_map_iff in Hin as (d & <- & _).
  unfold lowerUnit. destruct (isUpper d) eqn:Hd; [| exact Hd].
  unfold isUpper, inRange in *. apply andb_prop in Hd as [H1 H2].
  apply N.leb_le in H1, H2. apply andb_false_intro2. apply N.leb_gt. lia.
Qed.

Lemma extractTopics_never_SERENE_witness :
  ~ In (js "SERENE") (@extractTopics basicLatin (js "SERENE anchors use equalization.")).
Proof.
  apply (extractTopics_never_SERENE basicLatin (js "SERENE anchors use equalization.")).
  exact basicLatin_lower_case.
Defined.

(** ** The search index *)

Section SearchIndex.
Context {rt : Runtime}.

Lemma indexWord_None (cid : Z) (words : list jsstring) :
  fold_left (indexWord cid) words None = None.
Proof. induction words as [| w words IH]; [reflexivity | exact IH]. Qed.

(** Indexing the words of one chunk: a word that names an inherited
    property makes the call throw; otherwise the chunk id is added once for
    each occurrence of a word. *)
Lemma indexWords_spec (cid : Z) (words : list jsstring) : forall index,
  if existsb isInherited words
  then fold_left (indexWord cid) words (Some index) = None
  else exists index',
         fold_left (indexWord cid) words (Some index) = Some index'
         /\ forall w, default [] (index' !! w)
                      = default [] (index !! w)
                        ++ List.map (fun _ => cid) (List.filter (jsstring_eqb w) words).
Proof.
  induction words as [| word words IH]; intros index; simpl.
  - exists index. split; [reflexivity |]. intros w. by rewrite app_nil_r.
  - destruct (isInherited word) eqn:Hword; simpl; [apply indexWord_None |].
    specialize (IH (<[word := default [] (index !! word) ++ [cid]]> index)).
    destruct (existsb isInherited words); [exact IH |].
    destruct IH as (index' & Hfold & Hlook). exists index'. split; [exact Hfold |].
    intros w. rewrite Hlook. unfold jsstring_eqb at 2.
    destruct (decide (w = word)) as [-> | Hne].
    + rewrite lookup_insert_eq, bool_decide_eq_true_2 by done. simpl.
      by rewrite <- app_assoc.
    + rewrite lookup_insert_ne, bool_decide_eq_false_2 by done. reflexivity.
Qed.

Lemma createSearchIndex_None (chunks : list Chunk) :
  fold_left (fun index chunk => fold_left (indexWord (id chunk)) (wordsOf (text chunk)) index)
    chunks None = None.
Proof.
  induction chunks as [| c chunks IH]; [reflexivity |]. simpl. by rewrite indexWord_None.
Qed.

Lemma createSearchIndex_fold (chunks : list Chunk) : forall index,
  if hasInheritedWord chunks
  then fold_left (fun index chunk =>
                    fold_left (indexWord (id chunk)) (wordsOf (text chunk)) index)
         chunks (Some index) = None
  else exists index',
         fold_left (fun index chunk =>
                      fold_left (indexWord (id chunk)) (wordsOf (text chunk)) index)
           chunks (Some index) = Some index'
         /\ forall w, default [] (index' !! w) = default [] (index !! w) ++ postings w chunks.
Proof.
  induction chunks as [| c chunks IH]; intros index; simpl.
  - exists index. split; [reflexivity |]. intros w. by rewrite app_nil_r.
  - pose proof (indexWords_spec (id c) (wordsOf (text c)) index) as Hc.
    destruct (existsb isInherited (wordsOf (text c))); simpl.
    + rewrite Hc. apply createSearchIndex_None.
    + destruct Hc as (index1 & -> & Hlook1). specialize (IH index1).
      fold (hasInheritedWord chunks). destruct (hasInheritedWord chunks); [exact IH |].
      destruct IH as (index' & Hfold & Hlook). exists index'. split; [exact Hfold |].
      intros w. rewrite Hlook, Hlook1. by rewrite <- app_assoc.
Qed.

(** No key of the index has an empty list. *)
Lemma indexWords_nonempty (cid : Z) (words : list jsstring) : forall index index',
  (forall w l, index !! w = Some l -> l <> []) ->
  fold_left (indexWord cid) words (Some index) = Some index' ->
  forall w l, index' !! w = Some l -> l <> [].
Proof.
  induction words as [| word words IH]; intros index index' Hne; simpl.
  - by intros [= <-].
  - destruct (isInherited word); [by rewrite indexWord_None |].
    apply IH. intros w l. destruct (decide (w = word)) as [-> | Hw].
    + rewrite lookup_insert_eq. intros [= <-]. by destruct (default [] (index !! word)).
    + rewrite lookup_insert_ne by done. apply Hne.
Qed.

Lemma createSearchIndex_nonempty (chunks : list Chunk) : forall index index',
  (forall w l, index !! w = Some l -> l <> []) ->
  fold_left (fun index chunk => fold_left (indexWord (id chunk)) (wordsOf (text chunk)) index)
    chunks (Some index) = Some index' ->
  forall w l, index' !! w = Some l -> l <> [].
Proof.
  induction chunks as [| c chunks IH]; intros index index' Hne; simpl.
  - by intros [= <-].
  - destruct (fold_left (indexWord (id c)) (wordsOf (text c)) (Some index))
      as [index1 |] eqn:H1; [| by rewrite createSearchIndex_None].
    apply IH. by eapply indexWords_nonempty.
Qed.

End SearchIndex.

(** X4. When [createSearchIndex] returns an index, what it lists under a
    word is the id of each chunk once for each occurrence of the word among
    the chunk's words (lower-cased, longer than two characters), in chunk
    order; a word that occurs in no chunk is no key of the index. *)
Theorem createSearchIndex_postings (rt : Runtime) (fullText : jsstring) (chunks : list Chunk)
    (index : gmap jsstring (list Z)) :
  createSearchIndex fullText chunks = Some index ->
  forall word,
    default [] (index !! word) = postings word chunks
    /\ (is_Some (index !! word) <-> postings word chunks <> []).
Proof.
  intros Hindex word. unfold createSearchIndex in Hindex.
  pose proof (createSearchIndex_fold chunks ∅) as Hfold.
  destruct (hasInheritedWord chunks); [congruence |].
  destruct Hfold as (index' & Hfold & Hlook). rewrite Hfold in Hindex.
  injection Hindex as ->.
  assert (Hword : default [] (index !! word) = postings word chunks).
  { rewrite Hlook, lookup_empty. reflexivity. }
  split; [exact Hword |]. rewrite <- Hword. split.
  - intros [l Hl]. rewrite Hl. simpl.
    refine (createSearchIndex_nonempty chunks ∅ index _ Hfold word l Hl).
    intros w l'. by rewrite lookup_empty.
  - destruct (index !! word); [eauto | done].
Qed.

Lemma createSearchIndex_postings_witness :
  default [] (default ∅ (@createSearchIndex basicLatin [] (textChunks ropeChapter))
                !! js "rope")
  = [0; 1; 2; 2; 2; 3]%Z.
Proof.
  refine (eq_trans
            (proj1 (createSearchIndex_postings basicLatin [] (textChunks ropeChapter)
                      (default ∅ (@createSearchIndex basicLatin [] (textChunks ropeChapter)))
                      _ (js "rope"))) _).
  - vm_compute. reflexivity.
  - vm_compute. reflexivity.
Defined.

(** X5. [createSearchIndex] throws exactly when a chunk has a word that
    names a property inherited from [Object.prototype] (such as
    ['constructor']); [comprehensiveExtractPDF] then throws as well and
    leaves the cache as it was. *)
Theorem createSearchIndex_inherited_word (rt : Runtime) (pdf : PdfFile)
    (chapterName now : jsstring) (w : World) (e : Extraction) :
  fst (selectExtraction pdf w) = ResObject e ->
  (createSearchIndex (exText e)
     (createPageAwareChunks (exText e) (pageData e) (totalPages e)) = None
   <-> hasInheritedWord (createPageAwareChunks (exText e) (pageData e) (totalPages e)) = true)
  /\ (hasInheritedWord (createPageAwareChunks (exText e) (pageData e) (totalPages e)) = true ->
      fst (comprehensiveExtractPDF (Some pdf) chapterName now w) = Thrown PushIsNotAFunction
      /\ extracted (snd (comprehensiveExtractPDF (Some pdf) chapterName now w)) = extracted w).
Proof.
  intros Hsel.
  set (chunks := createPageAwareChunks (exText e) (pageData e) (totalPages e)).
  assert (Hiff : createSearchIndex (exText e) chunks = None <-> hasInheritedWord chunks = true).
  { unfold createSearchIndex. pose proof (createSearchIndex_fold chunks ∅) as Hfold.
    destruct (hasInheritedWord chunks); [by split |].
    destruct Hfold as (index' & -> & _). by split. }
  split; [exact Hiff |]. intros Hbad. apply Hiff in Hbad.
  unfold comprehensiveExtractPDF.
  destruct (selectExtraction pdf w) as [r w1] eqn:Hs. simpl in Hsel. subst r.
  fold chunks. rewrite Hbad. simpl. split; [reflexivity |].
  rewrite selectExtraction_cases in Hs. by destruct (_ || _); injection Hs as _ <-.
Qed.

(** A file whose one page speaks of a constructor. *)
Lemma createSearchIndex_inherited_word_witness :
  fst (@comprehensiveExtractPDF basicLatin (Some constructorPdf) (js "c.pdf") (js "now")
         emptyWorld)
  = Thrown PushIsNotAFunction.
Proof.
  refine (proj1 (proj2 (createSearchIndex_inherited_word basicLatin constructorPdf
            (js "c.pdf") (js "now") emptyWorld
            (extractTextWithPdfReader (readerRun constructorPdf)) _) _)).
  - vm_compute. reflexivity.
  - vm_compute. reflexivity.
Defined.

(** ** The result an extraction uses *)

Section Built.
Context {rt : Runtime}.

Lemma createSearchIndex_throws (fullText : jsstring) (chunks : list Chunk) :
  createSearchIndex fullText chunks = None <-> hasInheritedWord chunks = true.
Proof.
  unfold createSearchIndex. pose proof (createSearchIndex_fold chunks ∅) as Hfold.
  destruct (hasInheritedWord chunks); [by split |].
  destruct Hfold as (index' & -> & _). by split.
Qed.

(** The outcome of an extraction is built from the result it selects. *)
Lemma comprehensiveExtractPDF_builtFrom (pdf : PdfFile) (chapterName now : jsstring)
    (w : World) (e : Extraction) :
  fst (selectExtraction pdf w) = ResObject e ->
  builtFrom e chapterName now w (fst (comprehensiveExtractPDF (Some pdf) chapterName now w)).
Proof.
  intros Hsel. unfold builtFrom, comprehensiveExtractPDF.
  destruct (selectExtraction_files rt pdf w) as [_ Hwrite].
  destruct (selectExtraction pdf w) as [r w1]. cbn [fst snd] in Hsel, Hwrite. subst r.
  cbv zeta.
  set (chunks := createPageAwareChunks (exText e) (pageData e) (totalPages e)).
  pose proof (createSearchIndex_throws (exText e) chunks) as Hthrows.
  destruct (hasInheritedWord chunks).
  - by rewrite (proj2 Hthrows eq_refl).
  - destruct (createSearchIndex (exText e) chunks) as [index |] eqn:Hindex;
      [| discriminate (proj1 Hthrows eq_refl)].
    unfold writeCache. rewrite Hwrite.
    destruct (writeFile w (cacheFile chapterName)); cbn [fst]; [| done | done].
    by exists index.
Qed.

Lemma comprehensiveExtractPDF_calls (pdf : PdfFile) (chapterName now : jsstring) (w : World) :
  callsOf w (comprehensiveExtractPDF (Some pdf) chapterName now w)
  = callsOf w (selectExtraction pdf w).
Proof.
  unfold callsOf, comprehensiveExtractPDF.
  destruct (selectExtraction pdf w) as [[e | s] w1]; [| reflexivity].
  destruct (createSearchIndex _ _); [| reflexivity].
  unfold writeCache. by destruct (writeFile w1 _).
Qed.

Lemma selectExtraction_calls (pdf : PdfFile) (w : World) :
  callsOf w (selectExtraction pdf w)
  = PdfReaderMethod ::
      (if bool_decide (exText (primaryResult pdf) = [])
          || (jslen (exText (primaryResult pdf)) <? 100)%Z
       then [PDF2JSONMethod] else []).
Proof.
  unfold callsOf. rewrite selectExtraction_cases.
  destruct (bool_decide _ || _); simpl.
  - by rewrite <- app_assoc, drop_app_length.
  - by rewrite drop_app_length.
Qed.

End Built.

(** C7. [comprehensiveExtractPDF] calls the primary method first, and the
    secondary one exactly when the primary text is empty or shorter than
    100 characters.  With a primary text of 100 characters or more only the
    primary method is called and the outcome is built from the primary
    result: the record made of it, unless indexing or the write of the cache
    file throws.  With a shorter primary text the secondary method is
    called after the primary one and the outcome is built from what it
    resolves to. *)
Theorem comprehensiveExtractPDF_fallback (rt : Runtime) (pdf : PdfFile)
    (chapterName now : jsstring) (w : World) :
  callsOf w (comprehensiveExtractPDF (Some pdf) chapterName now w)
  = PdfReaderMethod ::
      (if bool_decide (exText (primaryResult pdf) = [])
          || (jslen (exText (primaryResult pdf)) <? 100)%Z
       then [PDF2JSONMethod] else [])
  /\ ((100 <= jslen (exText (primaryResult pdf)))%Z ->
      callsOf w (comprehensiveExtractPDF (Some pdf) chapterName now w) = [PdfReaderMethod]
      /\ builtFrom (primaryResult pdf) chapterName now w
           (fst (comprehensiveExtractPDF (Some pdf) chapterName now w)))
  /\ ((jslen (exText (primaryResult pdf)) < 100)%Z ->
      callsOf w (comprehensiveExtractPDF (Some pdf) chapterName now w)
      = [PdfReaderMethod; PDF2JSONMethod]
      /\ match extractTextWithPDF2JSON (pdf2jsonRun pdf) with
         | ResObject e =>
             builtFrom e chapterName now w
               (fst (comprehensiveExtractPDF (Some pdf) chapterName now w))
         | ResString _ =>
             fst (comprehensiveExtractPDF (Some pdf) chapterName now w)
             = Thrown LengthOfUndefined
         end).
Proof.
  rewrite comprehensiveExtractPDF_calls, selectExtraction_calls.
  split; [reflexivity |]. split.
  - intros Hlong.
    assert (Hno : bool_decide (exText (primaryResult pdf) = [])
                  || (jslen (exText (primaryResult pdf)) <? 100)%Z = false).
    { apply orb_false_intro.
      - apply bool_decide_eq_false_2. intros Heq. rewrite Heq in Hlong.
        unfold jslen in Hlong. simpl in Hlong. lia.
      - apply Z.ltb_ge. exact Hlong. }
    rewrite Hno. split; [reflexivity |].
    apply comprehensiveExtractPDF_builtFrom. by rewrite selectExtraction_cases, Hno.
  - intros Hshort. apply Z.ltb_lt in Hshort. rewrite Hshort, orb_true_r.
    split; [reflexivity |].
    destruct (extractTextWithPDF2JSON (pdf2jsonRun pdf)) as [e | s] eqn:Hsecond.
    + apply comprehensiveExtractPDF_builtFrom.
      by rewrite selectExtraction_cases, Hshort, orb_true_r.
    + unfold comprehensiveExtractPDF.
      by rewrite selectExtraction_cases, Hshort, orb_true_r, Hsecond.
Qed.

(** A file with a primary text of 120 characters, of which the record is
    made, and a file that no parser reads. *)
Lemma comprehensiveExtractPDF_fallback_witness :
  (callsOf emptyWorld
     (@comprehensiveExtractPDF basicLatin (Some onePagePdf) (js "a.pdf") (js "now") emptyWorld)
   = [PdfReaderMethod]
   /\ @builtFrom basicLatin (primaryResult onePagePdf) (js "a.pdf") (js "now") emptyWorld
        (fst (@comprehensiveExtractPDF basicLatin (Some onePagePdf) (js "a.pdf") (js "now")
                emptyWorld)))
  /\ callsOf emptyWorld
       (@comprehensiveExtractPDF basicLatin (Some unparsablePdf) (js "a.pdf") (js "now")
          emptyWorld)
     = [PdfReaderMethod; PDF2JSONMethod].
Proof.
  split.
  - apply (proj1 (proj2 (comprehensiveExtractPDF_fallback basicLatin onePagePdf
                           (js "a.pdf") (js "now") emptyWorld))).
    vm_compute. discriminate.
  - apply (proj2 (proj2 (comprehensiveExtractPDF_fallback basicLatin unparsablePdf
                           (js "a.pdf") (js "now") emptyWorld))).
    vm_compute. reflexivity.
Defined.

(** The three outcomes of an extraction that uses the primary result: the
    record, the error of the index and the error of the write. *)
Example comprehensiveExtractPDF_outcomes :
  match fst (@comprehensiveExtractPDF basicLatin (Some onePagePdf) (js "a.pdf") (js "now")
               emptyWorld) with
  | Returned content => contentText content = exText (primaryResult onePagePdf)
  | Thrown _ => False
  end
  /\ fst (@comprehensiveExtractPDF basicLatin (Some constructorPdf) (js "a.pdf") (js "now")
            emptyWorld)
     = Thrown PushIsNotAFunction
  /\ @comprehensiveExtractPDF basicLatin (Some onePagePdf) (js "a.pdf") (js "now")
       noCacheDirWorld
     = (Thrown WriteFileFailed, invoke PdfReaderMethod noCacheDirWorld).
Proof.
  split; [| split]; vm_compute; reflexivity.
Qed.

(** ** What the extraction methods return *)

(** One callback of [PdfReader]: keys are only added, for the page the item
    announces and for the current page. *)
Lemma onReaderItem_keys (m : gmap Z jsstring) (c : Z) (item : ReaderItem) :
  (forall k, is_Some ((onReaderItem (m, c) item).1 !! k) ->
     is_Some (m !! k) \/ k = c \/ (itemPage item = Some k /\ k <> 0%Z))
  /\ (forall k, is_Some (m !! k) -> is_Some ((onReaderItem (m, c) item).1 !! k))
  /\ (forall p, itemPage item = Some p -> p <> 0%Z ->
        is_Some ((onReaderItem (m, c) item).1 !! p))
  /\ ((onReaderItem (m, c) item).2 = c
      \/ (itemPage item = Some (onReaderItem (m, c) item).2
          /\ (onReaderItem (m, c) item).2 <> 0%Z)).
Proof.
  unfold onReaderItem.
  set (st1 := match itemPage item with
              | Some p =>
                  if (p =? 0)%Z then (m, c)
                  else (match m !! p with
                        | Some (_ :: _) => m
                        | _ => <[p := []]> m
                        end, p)
              | None => (m, c)
              end).
  assert (H1 : (forall k, is_Some (st1.1 !! k) ->
                  is_Some (m !! k) \/ (itemPage item = Some k /\ k <> 0%Z))
               /\ (forall k, is_Some (m !! k) -> is_Some (st1.1 !! k))
               /\ (forall p, itemPage item = Some p -> p <> 0%Z -> is_Some (st1.1 !! p))
               /\ (st1.2 = c \/ (itemPage item = Some st1.2 /\ st1.2 <> 0%Z))).
  { subst st1. destruct (itemPage item) as [p |]; [| by repeat split; auto].
    destruct (p =? 0)%Z eqn:Hp0.
    - apply Z.eqb_eq in Hp0. repeat split; auto. intros q [= <-]. done.
    - apply Z.eqb_neq in Hp0. simpl.
      assert (Hins : forall k, is_Some (<[p := []]> m !! k) <-> k = p \/ is_Some (m !! k)).
      { intros k. destruct (decide (k = p)) as [-> | Hk].
        - rewrite lookup_insert_eq. split; eauto.
        - rewrite lookup_insert_ne by done. split; [auto | by intros [? | ?]]. }
      destruct (m !! p) as [[| d t] |] eqn:Hmp; simpl.
      + split; [| split; [| split]]; [| | | by right].
        * intros k Hk. apply Hins in Hk as [-> | Hk]; auto.
        * intros k Hk. apply Hins. auto.
        * intros q [= <-] _. apply Hins. auto.
      + split; [| split; [| split]]; [auto | auto | | by right].
        intros q [= <-] _. rewrite Hmp. eauto.
      + split; [| split; [| split]]; [| | | by right].
        * intros k Hk. apply Hins in Hk as [-> | Hk]; auto.
        * intros k Hk. apply Hins. auto.
        * intros q [= <-] _. apply Hins. auto. }
  destruct st1 as [m1 c1]. simpl in H1. destruct H1 as (Hk1 & Hmono1 & Hp1 & Hc1).
  destruct (itemText item) as [[| d t] |]; simpl.
  - split; [| split; [| split]]; [| auto | auto | exact Hc1].
    intros k Hk. apply Hk1 in Hk as [? | ?]; auto.
  - assert (Hins : forall k v, is_Some (<[c1 := v]> m1 !! k) <-> k = c1 \/ is_Some (m1 !! k)).
    { intros k v. destruct (decide (k = c1)) as [-> | Hk].
      - rewrite lookup_insert_eq. split; eauto.
      - rewrite lookup_insert_ne by done. split; [auto | by intros [? | ?]]. }
    split; [| split; [| split]]; [| | | exact Hc1].
    + intros k Hk. apply Hins in Hk as [-> | Hk].
      * destruct Hc1 as [-> | ?]; auto.
      * apply Hk1 in Hk as [? | ?]; auto.
    + intros k Hk. apply Hins. auto.
    + intros q Hq Hq0. apply Hins. auto.
  - split; [| split; [| split]]; [| auto | auto | exact Hc1].
    intros k Hk. apply Hk1 in Hk as [? | ?]; auto.
Qed.

Lemma readerItems_keys (items : list ReaderItem) : forall (m : gmap Z jsstring) (c : Z),
  (forall k, is_Some ((fold_left onReaderItem items (m, c)).1 !! k) ->
     is_Some (m !! k) \/ k = c
     \/ exists item, In item items /\ itemPage item = Some k /\ k <> 0%Z)
  /\ (forall k, is_Some (m !! k) -> is_Some ((fold_left onReaderItem items (m, c)).1 !! k))
  /\ (forall item p, In item items -> itemPage item = Some p -> p <> 0%Z ->
        is_Some ((fold_left onReaderItem items (m, c)).1 !! p)).
Proof.
  induction items as [| item items IH]; intros m c; cbn [fold_left].
  - simpl. split; [auto |]. split; [auto |]. by intros ? ? [].
  - destruct (onReaderItem_keys m c item) as (Hk & Hmono & Hp & Hc).
    destruct (onReaderItem (m, c) item) as [m1 c1] eqn:Hst. cbn [fst snd] in *.
    destruct (IH m1 c1) as (IHk & IHmono & IHp).
    split; [| split].
    + intros k Hin. apply IHk in Hin as [Hin | [-> | (it & Hit & Hpage & Hk0)]].
      * apply Hk in Hin as [? | [? | [? ?]]]; [by left | by right; left |].
        right; right. exists item. split; [by left | done].
      * destruct Hc as [-> | [? ?]]; [by right; left |].
        right; right. exists item. split; [by left | done].
      * right; right. exists it. split; [by right | done].
    + intros k Hin. apply IHmono, Hmono, Hin.
    + intros it p [<- | Hit] Hpage Hp0.
      * apply IHmono. by apply Hp.
      * by eapply IHp.
Qed.

(** X6. At the end of the document [extractTextWithPdfReader] returns a
    text without whitespace at either end; the pages of its page map are the
    non-zero page numbers the items announced, with or without text, and
    page 0 for text that came before any page; [totalPages] is their number;
    and the character map built from the result gives every character of
    the text a page. *)
Theorem extractTextWithPdfReader_result (run : ReaderRun) :
  readerEnd run = EndOfDocument ->
  edgesClean (exText (extractTextWithPdfReader run))
  /\ totalPages (extractTextWithPdfReader run)
     = Some (Z.of_nat (size (pageData (extractTextWithPdfReader run))))
  /\ (forall p, is_Some (pageData (extractTextWithPdfReader run) !! p) ->
        p = 0%Z \/ exists item, In item (readerItems run) /\ itemPage item = Some p)
  /\ (forall item p, In item (readerItems run) -> itemPage item = Some p -> p <> 0%Z ->
        is_Some (pageData (extractTextWithPdfReader run) !! p))
  /\ (forall k,
        is_Some (createCharToPageMap (exText (extractTextWithPdfReader run))
                   (pageData (extractTextWithPdfReader run)) !! k)
        <-> (0 <= k < jslen (exText (extractTextWithPdfReader run)))%Z).
Proof.
  intros Hend. unfold extractTextWithPdfReader. rewrite Hend.
  cbn [exText pageData totalPages].
  set (pageText := (fold_left onReaderItem (readerItems run) (∅, 0%Z)).1).
  destruct (readerItems_keys (readerItems run) ∅ 0%Z) as (Hk & _ & Hp).
  fold pageText in Hk, Hp.
  split; [apply trim_edgesClean |]. split; [by rewrite sortedPages_length |].
  split; [| split; [exact Hp |]].
  - intros p Hin. apply Hk in Hin as [[? Hin] | [-> | (item & ? & ? & ?)]]; eauto.
    by rewrite lookup_empty in Hin.
  - intros k. rewrite (createCharToPageMap_domain _ pageText k).
    assert (jslen (trim (join [10%N] (List.map (fun page => default [] (pageText !! page))
                                      (sortedPages pageText))))
            <= capacity pageText (sortedPages pageText))%Z
      by (etransitivity; [apply trim_shorter | apply join_capacity]).
    lia.
Qed.

Lemma extractTextWithPdfReader_result_witness :
  totalPages (extractTextWithPdfReader pagesFiveAndSeven) = Some 2%Z
  /\ is_Some (createCharToPageMap (exText (extractTextWithPdfReader pagesFiveAndSeven))
                (pageData (extractTextWithPdfReader pagesFiveAndSeven)) !! 5%Z).
Proof.
  destruct (extractTextWithPdfReader_result pagesFiveAndSeven eq_refl)
    as (_ & Htotal & _ & _ & Hmap).
  split.
  - rewrite Htotal. vm_compute. reflexivity.
  - apply Hmap. vm_compute. split; [discriminate | reflexivity].
Defined.

(** The loop over the pages of [pdf2json]: page [k] (from 0) is stored,
    trimmed, under the number that follows the running index, and the pages
    are strung together with a line break after each. *)
Lemma onPage_fold (rt : Runtime) (pages : list Page) :
  forall (fullText : jsstring) (pd : gmap Z jsstring) (i : Z),
  exists pd',
    fold_left onPage pages (fullText, pd, i)
    = (fullText ++ List.concat (List.map (fun page => pageTextOf page ++ [10]) pages),
       pd', (i + Z.of_nat (List.length pages))%Z)
    /\ (forall k page, pages !! k = Some page ->
          pd' !! (i + Z.of_nat k + 1)%Z = Some (trim (pageTextOf page)))
    /\ (forall p, ~ (i < p <= i + Z.of_nat (List.length pages))%Z -> pd' !! p = pd !! p).
Proof.
  induction pages as [| page pages IH]; intros fullText pd i.
  - exists pd. simpl. rewrite app_nil_r, Z.add_0_r. split; [reflexivity |].
    split; [| reflexivity]. intros k page Hk. by rewrite lookup_nil in Hk.
  - cbn [fold_left]. unfold onPage at 2.
    destruct (IH (fullText ++ pageTextOf page ++ [10])
                (<[(i + 1)%Z := trim (pageTextOf page)]> pd) (i + 1)%Z)
      as (pd' & Hfold & Hpages & Hrest).
    exists pd'. split; [| split].
    + rewrite Hfold. cbn [List.map List.concat List.length]. f_equal; [f_equal |].
      * by rewrite <- !app_assoc.
      * lia.
    + intros [| k] p Hk; cbn [lookup list_lookup] in Hk.
      * injection Hk as ->. rewrite Hrest by lia.
        replace (i + Z.of_nat 0 + 1)%Z with (i + 1)%Z by lia. apply lookup_insert_eq.
      * replace (i + Z.of_nat (S k) + 1)%Z with (i + 1 + Z.of_nat k + 1)%Z by lia.
        by apply Hpages.
    + intros p Hp. cbn [List.length] in Hp. rewrite Hrest by lia.
      apply lookup_insert_ne. lia.
Qed.

(** X7. On the data of a parsed document [extractTextWithPDF2JSON] returns
    an object: its text is the reconstruction of the page texts, each
    followed by a line break; its page map holds page [k + 1] for the
    [k]-th page of the document, with the page text trimmed, and no other
    page; [totalPages] is the number of pages of the document. *)
Theorem extractTextWithPDF2JSON_pages (rt : Runtime) (pages : list Page) :
  exists e,
    extractTextWithPDF2JSON (DataReady (Pages pages)) = ResObject e
    /\ exText e
       = reconstructText (List.concat (List.map (fun page => pageTextOf page ++ [10]) pages))
    /\ totalPages e = Some (Z.of_nat (List.length pages))
    /\ (forall k page, pages !! k = Some page ->
          pageData e !! (Z.of_nat k + 1)%Z = Some (trim (pageTextOf page)))
    /\ (forall p, is_Some (pageData e !! p) <-> (1 <= p <= Z.of_nat (List.length pages))%Z).
Proof.
  cbn [extractTextWithPDF2JSON].
  destruct (onPage_fold rt pages [] ∅ 0%Z) as (pd & Hfold & Hpages & Hrest).
  pose proof (onPage_pagesSeen rt pages 0 ([], ∅, 0%Z)) as Hseen.
  rewrite Hfold in *. destruct Hseen as (_ & Hdom & Hsize & _).
  { split; [done |]. split; [| split]; [| apply map_size_empty | done].
    intros p. rewrite lookup_empty. split; [by intros [? ?] | simpl; lia]. }
  eexists. split; [reflexivity |]. cbn [exText pageData totalPages].
  split; [reflexivity |]. split; [by rewrite Hsize |]. split.
  - intros k page Hk. by rewrite <- (Hpages k page Hk).
  - intros p. rewrite Hdom. simpl. lia.
Qed.

(** ** The cache *)

(** X8. After an extraction that returns, the cache gives the returned
    record back under the chapter name, and under every name that
    [path.join] resolves to the same cache file (the same file name in
    another book, the name with [.json] for [.pdf], the name behind [./]);
    the cache files at other paths are as before. *)
Theorem cache_round_trip (rt : Runtime) (file : option PdfFile) (chapter now : jsstring)
    (w w' : World) (content : ExtractedContent) :
  comprehensiveExtractPDF file chapter now w = (Returned content, w') ->
  getCachedContent w' chapter = Some content
  /\ chapterName content = chapter
  /\ (forall other, cacheFile other = cacheFile chapter ->
        getCachedContent w' other = Some content)
  /\ (forall other, cacheFile other <> cacheFile chapter ->
        getCachedContent w' other = getCachedContent w other).
Proof.
  intros Hrun.
  pose proof (comprehensiveExtractPDF_files rt file chapter now w) as [_ Hfiles].
  rewrite Hrun in Hfiles. simpl in Hfiles. destruct Hfiles as [_ Hfiles].
  assert (Hname : chapterName content = chapter).
  { revert Hrun. unfold comprehensiveExtractPDF. destruct file as [pdf |]; [| discriminate].
    destruct (selectExtraction pdf w) as [[e | s] w1]; [| discriminate].
    destruct (createSearchIndex _ _) as [index |]; [| discriminate].
    destruct (writeCache _ _ _) as [[|] w2]; [| discriminate].
    by intros [= <- _]. }
  unfold getCachedContent. rewrite Hfiles.
  split; [apply lookup_insert_eq |]. split; [exact Hname |]. split.
  - intros other ->. apply lookup_insert_eq.
  - intros other Hne. by rewrite lookup_insert_ne by (by intros Heq; apply Hne).
Qed.

(** The paths of some cache files for the server installed at
    [/srv/climbmcp]: a name behind [./] and a name through a directory and
    back are the file of the plain name; a name in a directory is not. *)
Example cacheFile_paths :
  @cacheFile basicLatin (js "a.pdf") = js "/srv/climbmcp/extracted_content/a.json"
  /\ @cacheFile basicLatin (js "./a.pdf") = @cacheFile basicLatin (js "a.pdf")
  /\ @cacheFile basicLatin (js "sub/../a.json") = @cacheFile basicLatin (js "a.pdf")
  /\ @cacheFile basicLatin (js "sub/a.pdf") = js "/srv/climbmcp/extracted_content/sub/a.json"
  /\ @cacheFile basicLatin (js "../a.pdf") = js "/srv/climbmcp/a.json"
  /\ @cacheFile basicLatin (js "../../../../a.pdf") = js "/a.json"
  /\ @cacheFile basicLatin (js "a.pdf/") = js "/srv/climbmcp/extracted_content/a.json/"
  /\ @cacheFile basicLatin (js "..") = js "/srv/climbmcp"
  /\ @cacheFile basicLatin [] = js "/srv/climbmcp/extracted_content".
Proof. vm_compute. repeat split; reflexivity. Qed.

(** After ['a.pdf'] is extracted, ['./a.pdf'] reads its record. *)
Lemma cache_round_trip_witness :
  exists content,
    @getCachedContent basicLatin
      (snd (@comprehensiveExtractPDF basicLatin (Some onePagePdf) (js "a.pdf") (js "now")
              emptyWorld))
      (js "./a.pdf")
    = Some content.
Proof.
  destruct (@comprehensiveExtractPDF basicLatin (Some onePagePdf) (js "a.pdf") (js "now")
              emptyWorld) as [[content | err] w'] eqn:Hrun.
  - exists content.
    apply (proj1 (proj2 (proj2 (cache_round_trip basicLatin (Some onePagePdf) (js "a.pdf")
                                  (js "now") emptyWorld w' content Hrun)))).
    vm_compute. reflexivity.
  - exfalso.
    apply (f_equal (fun run => match fst run with
                               | Returned _ => true
                               | Thrown _ => false
                               end)) in Hrun.
    vm_compute in Hrun. discriminate.
Defined.

(** X9. An extraction that throws before it writes the cache file (the
    file cannot be read, the result has no text to measure, a word names an
    inherited property) leaves the cache as it was.  One that throws at the
    write leaves the cache files at every other path as they were; the
    chapter's own cache file is as it was when the write failed before the
    file was opened, and can no longer be read when it failed after. *)
Theorem failed_extraction_keeps_cache (rt : Runtime) (file : option PdfFile)
    (chapter now : jsstring) (w : World) (error : Failure) :
  fst (comprehensiveExtractPDF file chapter now w) = Thrown error ->
  (error <> WriteFileFailed ->
   extracted (snd (comprehensiveExtractPDF file chapter now w)) = extracted w)
  /\ (forall other, cacheFile other <> cacheFile chapter ->
        getCachedContent (snd (comprehensiveExtractPDF file chapter now w)) other
        = getCachedContent w other)
  /\ (error = WriteFileFailed ->
      match writeFile w (cacheFile chapter) with
      | Written => False
      | NotOpened =>
          extracted (snd (comprehensiveExtractPDF file chapter now w)) = extracted w
      | Truncated =>
          getCachedContent (snd (comprehensiveExtractPDF file chapter now w)) chapter = None
      end).
Proof.
  intros Hthrown.
  pose proof (comprehensiveExtractPDF_files rt file chapter now w) as [_ Hfiles].
  rewrite Hthrown in Hfiles. unfold getCachedContent.
  split; [| split].
  - intros Hne. by destruct error.
  - intros other Hother. destruct error; try by rewrite Hfiles.
    destruct (writeFile w (cacheFile chapter)); [done | by rewrite Hfiles |].
    rewrite Hfiles. by apply lookup_delete_ne.
  - intros ->. destruct (writeFile w (cacheFile chapter)); [done | done |].
    rewrite Hfiles. apply lookup_delete_eq.
Qed.

(** On a full disk the extraction of a readable file throws at the write,
    and the record that was cached for the chapter is lost. *)
Lemma failed_extraction_keeps_cache_witness :
  @getCachedContent basicLatin fullDiskWorld (js "ropes.pdf") = Some ropeChapter
  /\ @getCachedContent basicLatin
       (snd (@comprehensiveExtractPDF basicLatin (Some onePagePdf) (js "ropes.pdf")
               (js "now") fullDiskWorld))
       (js "ropes.pdf")
     = None.
Proof.
  split; [vm_compute; reflexivity |].
  assert (Hthrown : fst (@comprehensiveExtractPDF basicLatin (Some onePagePdf)
                           (js "ropes.pdf") (js "now") fullDiskWorld)
                    = Thrown WriteFileFailed) by (vm_compute; reflexivity).
  exact (proj2 (proj2 (failed_extraction_keeps_cache basicLatin (Some onePagePdf)
                         (js "ropes.pdf") (js "now") fullDiskWorld WriteFileFailed Hthrown))
           eq_refl).
Defined.

(** ** The query engine *)

Section Query.
Context {rt : Runtime}.

Lemma fold_left_grows {A} (f : Z -> A -> Z) (l : list A) :
  (forall acc x, (acc <= f acc x)%Z) -> forall acc, (acc <= fold_left f l acc)%Z.
Proof.
  intros Hf. induction l as [| x l IH]; intros acc; simpl; [lia |].
  specialize (IH (f acc x)). specialize (Hf acc x). lia.
Qed.

Lemma fold_left_same {A} (f : Z -> A -> Z) (l : list A) :
  (forall acc x, f acc x = acc) -> forall acc, fold_left f l acc = acc.
Proof.
  intros Hf. induction l as [| x l IH]; intros acc; simpl; [done |].
  by rewrite Hf.
Qed.

Lemma fold_left_member {A} (f : Z -> A -> Z) (n : Z) (l : list A) (x0 : A) :
  (forall acc x, (acc <= f acc x)%Z) ->
  (forall acc, (acc + n <= f acc x0)%Z) ->
  In x0 l -> forall acc, (acc + n <= fold_left f l acc)%Z.
Proof.
  intros Hf Hx0. induction l as [| x l IH]; intros Hin acc; [done |]. simpl.
  destruct Hin as [-> | Hin].
  - pose proof (fold_left_grows f l Hf (f acc x0)). specialize (Hx0 acc). lia.
  - specialize (IH Hin (f acc x)). specialize (Hf acc x). lia.
Qed.

Lemma scoreMetadata_nonneg (queryWords : list jsstring) (m : Metadata) :
  (0 <= scoreMetadata queryWords m)%Z.
Proof.
  unfold scoreMetadata. cbv zeta.
  assert (Hbonus : forall (test : jsstring -> bool) (n : Z), (0 <= n)%Z ->
            forall acc, (acc <= fold_left (fun acc queryWord =>
                                  if test queryWord then acc + n else acc) queryWords acc)%Z).
  { intros test n Hn. apply fold_left_grows. intros acc x. destruct (test x); lia. }
  set (s1 := match keywords m with Some _ => _ | None => _ end).
  assert (H1 : (0 <= s1)%Z).
  { subst s1. destruct (keywords m) as [kws |]; [| lia].
    apply fold_left_grows. intros acc keyword. apply (Hbonus _ 50%Z). lia. }
  set (s2 := match title m with Some _ => _ | None => _ end).
  assert (H2 : (s1 <= s2)%Z).
  { subst s2. destruct (title m) as [t |]; [| lia]. apply (Hbonus _ 30%Z). lia. }
  destruct (description m) as [d |]; [| lia].
  apply (Z.le_trans _ s2); [lia |]. apply (Hbonus _ 20%Z). lia.
Qed.

Lemma scoreMetadata_no_word (m : Metadata) : scoreMetadata [] m = 0%Z.
Proof.
  unfold scoreMetadata. destruct (keywords m) as [kws |], (title m), (description m); simpl;
    try reflexivity; by apply fold_left_same.
Qed.

Lemma chapterRelevance_file (lib : Library) (queryWords : list jsstring) (bookDir f : jsstring) :
  file (chapterRelevance lib queryWords bookDir f) = f.
Proof. unfold chapterRelevance. by destruct (metadataFile lib bookDir _). Qed.

Lemma chapterRelevance_nonneg (lib : Library) (queryWords : list jsstring)
    (bookDir f : jsstring) :
  (0 <= metadataScore (chapterRelevance lib queryWords bookDir f))%Z.
Proof.
  unfold chapterRelevance. destruct (metadataFile lib bookDir _) as [m |]; simpl; [| lia].
  apply scoreMetadata_nonneg.
Qed.

Lemma chapterRelevance_no_word (lib : Library) (bookDir f : jsstring) :
  metadataScore (chapterRelevance lib [] bookDir f) = 0%Z.
Proof.
  unfold chapterRelevance. destruct (metadataFile lib bookDir _) as [m |]; simpl; [| done].
  apply scoreMetadata_no_word.
Qed.

(** Where [includes] finds the word, the global pattern made of the word has
    a match. *)
Lemma includes_countMatches (s p : jsstring) :
  includes s p = true -> (1 <= countMatches (literal p) s)%nat.
Proof.
  unfold includes, indexOf, countMatches, scan. generalize 0%Z as i.
  induction s as [| c s IH]; intros i; cbn [indexOfFrom scanGo]; rewrite matchHere_literal.
  - destruct (startsWith p []); [simpl; lia | discriminate].
  - destruct (startsWith p (c :: s)).
    + intros _. destruct (_ - _)%nat; simpl; lia.
    + intros Hfound. cbn [List.filter isHit]. by apply (IH (i + 1)%Z).
Qed.

(** A chunk that passes the filter has a score of ten at least above the
    metadata score. *)
Lemma scoreChunk_relevant (queryWords : list jsstring) (metadataScore : Z) (chunk : Chunk) :
  chunkIsRelevant queryWords chunk = true ->
  (metadataScore + 10 <= scoreChunk queryWords metadataScore chunk)%Z.
Proof.
  unfold chunkIsRelevant, scoreChunk. intros Hrel.
  set (byWord := fun (score : Z) (word : jsstring) =>
         (score + Z.of_nat (countMatches (literal word) (toLowerCase (text chunk))) * 10)%Z).
  set (byTopic := fun (score : Z) (topic : jsstring) =>
         if inWords (toLowerCase topic) queryWords then (score + 20)%Z else score).
  assert (HbyWord : forall acc x, (acc <= byWord acc x)%Z) by (intros; unfold byWord; lia).
  assert (HbyTopic : forall acc x, (acc <= byTopic acc x)%Z).
  { intros acc x. unfold byTopic. destruct (inWords _ _); lia. }
  pose proof (fold_left_grows byWord queryWords HbyWord metadataScore) as Hwords.
  pose proof (fold_left_grows byTopic (topics chunk) HbyTopic
                (fold_left byWord queryWords metadataScore)) as Htopics.
  apply orb_prop in Hrel as [Hword | Htopic].
  - apply existsb_exists in Hword as (word & Hin & Hinc).
    apply includes_countMatches in Hinc.
    pose proof (fold_left_member byWord 10 queryWords word HbyWord
                  ltac:(intros acc; unfold byWord; lia) Hin metadataScore).
    lia.
  - apply existsb_exists in Htopic as (topic & Hin & Hinc).
    pose proof (fold_left_member byTopic 20 (topics chunk) topic HbyTopic
                  ltac:(intros acc; unfold byTopic; rewrite Hinc; lia) Hin
                  (fold_left byWord queryWords metadataScore)).
    lia.
Qed.

(** The scored matches of a chapter: its relevant chunks with their scores,
    or the placeholder alone. *)
Lemma scoredMatchesOf_cases (queryWords : list jsstring) (c : ChapterRelevance)
    (cached : ExtractedContent) (m : ScoredMatch) :
  In m (scoredMatchesOf queryWords c cached) ->
  (exists chunk, In chunk (textChunks cached)
                 /\ chunkIsRelevant queryWords chunk = true
                 /\ m = scored queryWords (metadataScore c) chunk)
  \/ (m = placeholderMatch (metadataScore c) (metadata c)
      /\ scoredMatchesOf queryWords c cached = [m]
      /\ (50 <= metadataScore c)%Z).
Proof.
  unfold scoredMatchesOf. destruct (_ || _); [| done].
  pose proof (jsSort_perm score
                (List.map (scored queryWords (metadataScore c))
                   (List.filter (chunkIsRelevant queryWords) (textChunks cached)))) as Hperm.
  change (descendingBy score) with byScoreDescending in Hperm.
  destruct (jsSort byScoreDescending _) as [| m0 l] eqn:Hsorted.
  - destruct (50 <=? metadataScore c)%Z eqn:Hfifty; [| done].
    intros [<- | []]. right. apply Z.leb_le in Hfifty. by repeat split.
  - intros Hin. left. apply list_elem_of_In in Hin. rewrite Hperm in Hin.
    apply list_elem_of_In, in_map_iff in Hin as (chunk & <- & Hchunk).
    apply filter_In in Hchunk as [Hchunk Hrel]. by exists chunk.
Qed.

Lemma searchChapter_spec (w : World) (queryWords : list jsstring) (bookDir : jsstring)
    (c : ChapterRelevance) (r : SearchResult) :
  In r (searchChapter w queryWords bookDir c)
  <-> exists cached,
        getCachedContent w (file c) = Some cached
        /\ scoredMatchesOf queryWords c cached <> []
        /\ r = chapterResult queryWords bookDir c cached.
Proof.
  unfold searchChapter, chapterResult.
  destruct (getCachedContent w (file c)) as [cached |].
  - destruct (scoredMatchesOf queryWords c cached) as [| m l] eqn:Hall.
    + split; [done |]. intros (cached' & [= <-] & Hne & _). by rewrite Hall in Hne.
    + split.
      * intros [<- | []]. exists cached. by rewrite Hall.
      * intros (cached' & [= <-] & _ & ->). rewrite Hall. by left.
  - split; [done |]. by intros (cached' & Hc & _).
Qed.

Lemma searchBook_spec (lib : Library) (w : World) (queryWords : list jsstring)
    (bookDir : jsstring) (files : list jsstring) (r : SearchResult) :
  In r (searchBook lib w queryWords (bookDir, Directory files))
  <-> exists f cached,
        In f files /\ isPdf f = true
        /\ getCachedContent w f = Some cached
        /\ scoredMatchesOf queryWords (chapterRelevance lib queryWords bookDir f) cached <> []
        /\ ((0 < metadataScore (chapterRelevance lib queryWords bookDir f))%Z
            \/ noMetadataMatch lib queryWords bookDir files)
        /\ r = chapterResult queryWords bookDir (chapterRelevance lib queryWords bookDir f)
                 cached.
Proof.
  cbn [searchBook].
  set (pdfFiles := List.filter (fun f => endsWith (toLowerCase f) (js ".pdf")) files).
  pose proof (jsSort_perm metadataScore
                (List.map (chapterRelevance lib queryWords bookDir) pdfFiles)) as Hperm.
  change (descendingBy metadataScore)
    with (fun a b : ChapterRelevance => (metadataScore b - metadataScore a)%Z) in Hperm.
  set (sorted := jsSort _ _) in *.
  assert (Hsorted : forall c, In c sorted
            <-> exists f, In f files /\ isPdf f = true
                          /\ c = chapterRelevance lib queryWords bookDir f).
  { intros c. rewrite <- list_elem_of_In, Hperm, list_elem_of_In, in_map_iff.
    split.
    - intros (f & <- & Hf). apply filter_In in Hf as [Hf Hpdf]. by exists f.
    - intros (f & Hf & Hpdf & ->). exists f. split; [done |]. by apply filter_In. }
  assert (Hnomatch : existsb (fun c => (0 <? metadataScore c)%Z) sorted = false
                  <-> noMetadataMatch lib queryWords bookDir files).
  { split.
    - intros Hnone f Hf Hpdf.
      destruct (Z.ltb_spec 0 (metadataScore (chapterRelevance lib queryWords bookDir f)))
        as [Hpos | Hle]; [| exact Hle].
      assert (Hex : existsb (fun c => (0 <? metadataScore c)%Z) sorted = true).
      { apply existsb_exists. exists (chapterRelevance lib queryWords bookDir f).
        split; [apply Hsorted; by exists f | by apply Z.ltb_lt]. }
      congruence.
    - intros Hnone. destruct (existsb _ sorted) eqn:Hex; [| done].
      apply existsb_exists in Hex as (c & Hc & Hpos).
      apply Hsorted in Hc as (f & Hf & Hpdf & ->). apply Z.ltb_lt in Hpos.
      specialize (Hnone f Hf Hpdf). lia. }
  rewrite in_concat. split.
  - intros (rs & Hrs & Hr). apply in_map_iff in Hrs as (c & <- & Hc).
    apply searchChapter_spec in Hr as (cached & Hcached & Hne & ->).
    assert (Hc' : In c sorted /\ ((0 < metadataScore c)%Z
                                  \/ noMetadataMatch lib queryWords bookDir files)).
    { destruct (existsb _ sorted) eqn:Hex.
      - apply filter_In in Hc as [Hc Hpos]. apply Z.ltb_lt in Hpos. auto.
      - split; [done |]. right. by apply Hnomatch. }
    destruct Hc' as [Hin Hway]. apply Hsorted in Hin as (f & Hf & Hpdf & ->).
    rewrite chapterRelevance_file in Hcached. by exists f, cached.
  - intros (f & cached & Hf & Hpdf & Hcached & Hne & Hway & ->).
    set (c := chapterRelevance lib queryWords bookDir f) in *.
    exists (searchChapter w queryWords bookDir c). split.
    + apply in_map. assert (Hc : In c sorted) by (apply Hsorted; by exists f).
      destruct (existsb _ sorted) eqn:Hex.
      * apply filter_In. split; [done |]. apply Z.ltb_lt.
        destruct Hway as [Hpos | Hnone]; [done |]. apply Hnomatch in Hnone. congruence.
      * done.
    + apply searchChapter_spec. exists cached. subst c.
      by rewrite chapterRelevance_file.
Qed.

Lemma searchResults_In (lib : Library) (w : World) (query : jsstring) (r : SearchResult) :
  In r (searchResults lib w query)
  <-> exists entry, In entry (bookDirs lib) /\ In r (searchBook lib w (wordsOf query) entry).
Proof.
  unfold searchResults.
  pose proof (jsSort_perm (fun r => maxScore (matches r))
                (List.concat (List.map (searchBook lib w (wordsOf query)) (bookDirs lib))))
    as Hperm.
  change (descendingBy _) with byBestMatchDescending in Hperm.
  rewrite <- list_elem_of_In, Hperm, list_elem_of_In, in_concat. split.
  - intros (rs & Hrs & Hr). apply in_map_iff in Hrs as (entry & <- & Hentry). by exists entry.
  - intros (entry & Hentry & Hr). exists (searchBook lib w (wordsOf query) entry).
    split; [by apply in_map | done].
Qed.

End Query.

(** X10. The chapters in the results of a search are exactly these: the PDF
    files of the book directories that have been extracted and have at least
    one scored match, and whose metadata score is positive unless no chapter
    of the same book has a positive one.  Each comes with its first two
    scored matches. *)
Theorem searchResults_chapters (rt : Runtime) (lib : Library) (w : World) (query : jsstring)
    (r : SearchResult) :
  In r (searchResults lib w query)
  <-> exists bookDir files f cached,
        In (bookDir, Directory files) (bookDirs lib)
        /\ In f files /\ isPdf f = true
        /\ getCachedContent w f = Some cached
        /\ scoredMatchesOf (wordsOf query)
             (chapterRelevance lib (wordsOf query) bookDir f) cached <> []
        /\ ((0 < metadataScore (chapterRelevance lib (wordsOf query) bookDir f))%Z
            \/ noMetadataMatch lib (wordsOf query) bookDir files)
        /\ r = chapterResult (wordsOf query) bookDir
                 (chapterRelevance lib (wordsOf query) bookDir f) cached.
Proof.
  rewrite searchResults_In. split.
  - intros ([bookDir [| files]] & Hentry & Hr); [done |].
    apply searchBook_spec in Hr as (f & cached & Hr). by exists bookDir, files, f, cached.
  - intros (bookDir & files & f & cached & Hentry & Hr).
    exists (bookDir, Directory files). split; [done |].
    apply searchBook_spec. by exists f, cached.
Qed.

(** X11. In every result of a search the metadata score is not negative and
    there are one or two matches.  A match made from a chunk passed the
    filter, carries the chunk's text and its score, which is ten at least
    above the metadata score of the chapter; the placeholder match stands
    alone, with the metadata score, which is then 50 at least. *)
Theorem searchResults_scores (rt : Runtime) (lib : Library) (w : World) (query : jsstring) :
  Forall (fun r =>
      (0 <= resultMetadataScore r)%Z
      /\ (1 <= List.length (matches r) <= 2)%nat
      /\ Forall (fun m =>
           match source m with
           | Some chunk =>
               chunkIsRelevant (wordsOf query) chunk = true
               /\ matchText m = text chunk
               /\ matchTopics m = topics chunk
               /\ score m = scoreChunk (wordsOf query) (resultMetadataScore r) chunk
               /\ (resultMetadataScore r + 10 <= score m)%Z
           | None =>
               matches r = [m]
               /\ score m = resultMetadataScore r
               /\ (50 <= score m)%Z
           end) (matches r))
    (searchResults lib w query).
Proof.
  apply List.Forall_forall. intros r Hr.
  apply searchResults_In in Hr as ([bookDir [| files]] & _ & Hr); [done |].
  apply searchBook_spec in Hr as (f & cached & _ & _ & _ & Hne & _ & ->).
  set (c := chapterRelevance lib (wordsOf query) bookDir f) in *.
  cbn [chapterResult resultMetadataScore matches].
  split; [apply chapterRelevance_nonneg |]. split.
  - rewrite length_firstn. destruct (scoredMatchesOf (wordsOf query) c cached); [done |].
    cbn [List.length]. lia.
  - apply List.Forall_forall. intros m Hm.
    assert (Hin : In m (scoredMatchesOf (wordsOf query) c cached)).
    { rewrite <- (firstn_skipn 2 (scoredMatchesOf _ _ _)). apply in_or_app. by left. }
    apply scoredMatchesOf_cases in Hin as [(chunk & _ & Hrel & ->) | (-> & Hall & Hfifty)].
    + cbn [scored source matchText matchTopics score].
      split; [done |]. split; [done |]. split; [done |]. split; [done |].
      by apply scoreChunk_relevant.
    + rewrite Hall. cbn [placeholderMatch source score firstn]. by repeat split.
Qed.

Section NoQueryWord.
Context {rt : Runtime}.

Lemma chunkIsRelevant_no_word (chunk : Chunk) : chunkIsRelevant [] chunk = false.
Proof.
  unfold chunkIsRelevant. cbn [existsb orb].
  induction (topics chunk) as [| topic l IH]; [done |]. exact IH.
Qed.

Lemma scoredMatchesOf_no_word (c : ChapterRelevance) (cached : ExtractedContent) :
  metadataScore c = 0%Z -> scoredMatchesOf [] c cached = [].
Proof.
  intros Hzero. unfold scoredMatchesOf.
  assert (Hnone : List.filter (chunkIsRelevant []) (textChunks cached) = []).
  { induction (textChunks cached) as [| chunk l IH]; [done |]. simpl.
    by rewrite chunkIsRelevant_no_word. }
  by rewrite Hnone, Hzero.
Qed.

End NoQueryWord.

(** X12. A query without a word of three characters or more finds nothing,
    whatever has been extracted and whatever the metadata say. *)
Theorem searchContent_no_query_word (rt : Runtime)
    (sectionHeading : Chunk -> option jsstring) (lib : Library) (w : World)
    (query : jsstring) (maxResults : Z) :
  wordsOf query = [] ->
  searchResults lib w query = []
  /\ searchContent sectionHeading lib w query maxResults = Some NoContentFound.
Proof.
  intros Hwords.
  assert (Hnone : searchResults lib w query = []).
  { destruct (searchResults lib w query) as [| r rs] eqn:Hres; [done |]. exfalso.
    assert (Hr : In r (searchResults lib w query)) by (rewrite Hres; by left).
    apply searchResults_In in Hr as ([bookDir [| files]] & _ & Hr); [done |].
    apply searchBook_spec in Hr as (f & cached & _ & _ & _ & Hne & _).
    apply Hne. rewrite Hwords. apply scoredMatchesOf_no_word, chapterRelevance_no_word. }
  split; [exact Hnone |]. unfold searchContent. by rewrite Hnone.
Qed.

Lemma searchContent_no_query_word_witness :
  @wordsOf basicLatin (js "to be") = []
  /\ @searchContent basicLatin (fun _ => None) fiveChapters fiveChaptersWorld (js "to be") 3
     = Some NoContentFound.
Proof.
  split; [vm_compute; reflexivity |].
  apply (searchContent_no_query_word basicLatin (fun _ => None) fiveChapters
           fiveChaptersWorld (js "to be") 3).
  vm_compute. reflexivity.
Defined.

Lemma bestMatchIndex_nonneg {rt : Runtime} (text : jsstring) (queryWords : list jsstring) :
  (0 <= bestMatchIndex text queryWords)%Z.
Proof.
  unfold bestMatchIndex.
  assert (Hgen : forall words b, (0 <= b)%Z ->
            (0 <= fold_left (fun bestMatch word =>
                     match indexOf (toLowerCase text) word with
                     | Some index =>
                         if (bestMatch =? 0)%Z || (index <? bestMatch)%Z
                         then index else bestMatch
                     | None => bestMatch
                     end) words b)%Z).
  { induction words as [| word rest IH]; intros b Hb; simpl; [exact Hb |].
    apply IH. destruct (indexOf (toLowerCase text) word) as [index |] eqn:Hidx; [| exact Hb].
    apply indexOfFrom_ge in Hidx. destruct (_ || _); lia. }
  apply Hgen. lia.
Qed.

(** X13. With the default window of 500 characters a snippet never has more
    than 506 code units, the two ellipses included, and never more than six
    above the length of the text it is cut from. *)
Theorem getContextSnippet_bounded (rt : Runtime) (text : jsstring)
    (queryWords : list jsstring) :
  (jslen (getContextSnippet text queryWords EXTRACTION_CONFIG_CONTEXT_WINDOW) <= 506)%Z
  /\ (jslen (getContextSnippet text queryWords EXTRACTION_CONFIG_CONTEXT_WINDOW)
      <= jslen text + 6)%Z.
Proof.
  unfold getContextSnippet, EXTRACTION_CONFIG_CONTEXT_WINDOW.
  change (500 / 2)%Z with 250%Z.
  pose proof (bestMatchIndex_nonneg text queryWords) as Hb.
  pose proof (jslen_nonneg text) as Hlen.
  assert (Hdots : forall b : bool, (0 <= jslen (if b then js "..." else []) <= 3)%Z).
  { intros []; vm_compute; split; discriminate. }
  destruct (bestMatchIndex text queryWords =? 0)%Z.
  - rewrite jslen_app, substring_length. unfold clampIndex.
    pose proof (Hdots (500 <? jslen text)%Z). lia.
  - rewrite !jslen_app, substring_length. unfold clampIndex.
    pose proof (Hdots (0 <? Z.max 0 (bestMatchIndex text queryWords - 250))%Z).
    pose proof (Hdots (Z.min (jslen text) (bestMatchIndex text queryWords + 250)
                       <? jslen text)%Z).
    lia.
Qed.

(** ** Whitespace inside the reconstructed text *)

Lemma singleSpaced_app_inv (a b : jsstring) :
  singleSpaced (a ++ b) = true -> singleSpaced a = true /\ singleSpaced b = true.
Proof.
  induction a as [| c a IH]; [done |]. cbn [app singleSpaced].
  intros [Hc Hab]%andb_prop. destruct (IH Hab) as [Ha Hb]. split; [| exact Hb].
  rewrite Ha, andb_true_r. destruct (isSpace c); [| done].
  destruct a as [| d a]; [done |]. exact Hc.
Qed.

(** A string that does not end on whitespace can be put before any
    single-spaced string. *)
Lemma singleSpaced_app (a b : jsstring) :
  singleSpaced a = true -> (forall c, last a = Some c -> isSpace c = false) ->
  singleSpaced b = true -> singleSpaced (a ++ b) = true.
Proof.
  intros Ha Hlast Hb. induction a as [| c a IH]; [exact Hb |].
  cbn [app singleSpaced] in *. apply andb_prop in Ha as [Hc Ha].
  destruct a as [| d a].
  - rewrite (Hlast c eq_refl). cbn [app]. by rewrite Hb.
  - rewrite IH; [| exact Ha | intros e He; apply Hlast; by rewrite last_cons, He].
    by rewrite andb_true_r.
Qed.

Lemma singleSpaced_cons (c : N) (s : jsstring) :
  singleSpaced s = true -> (isSpace c = true -> headSpace s = false) ->
  singleSpaced (c :: s) = true.
Proof.
  intros Hs Hc. cbn [singleSpaced]. rewrite Hs, andb_true_r.
  destruct (isSpace c); [| done]. by rewrite Hc.
Qed.

Lemma singleSpaced_trim (s : jsstring) : singleSpaced s = true -> singleSpaced (trim s) = true.
Proof.
  intros Hs. unfold trim.
  destruct (trimStart_suffix s) as [pre Hpre]. rewrite Hpre in Hs.
  apply singleSpaced_app_inv in Hs as [_ Hs].
  destruct (trimEnd_prefix (trimStart s)) as [post Hpost]. rewrite Hpost in Hs.
  by apply singleSpaced_app_inv in Hs as [Hs _].
Qed.

Lemma runLength_stop (p : N -> bool) (s : jsstring) :
  match skipn (runLength p s) s with
  | c :: _ => p c = false
  | [] => True
  end.
Proof.
  induction s as [| c s IH]; [done |]. cbn [runLength].
  destruct (p c) eqn:Hc; [exact IH | exact Hc].
Qed.

Lemma runLength_le (p : N -> bool) (s : jsstring) : (runLength p s <= List.length s)%nat.
Proof.
  induction s as [| c s IH]; simpl; [lia |]. destruct (p c); simpl; lia.
Qed.

Lemma isNewline_isSpace (c : N) : isNewline c = true -> isSpace c = true.
Proof. unfold isNewline. intros ->%N.eqb_eq. reflexivity. Qed.

(** Replacing every match by a fixed word without whitespace at its ends
    brings no two whitespace characters together. *)
Section SolidReplacement.
Variables (re : regex) (v : jsstring).
Hypothesis v_nonempty : v <> [].
Hypothesis v_clean : edgesClean v.
Hypothesis v_spaced : singleSpaced v = true.

Local Abbreviation out s skip :=
  (List.concat (List.map (render (fun _ => v)) (scanGo re s skip))).

Lemma v_headSpace (s : jsstring) : headSpace (v ++ s) = false.
Proof.
  destruct v_clean as [Hhead _]. destruct v as [| x v']; [done |]. by apply Hhead.
Qed.

Lemma out_singleSpaced (s : jsstring) : forall skip,
  singleSpaced s = true ->
  singleSpaced (out s skip) = true
  /\ (headSpace (out s skip) = true -> headSpace (skipn skip s) = true).
Proof.
  destruct v_clean as [_ Hlast].
  induction s as [| c s IH]; intros skip Hs.
  - destruct (out_nil re v skip) as [-> | ->]; [done |]. split; [exact v_spaced |].
    rewrite <- (app_nil_r v) at 1. by rewrite v_headSpace.
  - cbn [singleSpaced] in Hs. apply andb_prop in Hs as [Hc Hs].
    assert (Hkeep : singleSpaced (c :: out s 0) = true).
    { destruct (IH 0%nat Hs) as [Hout Hhead]. apply singleSpaced_cons; [exact Hout |].
      intros Hspace. rewrite Hspace in Hc. change (skipn 0 s) with s in Hhead.
      destruct (headSpace (out s 0)); [| done]. by rewrite Hhead in Hc. }
    destruct skip as [| skip]; [| cbn [scanGo skipn]; by apply IH].
    destruct (out_cons re v c s) as [-> | [[n ->] | ->]].
    + rewrite <- app_assoc. split; [by apply singleSpaced_app | by rewrite v_headSpace].
    + split; [apply singleSpaced_app; [done | done | by apply IH] | by rewrite v_headSpace].
    + split; [exact Hkeep | done].
Qed.

End SolidReplacement.

(** After [/\s{2,}/g] has been replaced by one space, nothing is left for the
    two patterns that follow it. *)
Lemma matchHere_spaceRun (s : jsstring) :
  matchHere spaceRun s
  = if (runLength isSpace s <? 2)%nat then None
    else Some ([firstn (runLength isSpace s) s], skipn (runLength isSpace s) s).
Proof.
  cbn [spaceRun atLeast matchHere matchItem].
  destruct (runLength isSpace s <? 2)%nat eqn:Hrun; [reflexivity |].
  apply Nat.ltb_ge in Hrun.
  replace (runLength isSpace s) with (2 + (runLength isSpace s - 2))%nat at 2 3 by lia.
  by destruct (runLength isSpace s - 2)%nat.
Qed.

Lemma runLength_headSpace (s : jsstring) :
  headSpace s = false -> runLength isSpace s = 0%nat.
Proof. destruct s as [| c s]; [done |]. simpl. by intros ->. Qed.

Lemma spaceRun_singleSpaced (s : jsstring) : forall skip,
  singleSpaced
    (List.concat (List.map (render (fun _ => js " ")) (scanGo spaceRun s skip))) = true
  /\ (headSpace
        (List.concat (List.map (render (fun _ => js " ")) (scanGo spaceRun s skip))) = true
      -> headSpace (skipn skip s) = true).
Proof.
  induction s as [| c s IH]; intros skip.
  - destruct skip; done.
  - destruct skip as [| skip]; [| cbn [scanGo skipn]; apply IH].
    cbn [scanGo]. rewrite matchHere_spaceRun.
    destruct (runLength isSpace (c :: s) <? 2)%nat eqn:Hrun.
    + apply Nat.ltb_lt in Hrun. cbn [List.map List.concat render app].
      destruct (IH 0%nat) as [Hout Hhead]. split; [| done].
      apply singleSpaced_cons; [exact Hout |]. intros Hc.
      destruct (headSpace (List.concat _)) eqn:Hh; [| done].
      cbn [runLength] in Hrun. rewrite Hc in Hrun.
      specialize (Hhead eq_refl). change (skipn 0 s) with s in Hhead.
      destruct s as [| d s]; [done |]. cbn [headSpace] in Hhead.
      cbn [runLength] in Hrun. rewrite Hhead in Hrun. lia.
    + apply Nat.ltb_ge in Hrun.
      pose proof (runLength_le isSpace (c :: s)) as Hle.
      pose proof (runLength_stop isSpace (c :: s)) as Hstop.
      rewrite length_skipn.
      destruct (List.length (c :: s) - (List.length (c :: s) - runLength isSpace (c :: s)))%nat
        as [| n] eqn:Hn; [lia |].
      assert (Hrun' : runLength isSpace (c :: s) = S n) by lia.
      rewrite Hrun' in Hstop. change (skipn (S n) (c :: s)) with (skipn n s) in Hstop.
      cbn [List.map List.concat render].
      destruct (IH n) as [Hout Hhead]. split.
      * change (js " " ++ ?l) with (32 :: l). apply singleSpaced_cons; [exact Hout |].
        intros _. destruct (headSpace (List.concat _)) eqn:Hh; [| done].
        specialize (Hhead eq_refl). destruct (skipn n s) as [| d rest]; [done |].
        cbn [headSpace] in Hhead. congruence.
      * intros _. change (isSpace c = true). cbn [runLength] in Hrun.
        destruct (isSpace c); [done | lia].
Qed.

Lemma isNewline_not_space (c : N) : isSpace c = false -> isNewline c = false.
Proof.
  intros Hc. destruct (isNewline c) eqn:Hn; [| done].
  apply isNewline_isSpace in Hn. congruence.
Qed.

Ltac run_matcher :=
  cbv beta iota zeta delta
    [withPiece matchItem matchHere tryRun runLength Nat.ltb Nat.leb Nat.sub Nat.add
     firstn skipn].

Lemma matchHere_lineBreak (c : N) (s : jsstring) :
  negb (isSpace c && headSpace s) = true ->
  matchHere lineBreak (c :: s) = if isNewline c then Some ([[]; [c]; []], s) else None.
Proof.
  intros Hcs. unfold lineBreak, star, one.
  pose proof (isNewline_isSpace c) as Hc.
  destruct s as [| d s].
  - clear Hcs. revert Hc. generalize isSpace, isNewline. intros sp nl Hc.
    destruct (sp c) eqn:Hspc, (nl c) eqn:Hnlc;
      repeat (progress (run_matcher; rewrite ?Hspc, ?Hnlc)); reflexivity.
  - pose proof (isNewline_isSpace d) as Hd. cbn [headSpace] in Hcs.
    revert Hcs Hc Hd. generalize isSpace, isNewline. intros sp nl Hcs Hc Hd.
    destruct (sp c) eqn:Hspc, (nl c) eqn:Hnlc, (sp d) eqn:Hspd, (nl d) eqn:Hnld;
      try discriminate Hcs;
      try (by specialize (Hc eq_refl)); try (by specialize (Hd eq_refl));
      repeat (progress (run_matcher; rewrite ?Hspc, ?Hnlc, ?Hspd, ?Hnld)); reflexivity.
Qed.

Lemma lineBreak_unchanged (s : jsstring) :
  singleSpaced s = true -> replaceAll lineBreak (fun _ => [10]) s = s.
Proof.
  unfold replaceAll, scan. induction s as [| c s IH]; [reflexivity |].
  cbn [singleSpaced]. intros [Hc Hs]%andb_prop.
  cbn [scanGo]. rewrite (matchHere_lineBreak c s Hc).
  destruct (isNewline c) eqn:Hn.
  - replace (List.length (c :: s) - List.length s)%nat with 1%nat by (simpl; lia).
    cbn [List.map List.concat render app]. rewrite (IH Hs).
    apply N.eqb_eq in Hn. by subst c.
  - cbn [List.map List.concat render app]. by rewrite (IH Hs).
Qed.

Lemma runLength_newlines (s : jsstring) :
  singleSpaced s = true -> (runLength isNewline s <= 1)%nat.
Proof.
  destruct s as [| c s]; [simpl; lia |]. cbn [singleSpaced runLength].
  intros [Hc _]%andb_prop. destruct (isNewline c) eqn:Hn; [| lia].
  rewrite (isNewline_isSpace c Hn) in Hc. destruct s as [| d s]; [simpl; lia |].
  cbn [headSpace runLength] in *. rewrite (isNewline_not_space d); [lia |].
  by destruct (isSpace d).
Qed.

Lemma blankLines_unchanged (s : jsstring) :
  singleSpaced s = true -> replaceAll blankLines (fun _ => [10; 10]) s = s.
Proof.
  unfold replaceAll, scan. induction s as [| c s IH]; [reflexivity |].
  intros Hcs. pose proof (runLength_newlines (c :: s) Hcs) as Hrun.
  cbn [singleSpaced] in Hcs. apply andb_prop in Hcs as [_ Hs].
  cbn [scanGo blankLines atLeast matchHere matchItem].
  destruct (runLength isNewline (c :: s) <? 3)%nat eqn:Hlt; [| apply Nat.ltb_ge in Hlt; lia].
  cbn [List.map List.concat render app]. by rewrite (IH Hs).
Qed.

Lemma commonWordsMap_spaced :
  Forall (fun pr : jsstring * jsstring => singleSpaced (snd pr) = true) commonWordsMap.
Proof. unfold commonWordsMap. repeat (constructor; [reflexivity |]). constructor. Qed.

Lemma fixCommonWords_singleSpaced (text : jsstring) :
  singleSpaced text = true -> singleSpaced (fixCommonWords text) = true.
Proof.
  unfold fixCommonWords. generalize commonWordsMap_solid commonWordsMap_spaced.
  generalize commonWordsMap as l. intros l Hsolid Hspaced. revert text.
  induction l as [| [k v] l IH]; intros text Ht; [exact Ht |].
  apply Forall_cons in Hsolid as [[Hne Hv] Hsolid].
  apply Forall_cons in Hspaced as [Hvs Hspaced].
  cbn [fold_left fst snd] in *. apply IH; [done | done |].
  by apply (out_singleSpaced (literalI k) v Hne Hv Hvs text 0%nat).
Qed.

Lemma no_space_pair (a b : N) (s : jsstring) :
  isSpace a = true -> isSpace b = true -> singleSpaced s = true -> includes s [a; b] = false.
Proof.
  intros Ha Hb. unfold includes, indexOf. generalize 0%Z as i.
  induction s as [| c s IH]; intros i Hs; [reflexivity |].
  cbn [singleSpaced] in Hs. apply andb_prop in Hs as [Hc Hs].
  cbn [indexOfFrom]. destruct (startsWith [a; b] (c :: s)) eqn:Hstart; [| by apply IH].
  exfalso. cbn [startsWith] in Hstart. destruct s as [| d s]; [by destruct (a =? c) |].
  apply andb_prop in Hstart as [Hac Hbd]. apply andb_prop in Hbd as [Hbd _].
  apply N.eqb_eq in Hac as <-. apply N.eqb_eq in Hbd as <-.
  cbn [headSpace] in Hc. by rewrite Ha, Hb in Hc.
Qed.

(** X14. Whatever the input, the text [reconstructText] returns has no two
    whitespace characters side by side: every run of whitespace has become
    one character.  In particular it has no blank line, though step 6
    provides for one. *)
Theorem reconstructText_single_spaced (rawText : jsstring) :
  singleSpaced (reconstructText rawText) = true
  /\ includes (reconstructText rawText) [10; 10] = false.
Proof.
  assert (Hspaced : singleSpaced (reconstructText rawText) = true).
  { destruct rawText as [| c t]; [reflexivity |].
    unfold reconstructText. apply fixCommonWords_singleSpaced.
    unfold cleanWhitespace. apply singleSpaced_trim.
    set (t1 := replaceAll spaceRun _ _).
    assert (H1 : singleSpaced t1 = true) by apply (spaceRun_singleSpaced _ 0%nat).
    by rewrite (lineBreak_unchanged t1 H1), (blankLines_unchanged t1 H1). }
  split; [exact Hspaced |]. by apply no_space_pair.
Qed.

(** ** The reconstructor applied to its own result *)










(** So it does on ['Gene Rally'], whose result ['generally'] step 4 splits
    after ['er'].  Neither result is settled; the results of ['Belaying']
    and ['Use SERENE anchor.'] are, the first without being clean. *)
Example reconstructText_twice :
  reconstructText (js "Gene Rally") = js "generally"
  /\ reconstructText (js "generally") = js "gener ally"
  /\ settled (reconstructText (js "Gene Rally")) = false
  /\ settled (reconstructText (js "ANCH ORS")) = false
  /\ reconstructText (js "Belaying") = js "Belay ing"
  /\ settled (js "Belay ing") = true
  /\ alreadyClean (js "Belay ing") = false
  /\ alreadyClean (js "Theclimb ing rope") = false
  /\ settled (js "Use SERENE anchor.") = true
  /\ alreadyClean (js "Use SERENE anchor.") = true.
Proof. vm_compute. repeat split; reflexivity. Qed.

(** ** Chapter titles *)

Lemma tryRun_first k (n : nat) (s : jsstring) (t : nat) pieces rest : forall extra : nat,
  (t <= extra)%nat ->
  (forall j, (t < j <= extra)%nat -> k (skipn (n + j) s) = None) ->
  k (skipn (n + t) s) = Some (pieces, rest) ->
  tryRun k n extra s = Some (firstn (n + t) s :: pieces, rest).
Proof.
  induction extra as [| extra IH]; intros Ht Hnone Hsome.
  - assert (t = 0%nat) as -> by lia. cbn [tryRun]. unfold withPiece. by rewrite Hsome.
  - cbn [tryRun]. unfold withPiece.
    destruct (decide (t = S extra)) as [-> | Hne]; [by rewrite Hsome |].
    rewrite (Hnone (S extra)) by lia. apply IH; [lia | | exact Hsome].
    intros j Hj. apply Hnone. lia.
Qed.

(** A greedy run gives back characters until what follows matches. *)
Lemma matchItem_backtrack k (p : N -> bool) (n m : nat) (s : jsstring) pieces rest :
  (n <= m <= runLength p s)%nat ->
  (forall j, (m < j <= runLength p s)%nat -> k (skipn j s) = None) ->
  k (skipn m s) = Some (pieces, rest) ->
  matchItem k (Chars p (AtLeast n)) s = Some (firstn m s :: pieces, rest).
Proof.
  intros Hm Hnone Hsome. cbn [matchItem].
  destruct (runLength p s <? n)%nat eqn:Hlt; [apply Nat.ltb_lt in Hlt; lia |].
  replace m with (n + (m - n))%nat in Hsome |- * by lia.
  apply tryRun_first; [lia | | exact Hsome].
  intros j Hj. apply Hnone. lia.
Qed.

Lemma runLength_app (p : N -> bool) (a b : jsstring) :
  forallb p a = true ->
  match b with c :: _ => p c = false | [] => True end ->
  runLength p (a ++ b) = List.length a.
Proof.
  intros Ha Hb. induction a as [| c a IH]; cbn [app runLength List.length].
  - destruct b as [| c b]; [done |]. cbn [runLength]. by rewrite Hb.
  - cbn [forallb] in Ha. apply andb_prop in Ha as [Hc Ha]. rewrite Hc. f_equal. by apply IH.
Qed.

(** A greedy run followed by something that matches right after it. *)
Lemma matchItem_run k (p : N -> bool) (n : nat) (a b : jsstring) pieces rest :
  forallb p a = true ->
  match b with c :: _ => p c = false | [] => True end ->
  (n <= List.length a)%nat ->
  k b = Some (pieces, rest) ->
  matchItem k (Chars p (AtLeast n)) (a ++ b) = Some (a :: pieces, rest).
Proof.
  intros Ha Hb Hn Hsome. pose proof (runLength_app p a b Ha Hb) as Hrun.
  rewrite (matchItem_backtrack k p n (List.length a) (a ++ b) pieces rest).
  - by rewrite take_app_length.
  - lia.
  - intros j Hj. lia.
  - by rewrite drop_app_length.
Qed.

Lemma sameLetter_refl (c : N) : sameLetter c c = true.
Proof. unfold sameLetter. by rewrite N.eqb_refl. Qed.

Lemma matchToEnd_literalI (w : jsstring) (re : regex) (s : jsstring) pieces rest :
  matchToEnd re s = Some (pieces, rest) ->
  matchToEnd (literalI w ++ re) (w ++ s) = Some (List.map (fun c => [c]) w ++ pieces, rest).
Proof.
  intros Hsome. induction w as [| c w IH]; [exact Hsome |].
  cbn [literalI List.map app matchToEnd matchItem one]. fold (literalI w).
  rewrite sameLetter_refl. unfold withPiece. by rewrite IH.
Qed.

Lemma matchToEnd_literalI_length (w t : jsstring) r :
  matchToEnd (literalI w) t = Some r -> List.length t = List.length w.
Proof.
  revert t r. induction w as [| c w IH]; intros t r.
  - destruct t; [done | discriminate].
  - cbn [literalI List.map matchToEnd matchItem one]. fold (literalI w).
    destruct t as [| d t]; [discriminate |]. destruct (sameLetter c d); [| discriminate].
    unfold withPiece. destruct (matchToEnd (literalI w) t) as [[ps out] |] eqn:Ht; [| discriminate].
    intros _. cbn [List.length]. f_equal. by eapply IH.
Qed.

Lemma isDigit_not_space (c : N) : isDigit c = true -> isSpace c = false.
Proof.
  unfold isDigit, inRange. intros [Hlo Hhi]%andb_prop.
  apply N.leb_le in Hlo. apply N.leb_le in Hhi.
  assert (Hc : c = 48 \/ c = 49 \/ c = 50 \/ c = 51 \/ c = 52 \/ c = 53 \/ c = 54
               \/ c = 55 \/ c = 56 \/ c = 57) by lia.
  repeat (destruct Hc as [-> | Hc]; [reflexivity |]). by subst c.
Qed.

(** X15. A file name of the form [Chapter N. Name.pdf], with digits [N] and
    a name without line terminator that does not start with whitespace, has
    the title [Chapter N: Name]. *)
Theorem getChapterTitle_new_format (number name : jsstring) :
  number <> [] -> forallb isDigit number = true ->
  name <> [] -> forallb anyChar name = true -> headSpace name = false ->
  getChapterTitle (js "Chapter " ++ number ++ js ". " ++ name ++ js ".pdf")
  = js "Chapter " ++ number ++ js ": " ++ name.
Proof.
  intros Hnumber Hdigits Hname Hany Hhead.
  assert (Hmatch : matchToEnd newFormat
                     (js "Chapter " ++ number ++ js ". " ++ name ++ js ".pdf")
                   = Some (List.map (fun c => [c]) (js "Chapter")
                           ++ [[32]; number; [46]; [32]; name]
                           ++ List.map (fun c => [c]) (js ".pdf"), [])).
  { change (js "Chapter " ++ number ++ js ". " ++ name ++ js ".pdf")
      with (js "Chapter" ++ ([32] ++ (number ++ 46 :: ([32] ++ (name ++ js ".pdf"))))).
    unfold newFormat. apply matchToEnd_literalI.
    cbn [app matchToEnd]. rewrite <- (app_nil_l (_ :: _ ++ _)).
    change ([] ++ 32 :: ?l) with ([32] ++ l).
    apply matchItem_run; [reflexivity | | simpl; lia |].
    { destruct number as [| d number]; [done |]. cbn [app].
      apply isDigit_not_space. cbn [forallb] in Hdigits. by apply andb_prop in Hdigits as [? _]. }
    apply matchItem_run; [exact Hdigits | reflexivity | destruct number; [done | simpl; lia] |].
    cbn [dot one matchItem]. unfold withPiece at 1.
    rewrite (matchItem_run _ isSpace 0 [32] (name ++ js ".pdf")
               ([name] ++ List.map (fun c => [c]) (js ".pdf")) []); [reflexivity | reflexivity | | lia |].
    { destruct name as [| c name]; [done |]. exact Hhead. }
    assert (Hrun : runLength anyChar (name ++ js ".pdf") = List.length (name ++ js ".pdf")).
    { rewrite <- (app_nil_r (name ++ js ".pdf")) at 1. apply runLength_app; [| done].
      by rewrite forallb_app, Hany. }
    rewrite (matchItem_backtrack _ anyChar 1 (List.length name) (name ++ js ".pdf")
               (List.map (fun c => [c]) (js ".pdf")) []).
    - by rewrite take_app_length.
    - rewrite Hrun, length_app. destruct name; [done |]. simpl. lia.
    - intros j Hj. rewrite Hrun, length_app in Hj.
      destruct (matchToEnd (literalI (js ".pdf")) (skipn j (name ++ js ".pdf"))) as [r |] eqn:Hr;
        [| reflexivity].
      apply matchToEnd_literalI_length in Hr. rewrite length_skipn, length_app in Hr.
      change (List.length (js ".pdf")) with 4%nat in *. lia.
    - rewrite drop_app_length. reflexivity. }
  unfold getChapterTitle. rewrite Hmatch. reflexivity.
Qed.

Lemma getChapterTitle_new_format_witness :
  getChapterTitle (js "Chapter 12. Rock Protection.pdf") = js "Chapter 12: Rock Protection".
Proof.
  apply (getChapterTitle_new_format (js "12") (js "Rock Protection")).
  - discriminate.
  - reflexivity.
  - discriminate.
  - reflexivity.
  - reflexivity.
Defined.

(** ** Citations *)

Lemma ownProperty_not_inherited (bookName : jsstring) (metadata : BookMetadata) :
  ownProperty bookName bookMetadata = Some metadata ->
  isInherited bookName = false /\ authors metadata <> [].
Proof.
  unfold bookMetadata. cbn [ownProperty]. unfold jsstring_eqb.
  repeat case_bool_decide; subst; try discriminate; intros [= <-]; by split.
Qed.

Lemma getBookMetadata_None (bookName : jsstring) :
  getBookMetadata bookName = None <-> isInherited bookName = true.
Proof.
  unfold getBookMetadata.
  destruct (ownProperty bookName bookMetadata) as [metadata |] eqn:Hown.
  - apply ownProperty_not_inherited in Hown as [-> _]. by split.
  - by destruct (isInherited bookName).
Qed.

Lemma getBookMetadata_authors (bookName : jsstring) (metadata : BookMetadata) :
  getBookMetadata bookName = Some metadata -> authors metadata <> [].
Proof.
  unfold getBookMetadata.
  destruct (ownProperty bookName bookMetadata) as [own |] eqn:Hown.
  - intros [= <-]. by apply ownProperty_not_inherited in Hown as [_ ?].
  - destruct (isInherited bookName); [discriminate |]. by intros [= <-].
Qed.

Lemma formatCitation_None (bookName chapterName : jsstring) (sectionHeading : option jsstring) :
  formatCitation bookName chapterName sectionHeading = None <-> isInherited bookName = true.
Proof.
  rewrite <- getBookMetadata_None. unfold formatCitation.
  by destruct (getBookMetadata bookName).
Qed.

Lemma formatInlineCitation_None (bookName chapterName : jsstring) :
  formatInlineCitation bookName chapterName = None <-> isInherited bookName = true.
Proof.
  rewrite <- getBookMetadata_None. unfold formatInlineCitation.
  destruct (getBookMetadata bookName) as [metadata |] eqn:Hmeta; [| done].
  apply getBookMetadata_authors in Hmeta. by destruct (authors metadata).
Qed.

Lemma splitOn_pieces (sep : N) (s : jsstring) :
  Forall (fun p => ~ In sep p) (splitOn sep s).
Proof.
  induction s as [| c s IH]; cbn [splitOn]; [constructor; [by intros [] | constructor] |].
  destruct (c =? sep) eqn:Hc; [constructor; [by intros [] | exact IH] |].
  apply N.eqb_neq in Hc. destruct (splitOn sep s) as [| p ps].
  - constructor; [| constructor]. by intros [-> | []].
  - apply Forall_cons in IH as [Hp Hps]. constructor; [| exact Hps].
    by intros [-> | Hin].
Qed.

Lemma In_trim (c : N) (s : jsstring) : In c (trim s) -> In c s.
Proof.
  intros Hin. unfold trim in Hin.
  destruct (trimEnd_prefix (trimStart s)) as [post Hpost].
  destruct (trimStart_suffix s) as [pre Hpre].
  rewrite Hpre, Hpost. apply in_or_app. right. apply in_or_app. by left.
Qed.

Lemma includes_one (c : N) (s : jsstring) : includes s [c] = false -> ~ In c s.
Proof.
  unfold includes, indexOf. generalize 0%Z as i.
  induction s as [| d s IH]; intros i; [by intros _ [] |].
  cbn [indexOfFrom startsWith]. destruct (c =? d) eqn:Hcd; [discriminate |].
  apply N.eqb_neq in Hcd. cbn [andb]. intros Hnone [-> | Hin]; [done |].
  by apply (IH (i + 1)%Z).
Qed.

Lemma chapterTopicOf_no_colon (chapterTitle : jsstring) :
  ~ In 58 (chapterTopicOf chapterTitle).
Proof.
  unfold chapterTopicOf. destruct (includes chapterTitle (js ":")) eqn:Hcolon.
  - intros Hin%In_trim. pose proof (splitOn_pieces 58 chapterTitle) as Hpieces.
    destruct (splitOn 58 chapterTitle) as [| p0 [| p1 ps]]; [done | done |].
    apply Forall_cons in Hpieces as [_ Hpieces]. by apply Forall_cons in Hpieces as [Hp1 _].
  - by apply includes_one.
Qed.

Lemma formatInlineCitation_ends (bookName chapterName : jsstring) :
  formatInlineCitation bookName chapterName = None
  \/ exists before,
       formatInlineCitation bookName chapterName
       = Some (before ++ formatShortCitation bookName chapterName ++ js ")").
Proof.
  unfold formatInlineCitation, formatShortCitation.
  destruct (getBookMetadata bookName) as [metadata |]; [| by left].
  destruct (authors metadata) as [| first others]; [by left |]. right.
  exists ((if (1 <? List.length (first :: others))%nat
           then (js "(" ++ List.last (splitOn 32 first) []) ++ js " et al."
           else js "(" ++ List.last (splitOn 32 first) [])
          ++ js ", " ++ year metadata ++ js ", ").
  f_equal. rewrite <- !app_assoc. reflexivity.
Qed.

(** X16. A citation cannot be written exactly when the book name is the name
    of a property inherited from [Object.prototype]: [formatCitation] and
    [formatInlineCitation] then throw.  Otherwise the inline citation ends
    with the short citation and a closing parenthesis; the chapter topic the
    two quote never has a colon. *)
Theorem citations_of_book (bookName chapterName : jsstring) (sectionHeading : option jsstring) :
  (formatCitation bookName chapterName sectionHeading = None <-> isInherited bookName = true)
  /\ (formatInlineCitation bookName chapterName = None <-> isInherited bookName = true)
  /\ (forall citation,
        formatInlineCitation bookName chapterName = Some citation ->
        exists before,
          citation = before ++ formatShortCitation bookName chapterName ++ js ")")
  /\ (exists chapterTopic,
        formatShortCitation bookName chapterName = [34] ++ chapterTopic ++ [34]
        /\ ~ In 58 chapterTopic).
Proof.
  split; [apply formatCitation_None |]. split; [apply formatInlineCitation_None |]. split.
  - intros citation Hcitation.
    destruct (formatInlineCitation_ends bookName chapterName) as [Hnone | (before & Hsome)];
      [congruence |].
    exists before. congruence.
  - exists (chapterTopicOf (getChapterTitle chapterName)).
    split; [reflexivity | apply chapterTopicOf_no_colon].
Qed.

(** ** The responses of the section and search tools *)

Section Responses.
Context {rt : Runtime}.
Variable sectionHeading : Chunk -> option jsstring.

Lemma citations_written {A} (bookName : jsstring) (chapterOf : A -> jsstring)
    (headingOf : A -> option jsstring) (l : list A) :
  isInherited bookName = false ->
  forallb (fun x =>
    match formatInlineCitation bookName (chapterOf x),
          formatCitation bookName (chapterOf x) (headingOf x) with
    | Some _, Some _ => true
    | _, _ => false
    end) l = true.
Proof.
  intros Hown. apply forallb_forall. intros x _.
  destruct (formatInlineCitation bookName (chapterOf x)) eqn:Hinline;
    [| apply formatInlineCitation_None in Hinline; congruence].
  destruct (formatCitation bookName (chapterOf x) (headingOf x)) eqn:Hfull; [done |].
  apply formatCitation_None in Hfull. congruence.
Qed.

Lemma forallb_over_map {A B} (f : B -> bool) (g : A -> B) (l : list A) :
  forallb f (List.map g l) = forallb (fun x => f (g x)) l.
Proof. induction l as [| x l IH]; [done |]. simpl. by rewrite IH. Qed.

Lemma forallb_fails {A} (f : A -> bool) (l : list A) :
  forallb f l = false -> exists x, In x l /\ f x = false.
Proof.
  induction l as [| x l IH]; [discriminate |]. simpl.
  destruct (f x) eqn:Hx; [| by exists x; auto].
  intros Hl. destruct (IH Hl) as (y & Hy & Hfy). exists y. auto.
Qed.

Lemma In_take {A} (n : nat) (l : list A) (x : A) : In x (firstn n l) -> In x l.
Proof. intros Hin. rewrite <- (firstn_skipn n l). apply in_or_app. by left. Qed.

Lemma sliceFrom0_In {A} (l : list A) (n : Z) (x : A) : In x (sliceFrom0 l n) -> In x l.
Proof. unfold sliceFrom0. destruct (n <? 0)%Z; apply In_take. Qed.

(** The number of chunks a context level selects: three at most, and none
    only for the name of an inherited property. *)
Lemma maxChunksFor_cases (contextLevel : jsstring) :
  exists n : nat,
    toIntegerOrZero (maxChunksFor contextLevel) = Z.of_nat n
    /\ (n <= 3)%nat /\ (n = 0%nat -> isInherited contextLevel = true).
Proof.
  unfold maxChunksFor, contextSizes.
  destruct (jsstring_eqb contextLevel (js "brief"));
    [exists 1%nat; split; [done | split; [lia | discriminate]] |].
  destruct (jsstring_eqb contextLevel (js "detailed"));
    [exists 2%nat; split; [done | split; [lia | discriminate]] |].
  destruct (jsstring_eqb contextLevel (js "comprehensive"));
    [exists 3%nat; split; [done | split; [lia | discriminate]] |].
  destruct (isInherited contextLevel).
  - exists 0%nat. split; [done | split; [lia | done]].
  - exists 2%nat. split; [done | split; [lia | discriminate]].
Qed.

(** The answers of [getChapterSection], case by case. *)
Lemma getChapterSection_spec (w : World)
    (bookName chapterName sectionTopic contextLevel : jsstring) :
  match getChapterSection sectionHeading w bookName chapterName sectionTopic contextLevel with
  | None =>
      isInherited bookName = true
      /\ exists cached,
           getCachedContent w chapterName = Some cached
           /\ List.filter (chunkIsRelevant (wordsOf sectionTopic)) (textChunks cached) <> []
  | Some NotExtracted => getCachedContent w chapterName = None
  | Some NoSectionFound =>
      exists cached,
        getCachedContent w chapterName = Some cached
        /\ Forall (fun chunk => chunkIsRelevant (wordsOf sectionTopic) chunk = false)
             (textChunks cached)
  | Some (Sections chunks) =>
      isInherited bookName = false
      /\ exists cached rest,
           getCachedContent w chapterName = Some cached
           /\ chunks
              = sliceFrom0
                  (List.filter (chunkIsRelevant (wordsOf sectionTopic)) (textChunks cached))
                  (toIntegerOrZero (maxChunksFor contextLevel))
           /\ List.filter (chunkIsRelevant (wordsOf sectionTopic)) (textChunks cached)
              = chunks ++ rest
           /\ chunks ++ rest <> []
           /\ (List.length chunks <= 3)%nat
           /\ (chunks = [] -> isInherited contextLevel = true)
  end.
Proof.
  unfold getChapterSection.
  destruct (getCachedContent w chapterName) as [cached |]; [| done].
  destruct (List.filter _ (textChunks cached)) as [| chunk relevant] eqn:Hrel.
  - exists cached. split; [done |]. apply List.Forall_forall. intros c Hc.
    destruct (chunkIsRelevant (wordsOf sectionTopic) c) eqn:Hc'; [| done].
    assert (Hin : In c (List.filter (chunkIsRelevant (wordsOf sectionTopic))
                          (textChunks cached))) by (by apply filter_In).
    by rewrite Hrel in Hin.
  - destruct (formatCitation bookName chapterName (Some sectionTopic))
      as [citation |] eqn:Hfull.
    + assert (Hown : isInherited bookName = false).
      { destruct (isInherited bookName) eqn:Hinh; [| done].
        apply (formatCitation_None bookName chapterName (Some sectionTopic)) in Hinh.
        congruence. }
      rewrite (citations_written bookName (fun _ => chapterName) sectionHeading _ Hown).
      split; [exact Hown |].
      destruct (maxChunksFor_cases contextLevel) as (n & -> & Hn & Hzero).
      rewrite sliceFrom0_nat.
      exists cached, (skipn n (chunk :: relevant)).
      split; [done |]. split; [by rewrite Hrel, sliceFrom0_nat |].
      split; [by rewrite firstn_skipn |].
      split; [by rewrite firstn_skipn |].
      split; [rewrite length_firstn; lia |].
      destruct n as [| n]; [auto | discriminate].
    + apply formatCitation_None in Hfull. split; [exact Hfull |].
      exists cached. split; [done |]. by rewrite Hrel.
Qed.

(** The answers of [searchContent], case by case. *)
Lemma searchContent_spec (lib : Library) (w : World) (query : jsstring) (maxResults : Z) :
  match searchContent sectionHeading lib w query maxResults with
  | None =>
      exists r, In r (sliceFrom0 (searchResults lib w query) maxResults)
                /\ isInherited (book r) = true
  | Some response =>
      response
      = match searchResults lib w query with
        | [] => NoContentFound
        | results =>
            SearchResults (List.length results)
              (List.map (fun result =>
                 (result,
                  List.map (fun m => getContextSnippet (matchText m) (wordsOf query)
                                       EXTRACTION_CONFIG_CONTEXT_WINDOW) (matches result)))
                 (sliceFrom0 results maxResults))
        end
      /\ forall r, In r (sliceFrom0 (searchResults lib w query) maxResults) ->
                   isInherited (book r) = false
  end.
Proof.
  unfold searchContent.
  destruct (searchResults lib w query) as [| r0 results] eqn:Hresults.
  - split; [done |]. intros r Hr. apply sliceFrom0_In in Hr. by destruct Hr.
  - set (shown := sliceFrom0 (r0 :: results) maxResults).
    destruct (forallb _ shown) eqn:Hall.
    + split; [done |]. intros r Hr.
      rewrite forallb_forall in Hall. specialize (Hall r Hr).
      destruct (isInherited (book r)) eqn:Hinh; [| done].
      apply (formatCitation_None (book r) (chapter r) (firstHeading sectionHeading r)) in Hinh.
      by rewrite Hinh in Hall.
    + destruct (forallb_fails _ _ Hall) as (r & Hr & Hfail). exists r. split; [done |].
      destruct (isInherited (book r)) eqn:Hinh; [done |].
      destruct (formatCitation (book r) (chapter r) (firstHeading sectionHeading r)) eqn:Hfull;
        [| apply formatCitation_None in Hfull; congruence].
      destruct (formatInlineCitation (book r) (chapter r)) eqn:Hinline; [done |].
      apply formatInlineCitation_None in Hinline. congruence.
Qed.

End Responses.

(** X17. The section tool answers with the error of its [catch] block
    exactly when the chapter is cached, some chunk is relevant and the book
    name is the name of an inherited property, for which no citation can be
    written.  Otherwise the chapter counts as not extracted exactly when the
    cache has no entry, no section is found exactly when no chunk is
    relevant, and the chunks returned are the first of the relevant chunks
    in their order: three at most whatever the context level, and none only
    for a context level that names an inherited property. *)
Theorem getChapterSection_cases (rt : Runtime)
    (sectionHeading : Chunk -> option jsstring) (w : World)
    (bookName chapterName sectionTopic contextLevel : jsstring) :
  match getChapterSection sectionHeading w bookName chapterName sectionTopic contextLevel with
  | None =>
      isInherited bookName = true
      /\ exists cached,
           getCachedContent w chapterName = Some cached
           /\ List.filter (chunkIsRelevant (wordsOf sectionTopic)) (textChunks cached) <> []
  | Some NotExtracted => getCachedContent w chapterName = None
  | Some NoSectionFound =>
      exists cached,
        getCachedContent w chapterName = Some cached
        /\ Forall (fun chunk => chunkIsRelevant (wordsOf sectionTopic) chunk = false)
             (textChunks cached)
  | Some (Sections chunks) =>
      isInherited bookName = false
      /\ exists cached rest,
           getCachedContent w chapterName = Some cached
           /\ List.filter (chunkIsRelevant (wordsOf sectionTopic)) (textChunks cached)
              = chunks ++ rest
           /\ (List.length chunks <= 3)%nat
           /\ (chunks = [] -> isInherited contextLevel = true)
  end.
Proof.
  pose proof (getChapterSection_spec sectionHeading w bookName chapterName sectionTopic
                contextLevel) as Hspec.
  destruct (getChapterSection sectionHeading w bookName chapterName sectionTopic contextLevel)
    as [[| | chunks] |]; [exact Hspec | exact Hspec | | exact Hspec].
  destruct Hspec as (Hown & cached & rest & Hcached & _ & Hrel & _ & Hlen & Hnone).
  split; [exact Hown |]. by exists cached, rest.
Qed.

(** X18. The search tool answers with the error of its [catch] block
    exactly when one of the results it would show lies in a book directory
    whose name is the name of an inherited property; otherwise it answers
    with the results found. *)
Theorem searchContent_cases (rt : Runtime)
    (sectionHeading : Chunk -> option jsstring) (lib : Library) (w : World)
    (query : jsstring) (maxResults : Z) :
  match searchContent sectionHeading lib w query maxResults with
  | None =>
      exists r, In r (sliceFrom0 (searchResults lib w query) maxResults)
                /\ isInherited (book r) = true
  | Some response =>
      response
      = match searchResults lib w query with
        | [] => NoContentFound
        | results =>
            SearchResults (List.length results)
              (List.map (fun result =>
                 (result,
                  List.map (fun m => getContextSnippet (matchText m) (wordsOf query)
                                       EXTRACTION_CONFIG_CONTEXT_WINDOW) (matches result)))
                 (sliceFrom0 results maxResults))
        end
      /\ forall r, In r (sliceFrom0 (searchResults lib w query) maxResults) ->
                   isInherited (book r) = false
  end.
Proof. apply searchContent_spec. Qed.

(** ** The number of sections *)

(** For a cached chapter, a topic with at least one relevant chunk, and a
    book name and a context level that are not names of properties inherited
    from [Object.prototype], [getChapterSection] returns the first [N]
    relevant chunks in the order of [textChunks], [min N r] of them for [r]
    relevant chunks, where [N] is 1 for ['brief'], 2 for ['detailed'], 3 for
    ['comprehensive'] and 2 otherwise. *)
Lemma getChapterSection_first_chunks (rt : Runtime)
    (sectionHeading : Chunk -> option jsstring) (w : World)
    (bookName chapterName sectionTopic contextLevel : jsstring) (cached : ExtractedContent) :
  getCachedContent w chapterName = Some cached ->
  List.filter (chunkIsRelevant (wordsOf sectionTopic)) (textChunks cached) <> [] ->
  isInherited bookName = false ->
  isInherited contextLevel = false ->
  getChapterSection sectionHeading w bookName chapterName sectionTopic contextLevel
  = Some (Sections (firstn (chunksFor contextLevel)
                      (List.filter (chunkIsRelevant (wordsOf sectionTopic))
                         (textChunks cached))))
  /\ List.length
       (firstn (chunksFor contextLevel)
          (List.filter (chunkIsRelevant (wordsOf sectionTopic)) (textChunks cached)))
     = Nat.min (chunksFor contextLevel)
         (List.length
            (List.filter (chunkIsRelevant (wordsOf sectionTopic)) (textChunks cached)))
  /\ chunksFor (js "brief") = 1%nat
  /\ chunksFor (js "detailed") = 2%nat
  /\ chunksFor (js "comprehensive") = 3%nat.
Proof.
  intros Hcached Hrelevant Hbook Hown.
  split; [| split; [apply length_firstn | by repeat split]].
  unfold getChapterSection. rewrite Hcached.
  destruct (List.filter _ _) as [| c rest] eqn:Hf; [done |].
  destruct (formatCitation bookName chapterName (Some sectionTopic)) as [citation |] eqn:Hfull;
    [| apply formatCitation_None in Hfull; congruence].
  rewrite (citations_written bookName (fun _ => chapterName) sectionHeading _ Hbook).
  by rewrite (maxChunksFor_own _ Hown), sliceFrom0_nat.
Qed.

(** C9 fails on the context level ['constructor'], which is none of the
    three levels and for which the default of two chunks is due:
    [contextSizes['constructor']] is the function inherited from
    [Object.prototype], which is truthy, so that [|| 2] does not apply, and
    which [slice] takes for 0.  Of the four relevant chunks none is
    returned; for another unknown level, two are. *)
Lemma getChapterSection_inherited_level :
  isInherited (js "constructor") = true
  /\ List.length (List.filter (@chunkIsRelevant basicLatin (@wordsOf basicLatin (js "rope")))
                    (textChunks ropeChapter)) = 4%nat
  /\ @getChapterSection basicLatin (fun _ => None) ropeWorld (js "Book") (js "ropes.pdf")
       (js "rope") (js "constructor")
     = Some (Sections [])
  /\ @getChapterSection basicLatin (fun _ => None) ropeWorld (js "Book") (js "ropes.pdf")
       (js "rope") (js "thorough")
     = Some (Sections [ropeChunk 0 "Coil the rope."; ropeChunk 1 "A rope is dynamic or static."])
  /\ @getChapterSection basicLatin (fun _ => None) ropeWorld (js "Book") (js "ropes.pdf")
       (js "rope") (js "brief")
     = Some (Sections [ropeChunk 0 "Coil the rope."]).
Proof. vm_compute. repeat split; reflexivity. Qed.

(** ** Ranking of the search results *)

Lemma existsb_perm {A} (p : A -> bool) (l l' : list A) :
  l ≡ₚ l' -> existsb p l = existsb p l'.
Proof.
  induction 1 as [| x l l' _ IH | x y l | l l' l'' _ IH1 _ IH2]; simpl.
  - reflexivity.
  - by rewrite IH.
  - by destruct (p x), (p y).
  - by rewrite IH1.
Qed.

Lemma filter_perm {A} (p : A -> bool) (l l' : list A) :
  l ≡ₚ l' -> List.filter p l ≡ₚ List.filter p l'.
Proof.
  induction 1 as [| x l l' _ IH | x y l | l l' l'' _ IH1 _ IH2]; simpl.
  - reflexivity.
  - destruct (p x); [by constructor | exact IH].
  - destruct (p x), (p y); try reflexivity. apply perm_swap.
  - by rewrite IH1.
Qed.

Lemma concat_map_length_perm {A B} (g : A -> list B) (l l' : list A) :
  l ≡ₚ l' ->
  List.length (List.concat (List.map g l)) = List.length (List.concat (List.map g l')).
Proof.
  induction 1 as [| x l l' _ IH | x y l | l l' l'' _ IH1 _ IH2]; simpl.
  - reflexivity.
  - rewrite !length_app. lia.
  - rewrite !length_app. lia.
  - by rewrite IH1.
Qed.

Lemma existsb_map {A B} (p : B -> bool) (f : A -> B) (l : list A) :
  existsb p (List.map f l) = existsb (fun x => p (f x)) l.
Proof. induction l as [| x l IH]; [done |]. simpl. by rewrite IH. Qed.

Lemma filter_map_comm {A B} (p : B -> bool) (f : A -> B) (l : list A) :
  List.filter p (List.map f l) = List.map f (List.filter (fun x => p (f x)) l).
Proof.
  induction l as [| x l IH]; [done |]. simpl. destruct (p (f x)); simpl; by rewrite IH.
Qed.

Lemma existsb_filter {A} (p : A -> bool) (l : list A) :
  existsb p l = match List.filter p l with [] => false | _ => true end.
Proof. induction l as [| x l IH]; [done |]. simpl. by destruct (p x). Qed.

Section SortOfMap.
Context {A B : Type}.
Variables (f : A -> B) (cmp : A -> A -> Z) (cmp' : B -> B -> Z).
Hypothesis cmp_f : forall x y, cmp' (f x) (f y) = cmp x y.

Lemma insertBy_map (x : A) (l : list A) :
  insertBy cmp' (f x) (List.map f l) = List.map f (insertBy cmp x l).
Proof.
  induction l as [| y l IH]; [done |]. simpl. rewrite cmp_f.
  destruct (cmp x y <=? 0)%Z; [done |]. simpl. by rewrite IH.
Qed.

Lemma jsSort_map (l : list A) : jsSort cmp' (List.map f l) = List.map f (jsSort cmp l).
Proof.
  induction l as [| x l IH]; [done |]. simpl. by rewrite IH, insertBy_map.
Qed.

End SortOfMap.

Section RankingMore.
Context {rt : Runtime}.

(** The scored matches of a chapter: its relevant chunks in the order of
    descending score, each with its score; or, when no chunk is relevant,
    the placeholder for a metadata score of 50 or more. *)
Lemma scoredMatchesOf_ranked (queryWords : list jsstring) (c : ChapterRelevance)
    (cached : ExtractedContent) :
  scoredMatchesOf queryWords c cached
  = match List.filter (chunkIsRelevant queryWords) (textChunks cached) with
    | [] => if (50 <=? metadataScore c)%Z
            then [placeholderMatch (metadataScore c) (metadata c)]
            else []
    | relevant =>
        List.map (scored queryWords (metadataScore c))
          (jsSort (descendingBy (scoreChunk queryWords (metadataScore c))) relevant)
    end.
Proof.
  unfold scoredMatchesOf.
  destruct (List.filter (chunkIsRelevant queryWords) (textChunks cached))
    as [| chunk relevant] eqn:Hrel.
  - cbn [List.length List.map jsSort fold_right Nat.ltb Nat.leb orb].
    destruct (0 <? metadataScore c)%Z eqn:Hpos; [reflexivity |].
    apply Z.ltb_ge in Hpos. destruct (50 <=? metadataScore c)%Z eqn:Hfifty; [| reflexivity].
    apply Z.leb_le in Hfifty. lia.
  - cbn [List.length Nat.ltb Nat.leb orb].
    rewrite (jsSort_map (scored queryWords (metadataScore c))
               (descendingBy (scoreChunk queryWords (metadataScore c)))
               byScoreDescending) by reflexivity.
    pose proof (jsSort_perm (scoreChunk queryWords (metadataScore c)) (chunk :: relevant))
      as Hperm.
    destruct (jsSort _ (chunk :: relevant)) as [| first rest]; [| reflexivity].
    by apply Permutation_nil_cons in Hperm.
Qed.

Lemma searchChapter_length (lib : Library) (w : World) (queryWords : list jsstring)
    (bookDir f : jsstring) :
  List.length (searchChapter w queryWords bookDir (chapterRelevance lib queryWords bookDir f))
  = if chapterMatches lib w queryWords (bookDir, f) then 1%nat else 0%nat.
Proof.
  unfold searchChapter, chapterMatches. cbn [fst snd]. rewrite chapterRelevance_file.
  destruct (getCachedContent w f) as [cached |]; [| reflexivity].
  rewrite scoredMatchesOf_ranked, existsb_filter.
  destruct (List.filter (chunkIsRelevant queryWords) (textChunks cached))
    as [| chunk relevant].
  - cbn [orb]. by destruct (50 <=? _)%Z.
  - cbn [orb].
    pose proof (jsSort_perm
                  (scoreChunk queryWords
                     (metadataScore (chapterRelevance lib queryWords bookDir f)))
                  (chunk :: relevant)) as Hperm.
    destruct (jsSort _ (chunk :: relevant)) as [| first rest]; [| reflexivity].
    by apply Permutation_nil_cons in Hperm.
Qed.

Lemma searchBook_length (lib : Library) (w : World) (queryWords : list jsstring)
    (entry : jsstring * DirEntry) :
  List.length (searchBook lib w queryWords entry)
  = List.length
      (List.filter (chapterMatches lib w queryWords) (searchedChapters lib queryWords entry)).
Proof.
  destruct entry as [bookDir [| files]]; [reflexivity |].
  cbn [searchBook]. unfold searchedChapters. cbn [fst snd]. unfold isPdf.
  set (pdfFiles := List.filter _ files).
  set (cr := chapterRelevance lib queryWords bookDir).
  set (positive := fun c : ChapterRelevance => (0 <? metadataScore c)%Z).
  pose proof (jsSort_perm metadataScore (List.map cr pdfFiles)) as Hperm.
  change (descendingBy metadataScore)
    with (fun a b : ChapterRelevance => (metadataScore b - metadataScore a)%Z) in Hperm.
  set (sorted := jsSort _ _) in *.
  assert (Hsearched :
            (if existsb positive sorted then List.filter positive sorted else sorted)
            ≡ₚ List.map cr
                 (if existsb (fun f => positive (cr f)) pdfFiles
                  then List.filter (fun f => positive (cr f)) pdfFiles
                  else pdfFiles)).
  { rewrite (existsb_perm positive _ _ Hperm), existsb_map.
    destruct (existsb _ pdfFiles); [| exact Hperm].
    by rewrite (filter_perm positive _ _ Hperm), filter_map_comm. }
  rewrite (concat_map_length_perm _ _ _ Hsearched). clear Hsearched.
  subst positive. cbv beta.
  generalize (if existsb (fun f => (0 <? metadataScore (cr f))%Z) pdfFiles
              then List.filter (fun f => (0 <? metadataScore (cr f))%Z) pdfFiles
              else pdfFiles) as searched.
  induction searched as [| f searched IH]; [reflexivity |].
  cbn [List.map List.concat List.filter]. rewrite length_app, IH.
  unfold cr at 1. rewrite searchChapter_length.
  by destruct (chapterMatches lib w queryWords (bookDir, f)).
Qed.

(** As many results as matching chapters that pass the metadata gate. *)
Lemma searchResults_length (lib : Library) (w : World) (query : jsstring) :
  List.length (searchResults lib w query)
  = List.length (searchedMatchingChapters lib w (wordsOf query)).
Proof.
  unfold searchResults, searchedMatchingChapters.
  pose proof (jsSort_perm (fun r => maxScore (matches r))
                (List.concat (List.map (searchBook lib w (wordsOf query)) (bookDirs lib))))
    as Hperm.
  change (descendingBy _) with byBestMatchDescending in Hperm.
  rewrite (Permutation_length Hperm). clear Hperm.
  induction (bookDirs lib) as [| entry dirs IH]; [reflexivity |].
  cbn [List.map List.concat List.flat_map].
  rewrite List.filter_app, !length_app, IH. by rewrite searchBook_length.
Qed.

Lemma scored_matches (queryWords : list jsstring) (metadataScore : Z) (chunks : list Chunk) :
  Forall2 (fun m chunk =>
      source m = Some chunk
      /\ matchText m = text chunk
      /\ matchTopics m = topics chunk
      /\ score m = scoreChunk queryWords metadataScore chunk)
    (List.map (scored queryWords metadataScore) chunks) chunks.
Proof. induction chunks as [| chunk chunks IH]; constructor; [by repeat split | exact IH]. Qed.

(** What a result holds of its chapter. *)
Lemma searchResults_matches (lib : Library) (w : World) (query : jsstring)
    (r : SearchResult) :
  In r (searchResults lib w query) ->
  exists bookDir files cached,
    In (bookDir, Directory files) (bookDirs lib)
    /\ In (chapter r) files /\ isPdf (chapter r) = true
    /\ book r = bookDir
    /\ getCachedContent w (chapter r) = Some cached
    /\ resultMetadataScore r
       = metadataScore (chapterRelevance lib (wordsOf query) bookDir (chapter r))
    /\ match List.filter (chunkIsRelevant (wordsOf query)) (textChunks cached) with
       | [] =>
           (50 <= resultMetadataScore r)%Z
           /\ exists m, matches r = [m] /\ source m = None
                        /\ score m = resultMetadataScore r
       | relevant =>
           rankedMatches (wordsOf query) (resultMetadataScore r) relevant (matches r)
           /\ forall chunk, In chunk relevant ->
                (scoreChunk (wordsOf query) (resultMetadataScore r) chunk
                 <= maxScore (matches r))%Z
       end.
Proof.
  intros Hr.
  apply searchResults_In in Hr as ([bookDir [| files]] & Hentry & Hr); [done |].
  apply searchBook_spec in Hr as (f & cached & Hf & Hpdf & Hcached & Hne & _ & ->).
  set (c := chapterRelevance lib (wordsOf query) bookDir f) in *.
  assert (Hfile : file c = f) by apply chapterRelevance_file.
  exists bookDir, files, cached.
  cbn [chapterResult chapter book resultMetadataScore matches]. rewrite Hfile.
  split; [done |]. split; [done |]. split; [done |]. split; [done |].
  split; [done |]. split; [done |].
  pose proof (scoredMatchesOf_sorted (wordsOf query) c cached) as Hsorted.
  rewrite scoredMatchesOf_ranked in Hne, Hsorted |- *.
  destruct (List.filter (chunkIsRelevant (wordsOf query)) (textChunks cached))
    as [| chunk relevant] eqn:Hrel.
  - destruct (50 <=? metadataScore c)%Z eqn:Hfifty; [| done].
    apply Z.leb_le in Hfifty. split; [exact Hfifty |].
    by exists (placeholderMatch (metadataScore c) (metadata c)).
  - set (ranked := jsSort (descendingBy (scoreChunk (wordsOf query) (metadataScore c)))
                     (chunk :: relevant)) in *.
    pose proof (jsSort_perm (scoreChunk (wordsOf query) (metadataScore c))
                  (chunk :: relevant)) as Hperm.
    fold ranked in Hperm.
    split.
    + exists ranked. split; [exact Hperm |].
      split; [apply jsSort_sorted |].
      rewrite firstn_map. apply scored_matches.
    + intros chunk' Hchunk'.
      apply (maxScore_best _ (scored (wordsOf query) (metadataScore c) chunk') Hsorted).
      apply list_elem_of_In, in_map. by rewrite <- list_elem_of_In, Hperm, list_elem_of_In.
Qed.

End RankingMore.

(** C8, as amended.  For every search, each chapter result is of an
    extracted PDF file of a book directory and holds at most two matches,
    sorted by descending score: the two highest-scored of the chapter's
    relevant chunks, each with its score (or, when no chunk is relevant, the
    one placeholder of a metadata score of 50 or more), so that no relevant
    chunk scores higher than the best match kept.  The chapter results are
    sorted by descending best score, there are as many as matching chapters
    that the metadata gate lets through, and for a non-negative [maxResults]
    the results shown are the first [maxResults] of them, unless a citation
    throws.  With [maxResults = 2] and five matching chapters let through by
    the gate, exactly the first two are shown. *)
Theorem searchContent_ranking (rt : Runtime) (sectionHeading : Chunk -> option jsstring)
    (lib : Library) (w : World) (query : jsstring) (maxResults : Z) :
  (0 <= maxResults)%Z ->
  Forall (fun r =>
      (List.length (matches r) <= 2)%nat
      /\ StronglySorted (notBelow score) (matches r)
      /\ exists bookDir files cached,
           In (bookDir, Directory files) (bookDirs lib)
           /\ In (chapter r) files /\ isPdf (chapter r) = true
           /\ book r = bookDir
           /\ getCachedContent w (chapter r) = Some cached
           /\ resultMetadataScore r
              = metadataScore (chapterRelevance lib (wordsOf query) bookDir (chapter r))
           /\ match List.filter (chunkIsRelevant (wordsOf query)) (textChunks cached) with
              | [] =>
                  (50 <= resultMetadataScore r)%Z
                  /\ exists m, matches r = [m] /\ source m = None
                               /\ score m = resultMetadataScore r
              | relevant =>
                  rankedMatches (wordsOf query) (resultMetadataScore r) relevant (matches r)
                  /\ forall chunk, In chunk relevant ->
                       (scoreChunk (wordsOf query) (resultMetadataScore r) chunk
                        <= maxScore (matches r))%Z
              end)
    (searchResults lib w query)
  /\ StronglySorted (notBelow (fun r => maxScore (matches r))) (searchResults lib w query)
  /\ List.length (searchResults lib w query)
     = List.length (searchedMatchingChapters lib w (wordsOf query))
  /\ match searchContent sectionHeading lib w query maxResults with
     | None =>
         exists r, In r (firstn (Z.to_nat maxResults) (searchResults lib w query))
                   /\ isInherited (book r) = true
     | Some NoContentFound => searchResults lib w query = []
     | Some (SearchResults found shown) =>
         found = List.length (searchResults lib w query)
         /\ List.map fst shown = firstn (Z.to_nat maxResults) (searchResults lib w query)
         /\ (Z.of_nat (List.length shown) <= maxResults)%Z
     end
  /\ (List.length (searchedMatchingChapters lib w (wordsOf query)) = 5%nat ->
      match searchContent sectionHeading lib w query 2 with
      | None =>
          exists r, In r (firstn 2 (searchResults lib w query))
                    /\ isInherited (book r) = true
      | Some NoContentFound => False
      | Some (SearchResults found shown) =>
          found = 5%nat
          /\ List.length shown = 2%nat
          /\ List.map fst shown = firstn 2 (searchResults lib w query)
          /\ StronglySorted (notBelow (fun r => maxScore (matches r))) (List.map fst shown)
      end).
Proof.
  intros Hn.
  assert (Hshown : forall n : Z, (0 <= n)%Z ->
            match searchContent sectionHeading lib w query n with
            | None =>
                exists r, In r (firstn (Z.to_nat n) (searchResults lib w query))
                          /\ isInherited (book r) = true
            | Some NoContentFound => searchResults lib w query = []
            | Some (SearchResults found shown) =>
                found = List.length (searchResults lib w query)
                /\ List.map fst shown = firstn (Z.to_nat n) (searchResults lib w query)
            end).
  { intros n Hpos.
    pose proof (searchContent_spec sectionHeading lib w query n) as Hspec.
    rewrite (sliceFrom0_nonneg _ n Hpos) in Hspec.
    destruct (searchContent sectionHeading lib w query n) as [response |]; [| exact Hspec].
    destruct Hspec as [-> _].
    destruct (searchResults lib w query) as [| r rs] eqn:Hres; [done |].
    split; [done |]. rewrite map_map. simpl. rewrite map_id. by apply sliceFrom0_nonneg. }
  split; [| split; [| split; [| split]]].
  - apply List.Forall_forall. intros r Hr.
    pose proof Hr as Hr'. apply list_elem_of_In in Hr'.
    destruct (searchResults_fromChapter lib w query r Hr') as (c & cached & _ & Hm & _).
    pose proof (scoredMatchesOf_sorted (wordsOf query) c cached) as Hs.
    split; [rewrite Hm, length_firstn; lia |].
    split.
    + rewrite Hm. rewrite <- (take_drop 2 (scoredMatchesOf _ _ _)) in Hs.
      by apply StronglySorted_app_1_l in Hs.
    + by apply searchResults_matches.
  - apply searchResults_sorted.
  - apply searchResults_length.
  - specialize (Hshown maxResults Hn).
    destruct (searchContent sectionHeading lib w query maxResults) as [[| found shown] |];
      [exact Hshown | | exact Hshown].
    destruct Hshown as [Hf Hmap]. split; [done |]. split; [done |].
    rewrite <- (length_map fst shown), Hmap, length_firstn. lia.
  - intros Hfive. rewrite <- searchResults_length in Hfive.
    specialize (Hshown 2%Z ltac:(lia)).
    destruct (searchContent sectionHeading lib w query 2) as [[| found shown] |];
      [| | exact Hshown].
    + rewrite Hshown in Hfive. discriminate.
    + destruct Hshown as [-> Hmap]. split; [exact Hfive |]. split; [| split; [exact Hmap |]].
      * rewrite <- (length_map fst shown), Hmap, length_firstn, Hfive. reflexivity.
      * rewrite Hmap. pose proof (searchResults_sorted lib w query) as Hs.
        rewrite <- (take_drop 2 (searchResults lib w query)) in Hs.
        by apply StronglySorted_app_1_l in Hs.
Qed.

Example fiveChapters_ranked :
  List.map (fun r => (chapter r, maxScore (matches r)))
    (@searchResults basicLatin fiveChapters fiveChaptersWorld (js "rope"))
  = [ (js "d.pdf", 70%Z); (js "e.pdf", 60%Z); (js "b.pdf", 50%Z);
      (js "c.pdf", 40%Z); (js "a.pdf", 30%Z) ].
Proof. vm_compute. reflexivity. Qed.

(** Five matching chapters without metadata: the two with the most
    occurrences are shown. *)
Lemma searchContent_ranking_witness :
  List.length (@searchedMatchingChapters basicLatin fiveChapters fiveChaptersWorld
                 (@wordsOf basicLatin (js "rope"))) = 5%nat
  /\ match @searchContent basicLatin (fun _ => None) fiveChapters fiveChaptersWorld
             (js "rope") 2 with
     | Some (SearchResults found shown) =>
         found = 5%nat
         /\ List.length shown = 2%nat
         /\ List.map fst shown
            = firstn 2 (@searchResults basicLatin fiveChapters fiveChaptersWorld (js "rope"))
     | _ => False
     end.
Proof.
  assert (Hfive : List.length
                    (@searchedMatchingChapters basicLatin fiveChapters fiveChaptersWorld
                       (@wordsOf basicLatin (js "rope"))) = 5%nat)
    by (vm_compute; reflexivity).
  split; [exact Hfive |].
  pose proof (proj2 (proj2 (proj2 (proj2
                (searchContent_ranking basicLatin (fun _ => None) fiveChapters
                   fiveChaptersWorld (js "rope") 2 ltac:(lia))))) Hfive) as Hshown.
  destruct (@searchContent basicLatin (fun _ => None) fiveChapters fiveChaptersWorld
              (js "rope") 2) as [[| found shown] |] eqn:Hsearch.
  - exact Hshown.
  - destruct Hshown as (Hfound & Hlen & Hmap & _). by repeat split.
  - apply (f_equal (fun response => match response with
                                    | Some _ => true
                                    | None => false
                                    end)) in Hsearch.
    vm_compute in Hsearch. discriminate.
Defined.

(** C8 as stated fails where the metadata gate applies.  Five chapters of a
    book are extracted and match the query; the metadata of one of them
    list a query word as a keyword, so that only this chapter is searched:
    a search with [maxResults = 2] finds and shows one result, not two. *)
Lemma searchContent_gated_chapters :
  List.length (@matchingChapters basicLatin oneSidecar fiveChaptersWorld
                 (@wordsOf basicLatin (js "rope"))) = 5%nat
  /\ List.map (fun r => (chapter r, maxScore (matches r)))
       (@searchResults basicLatin oneSidecar fiveChaptersWorld (js "rope"))
     = [ (js "a.pdf", 80%Z) ]
  /\ match @searchContent basicLatin (fun _ => None) oneSidecar fiveChaptersWorld
             (js "rope") 2 with
     | Some (SearchResults found shown) => found = 1%nat /\ List.length shown = 1%nat
     | _ => False
     end.
Proof. vm_compute. repeat split; reflexivity. Qed.

(** ** Extracting a chapter and serving its text *)

Section ToolProperties.
Context {rt : Runtime}.

Lemma comprehensiveExtractPDF_returned (file : option PdfFile) (chapter now : jsstring)
    (w w' : World) (content : ExtractedContent) :
  comprehensiveExtractPDF file chapter now w = (Returned content, w') ->
  getCachedContent w' chapter = Some content
  /\ textChunks content
     = createPageAwareChunks (contentText content) (contentPageData content)
         (contentTotalPages content).
Proof.
  intros Hrun.
  pose proof (comprehensiveExtractPDF_files rt file chapter now w) as [_ Hfiles].
  rewrite Hrun in Hfiles. simpl in Hfiles. destruct Hfiles as [_ Hfiles].
  split; [unfold getCachedContent; rewrite Hfiles; apply lookup_insert_eq |].
  revert Hrun. unfold comprehensiveExtractPDF. destruct file as [pdf |]; [| discriminate].
  destruct (selectExtraction pdf w) as [[e | s] w1]; [| discriminate].
  destruct (createSearchIndex _ _) as [index |]; [| discriminate].
  destruct (writeCache _ _ _) as [[|] w2]; [| discriminate].
  by intros [= <- _].
Qed.

(** What an extraction that throws leaves of the cache. *)
Lemma comprehensiveExtractPDF_thrown (file : option PdfFile) (chapter now : jsstring)
    (w w' : World) (error : Failure) :
  comprehensiveExtractPDF file chapter now w = (Thrown error, w') ->
  (error <> WriteFileFailed -> extracted w' = extracted w)
  /\ (forall other, cacheFile other <> cacheFile chapter ->
        getCachedContent w' other = getCachedContent w other)
  /\ (error = WriteFileFailed ->
      match writeFile w (cacheFile chapter) with
      | Written => False
      | NotOpened => extracted w' = extracted w
      | Truncated => getCachedContent w' chapter = None
      end).
Proof.
  intros Hrun.
  pose proof (comprehensiveExtractPDF_files rt file chapter now w) as [_ Hfiles].
  rewrite Hrun in Hfiles. cbn [fst snd] in Hfiles. unfold getCachedContent.
  split; [| split].
  - intros Hne. by destruct error.
  - intros other Hother. destruct error; try by rewrite Hfiles.
    destruct (writeFile w (cacheFile chapter)); [done | by rewrite Hfiles |].
    rewrite Hfiles. by apply lookup_delete_ne.
  - intros ->. destruct (writeFile w (cacheFile chapter)); [done | done |].
    rewrite Hfiles. apply lookup_delete_eq.
Qed.

Lemma PathEntry_cases (entry : PathEntry) : entry = Missing \/ entry <> Missing.
Proof. destruct entry; [by left | by right | by right]. Qed.

Lemma extractChapterContent_present (entry : PathEntry) (bookName chapterName : jsstring)
    (forceReextract : bool) (now : jsstring) (w : World) :
  entry <> Missing ->
  extractChapterContent entry bookName chapterName forceReextract now w
  = match (if forceReextract then None else getCachedContent w chapterName) with
    | Some cached => (AlreadyExtracted cached, w)
    | None =>
        match comprehensiveExtractPDF (readFile entry) chapterName now w with
        | (Returned extractedContent, w') => (ExtractionCompleted extractedContent, w')
        | (Thrown error, w') => (ExtractionError (ExtractionFailed error), w')
        end
    end.
Proof. by destruct entry. Qed.

End ToolProperties.

(** X19. [extractChapterContent] changes the cache only when it completes
    or when the write of the cache file fails.  When it completes, the
    content is in the cache, and a further call without [forceReextract]
    answers that the content is already extracted, with that content and
    without any change.  With nothing at the path of the chapter it answers
    with an error, also for a cached chapter.  When the extraction fails
    before the write, the cache is as it was; when it fails at the write,
    the cache files at other paths are as they were, and the chapter's own
    is as it was or, once opened, can no longer be read. *)
Theorem extractChapterContent_effect (rt : Runtime) (entry : PathEntry)
    (bookName chapterName : jsstring) (forceReextract : bool) (now : jsstring) (w : World) :
  match extractChapterContent entry bookName chapterName forceReextract now w with
  | (ExtractionCompleted content, w') =>
      getCachedContent w' chapterName = Some content
      /\ (forceReextract = true \/ getCachedContent w chapterName = None)
      /\ forall later,
           extractChapterContent entry bookName chapterName false later w'
           = (AlreadyExtracted content, w')
  | (AlreadyExtracted cached, w') =>
      w' = w /\ forceReextract = false /\ getCachedContent w chapterName = Some cached
      /\ entry <> Missing
  | (ExtractionError AccessFailed, w') => w' = w /\ entry = Missing
  | (ExtractionError (ExtractionFailed error), w') =>
      entry <> Missing
      /\ (forceReextract = true \/ getCachedContent w chapterName = None)
      /\ (error <> WriteFileFailed -> extracted w' = extracted w)
      /\ (forall other, cacheFile other <> cacheFile chapterName ->
            getCachedContent w' other = getCachedContent w other)
      /\ (error = WriteFileFailed ->
          match writeFile w (cacheFile chapterName) with
          | Written => False
          | NotOpened => extracted w' = extracted w
          | Truncated => getCachedContent w' chapterName = None
          end)
  end.
Proof.
  destruct (PathEntry_cases entry) as [-> | Hpresent]; [by split |].
  rewrite (extractChapterContent_present entry bookName chapterName forceReextract now w
             Hpresent).
  destruct (if forceReextract then None else getCachedContent w chapterName)
    as [cached |] eqn:Hcached.
  - destruct forceReextract; [discriminate |]. by repeat split.
  - destruct (comprehensiveExtractPDF (readFile entry) chapterName now w)
      as [[content | error] w'] eqn:Hextract.
    + apply comprehensiveExtractPDF_returned in Hextract as [Hcache _].
      split; [exact Hcache |]. split; [destruct forceReextract; auto |].
      intros later.
      rewrite (extractChapterContent_present entry bookName chapterName false later w'
                 Hpresent).
      by rewrite Hcache.
    + apply comprehensiveExtractPDF_thrown in Hextract.
      split; [done |]. split; [destruct forceReextract; auto | exact Hextract].
Qed.

Section TextTool.
Context {rt : Runtime}.

(** A chapter in the cache is served from the cache, whatever stands at its
    path. *)
Lemma getChapterText_from_cache (entry : PathEntry) (bookName chapterName : jsstring)
    (startChars length : Z) (now : jsstring) (w : World) (cached : ExtractedContent) :
  getCachedContent w chapterName = Some cached ->
  contentText cached <> [] ->
  isInherited bookName = false ->
  exists fullCitation inlineCitation,
    getChapterText entry bookName chapterName startChars length false
      now w
    = (TextContent fullCitation inlineCitation
         (substring (reconstructText (contentText cached)) startChars
            (Z.min (startChars + length) (jslen (reconstructText (contentText cached)))))
         startChars
         (Z.min (startChars + length) (jslen (reconstructText (contentText cached))))
         (jslen (reconstructText (contentText cached)))
         (Z.min (startChars + length) (jslen (reconstructText (contentText cached)))
          <? jslen (reconstructText (contentText cached)))%Z,
       w).
Proof.
  intros Hcached Htext Hown. unfold getChapterText, cachedOrExtracted. rewrite Hcached.
  destruct (contentText cached) as [| c t] eqn:Hraw; [done |]. cbv zeta.
  destruct (formatCitation bookName chapterName _) as [fullCitation |] eqn:Hfull;
    [| apply formatCitation_None in Hfull; congruence].
  destruct (formatInlineCitation bookName chapterName) as [inlineCitation |] eqn:Hinline;
    [| apply formatInlineCitation_None in Hinline; congruence].
  by exists fullCitation, inlineCitation.
Qed.

End TextTool.

(** Two windows that follow each other make one window. *)
Lemma substring_next (t : jsstring) (a b c : Z) :
  (0 <= a <= b)%Z -> (b <= c)%Z -> (c <= jslen t)%Z ->
  substring t a b ++ substring t b c = substring t a c.
Proof.
  intros Hab Hbc Hc. rewrite !substring_within by lia.
  replace (Z.to_nat b) with (Z.to_nat a + Z.to_nat (b - a))%nat by lia.
  rewrite <- drop_drop, take_take_drop. f_equal. lia.
Qed.

Lemma substring_past_end (t : jsstring) (a : Z) :
  (jslen t <= a)%Z -> substring t a (jslen t) = [].
Proof.
  intros Ha. apply length_zero_iff_nil.
  pose proof (substring_length t a (jslen t)) as Hlen. pose proof (jslen_nonneg t).
  unfold clampIndex, jslen in *. lia.
Qed.

(** X20. A chapter in the cache is served page after page: for a start and
    two lengths that are not negative, the text served from the start with
    the first length, followed by the text served from the position
    [endChars] that response reports with the second length, is the text
    served from the start with the sum of the lengths, and both ways end at
    the same position.  The first text is no longer than the first length,
    and nothing is extracted or written. *)
Theorem getChapterText_paging (rt : Runtime) (entry : PathEntry)
    (bookName chapterName : jsstring) (startChars length1 length2 : Z) (now : jsstring)
    (w : World) (cached : ExtractedContent) :
  getCachedContent w chapterName = Some cached ->
  contentText cached <> [] ->
  isInherited bookName = false ->
  (0 <= startChars)%Z -> (0 <= length1)%Z -> (0 <= length2)%Z ->
  exists text1 end1 text2 end2,
    servedText (fst (getChapterText entry bookName chapterName
                       startChars length1 false now w)) = Some (text1, end1)
    /\ servedText (fst (getChapterText entry bookName chapterName
                          end1 length2 false now w)) = Some (text2, end2)
    /\ servedText (fst (getChapterText entry bookName chapterName
                          startChars (length1 + length2) false now w))
       = Some (text1 ++ text2, end2)
    /\ (jslen text1 <= length1)%Z
    /\ snd (getChapterText entry bookName chapterName
              startChars length1 false now w) = w.
Proof.
  intros Hcached Htext Hown Hstart Hlen1 Hlen2.
  set (t := reconstructText (contentText cached)).
  pose proof (jslen_nonneg t) as Ht.
  destruct (getChapterText_from_cache entry bookName chapterName
              startChars length1 now w cached Hcached Htext Hown) as (f1 & i1 & H1).
  destruct (getChapterText_from_cache entry bookName chapterName
              (Z.min (startChars + length1) (jslen t)) length2 now w cached
              Hcached Htext Hown) as (f2 & i2 & H2).
  destruct (getChapterText_from_cache entry bookName chapterName
              startChars (length1 + length2) now w cached Hcached Htext Hown)
    as (f12 & i12 & H12).
  fold t in H1, H2, H12.
  exists (substring t startChars (Z.min (startChars + length1) (jslen t))),
    (Z.min (startChars + length1) (jslen t)),
    (substring t (Z.min (startChars + length1) (jslen t))
       (Z.min (Z.min (startChars + length1) (jslen t) + length2) (jslen t))),
    (Z.min (Z.min (startChars + length1) (jslen t) + length2) (jslen t)).
  rewrite H1, H2, H12. cbn [fst snd servedText].
  split; [reflexivity |]. split; [reflexivity |].
  assert (Hend : Z.min (startChars + (length1 + length2)) (jslen t)
                 = Z.min (Z.min (startChars + length1) (jslen t) + length2) (jslen t))
    by lia.
  split; [| split; [| reflexivity]].
  - rewrite Hend. f_equal. f_equal.
    destruct (Z.le_gt_cases startChars (jslen t)) as [Hin | Hout].
    + symmetry. apply substring_next; lia.
    + replace (Z.min (startChars + length1) (jslen t)) with (jslen t) by lia.
      replace (Z.min (jslen t + length2) (jslen t)) with (jslen t) by lia.
      rewrite (substring_past_end t startChars) by lia.
      rewrite (substring_past_end t (jslen t)) by lia. reflexivity.
  - rewrite substring_length. unfold clampIndex. lia.
Qed.

Lemma getChapterText_paging_witness :
  exists text1 end1 text2 end2,
    servedText (fst (@getChapterText basicLatin Missing (js "Ropes")
                       (js "b.pdf") 0 5 false (js "now") fiveChaptersWorld))
    = Some (text1, end1)
    /\ servedText (fst (@getChapterText basicLatin Missing (js "Ropes")
                          (js "b.pdf") end1 4 false (js "now") fiveChaptersWorld))
       = Some (text2, end2)
    /\ servedText (fst (@getChapterText basicLatin Missing (js "Ropes")
                          (js "b.pdf") 0 (5 + 4) false (js "now") fiveChaptersWorld))
       = Some (text1 ++ text2, end2)
    /\ (jslen text1 <= 5)%Z
    /\ snd (@getChapterText basicLatin Missing (js "Ropes")
              (js "b.pdf") 0 5 false (js "now") fiveChaptersWorld) = fiveChaptersWorld.
Proof.
  apply (getChapterText_paging basicLatin Missing (js "Ropes") (js "b.pdf")
           0 5 4 (js "now") fiveChaptersWorld (ropesChapter "b.pdf" 3)).
  - vm_compute. reflexivity.
  - discriminate.
  - vm_compute. reflexivity.
  - lia.
  - lia.
  - lia.
Defined.

(** X21. Where the cached text is already clean, the text served is a window
    of the cached text itself: the reconstruction that [getChapterText]
    runs once more changes nothing then. *)
Theorem getChapterText_clean_cache (rt : Runtime) (entry : PathEntry)
    (bookName chapterName : jsstring) (startChars length : Z) (now : jsstring)
    (w : World) (cached : ExtractedContent) :
  getCachedContent w chapterName = Some cached ->
  contentText cached <> [] ->
  isInherited bookName = false ->
  alreadyClean (contentText cached) = true ->
  servedText (fst (getChapterText entry bookName chapterName
                     startChars length false now w))
  = Some (substring (contentText cached) startChars
            (Z.min (startChars + length) (jslen (contentText cached))),
          Z.min (startChars + length) (jslen (contentText cached))).
Proof.
  intros Hcached Htext Hown Hclean.
  destruct (getChapterText_from_cache entry bookName chapterName
              startChars length now w cached Hcached Htext Hown) as (f & i & ->).
  by rewrite (reconstructText_alreadyClean _ Hclean).
Qed.

Lemma getChapterText_clean_cache_witness :
  servedText (fst (@getChapterText basicLatin Missing (js "Anchors")
                     (js "anchors.pdf") 4 6 false (js "now") anchorWorld))
  = Some (js "SERENE", 10%Z).
Proof.
  refine (eq_trans
            (getChapterText_clean_cache basicLatin Missing (js "Anchors")
               (js "anchors.pdf") 4 6 (js "now") anchorWorld anchorChapter _ _ _ _) _).
  - vm_compute. reflexivity.
  - discriminate.
  - vm_compute. reflexivity.
  - vm_compute. reflexivity.
  - vm_compute. reflexivity.
Defined.

Section Composition.
Context {rt : Runtime}.

(** What [getChapterText] serves from is the cache as [extractChapterContent]
    leaves it. *)
Lemma cachedOrExtracted_spec (entry : PathEntry) (bookName chapterName : jsstring)
    (forceReextract : bool) (now : jsstring) (w : World) :
  match extractChapterContent entry bookName chapterName forceReextract now w with
  | (ExtractionCompleted content, w') =>
      cachedOrExtracted entry chapterName forceReextract now w = (inr content, w')
      /\ cachedOrExtracted entry chapterName false now w' = (inr content, w')
  | (ExtractionError (ExtractionFailed error), w') =>
      cachedOrExtracted entry chapterName forceReextract now w
      = (inl (ExtractionFailed error), w')
  | (ExtractionError AccessFailed, _) =>
      forceReextract = true \/ getCachedContent w chapterName = None ->
      cachedOrExtracted entry chapterName forceReextract now w = (inl AccessFailed, w)
  | (AlreadyExtracted cached, _) =>
      cachedOrExtracted entry chapterName forceReextract now w = (inr cached, w)
  end.
Proof.
  unfold cachedOrExtracted.
  destruct (PathEntry_cases entry) as [-> | Hpresent].
  - cbn [extractChapterContent]. intros [-> | ->]; [reflexivity | by destruct forceReextract].
  - rewrite (extractChapterContent_present entry bookName chapterName forceReextract now w
               Hpresent).
    destruct (if forceReextract then None else getCachedContent w chapterName)
      as [cached |] eqn:Hcached; [reflexivity |].
    destruct (comprehensiveExtractPDF (readFile entry) chapterName now w)
      as [[content | error] w'] eqn:Hextract.
    + apply comprehensiveExtractPDF_returned in Hextract as [Hcache _].
      rewrite Hcache. by destruct entry.
    + by destruct entry.
Qed.

Lemma createPageAwareChunks_windows (fullText : jsstring) (pageData : gmap Z jsstring)
    (totalPages : option Z) (c : Chunk) :
  In c (createPageAwareChunks fullText pageData totalPages) ->
  (0 <= startChar c < endChar c)%Z /\ (endChar c <= jslen fullText)%Z
  /\ text c = substring fullText (startChar c) (endChar c)
  /\ topics c = extractTopics (text c).
Proof.
  unfold createPageAwareChunks.
  destruct (chunkLoop_spec fullText (createCharToPageMap fullText pageData) totalPages
              EXTRACTION_CONFIG_CHUNK_SIZE ltac:(reflexivity)
              (List.length fullText) 0%Z [])
    as (fresh & -> & _ & _ & Hk).
  - lia.
  - unfold EXTRACTION_CONFIG_CHUNK_SIZE, jslen. lia.
  - rewrite app_nil_l. unfold EXTRACTION_CONFIG_CHUNK_SIZE in *.
    intros Hin. apply list_elem_of_In, list_elem_of_lookup in Hin as [k Hc].
    destruct (Hk k c Hc) as (_ & Htxt & Hlt & ->).
    unfold makeChunk in *. simpl in *. repeat split; try lia. exact Htxt.
Qed.

End Composition.

(** X22. [getChapterText] on a chapter that has to be extracted behaves as
    [extractChapterContent] followed by [getChapterText] on the cache: where
    the one completes, the other serves the same response as it does from
    the cache left behind, and leaves that cache; where the one fails in the
    extraction, the other answers with the same error. *)
Theorem getChapterText_extracts (rt : Runtime) (entry : PathEntry)
    (bookName chapterName : jsstring) (startChars length : Z) (forceReextract : bool)
    (now : jsstring) (w : World) :
  match extractChapterContent entry bookName chapterName forceReextract now w with
  | (ExtractionCompleted content, w') =>
      getChapterText entry bookName chapterName startChars length
        forceReextract now w
      = getChapterText entry bookName chapterName startChars length
          false now w'
      /\ snd (getChapterText entry bookName chapterName startChars
                length forceReextract now w) = w'
  | (ExtractionError (ExtractionFailed error), w') =>
      getChapterText entry bookName chapterName startChars length
        forceReextract now w
      = (TextExtractionError (ExtractionFailed error), w')
  | (ExtractionError AccessFailed, _) =>
      forceReextract = true \/ getCachedContent w chapterName = None ->
      getChapterText entry bookName chapterName startChars length
        forceReextract now w
      = (TextExtractionError AccessFailed, w)
  | (AlreadyExtracted cached, _) =>
      snd (getChapterText entry bookName chapterName startChars
             length forceReextract now w) = w
  end.
Proof.
  pose proof (cachedOrExtracted_spec entry bookName chapterName forceReextract now w)
    as Hspec.
  unfold getChapterText.
  destruct (extractChapterContent entry bookName chapterName forceReextract now w)
    as [[cached | content | [| error]] w'].
  - rewrite Hspec. cbv zeta. by repeat case_match.
  - destruct Hspec as [-> ->]. split; [reflexivity |]. cbv zeta. by repeat case_match.
  - intros Hneeded. by rewrite (Hspec Hneeded).
  - by rewrite Hspec.
Qed.

(** X23. After an extraction that completes, the section tool finds the
    chapter extracted, and every chunk it returns is a window of the
    extracted text: it lies within the text, carries the characters between
    its bounds and the topics of its own text, and is relevant to the
    topic.  It answers with the error of its [catch] block only for a book
    name that names an inherited property. *)
Theorem extracted_sections_are_windows (rt : Runtime)
    (sectionHeading : Chunk -> option jsstring) (entry : PathEntry)
    (bookName chapterName : jsstring) (forceReextract : bool) (now : jsstring)
    (w w' : World) (content : ExtractedContent) (sectionTopic contextLevel : jsstring) :
  extractChapterContent entry bookName chapterName forceReextract now w
  = (ExtractionCompleted content, w') ->
  match getChapterSection sectionHeading w' bookName chapterName sectionTopic
          contextLevel with
  | None => isInherited bookName = true
  | Some NotExtracted => False
  | Some NoSectionFound =>
      Forall (fun chunk => chunkIsRelevant (wordsOf sectionTopic) chunk = false)
        (textChunks content)
  | Some (Sections chunks) =>
      Forall (fun chunk =>
          chunkIsRelevant (wordsOf sectionTopic) chunk = true
          /\ (0 <= startChar chunk < endChar chunk)%Z
          /\ (endChar chunk <= jslen (contentText content))%Z
          /\ text chunk = substring (contentText content) (startChar chunk) (endChar chunk)
          /\ topics chunk = extractTopics (text chunk))
        chunks
  end.
Proof.
  intros Hextract.
  assert (Hcontent : getCachedContent w' chapterName = Some content
                     /\ textChunks content
                        = createPageAwareChunks (contentText content)
                            (contentPageData content) (contentTotalPages content)).
  { destruct (PathEntry_cases entry) as [-> | Hpresent]; [discriminate |].
    rewrite (extractChapterContent_present entry bookName chapterName forceReextract now w
               Hpresent) in Hextract.
    destruct (if forceReextract then None else getCachedContent w chapterName);
      [discriminate |].
    destruct (comprehensiveExtractPDF (readFile entry) chapterName now w)
      as [[content' | error] w''] eqn:Hrun; [| discriminate].
    injection Hextract as -> ->. by apply comprehensiveExtractPDF_returned in Hrun. }
  destruct Hcontent as [Hcache Hchunks].
  pose proof (getChapterSection_spec sectionHeading w' bookName chapterName sectionTopic
                contextLevel) as Hprefix.
  destruct (getChapterSection sectionHeading w' bookName chapterName sectionTopic
              contextLevel) as [[| | chunks] |]; [| | | by destruct Hprefix].
  - congruence.
  - destruct Hprefix as (cached & Hcached & Hnone). congruence.
  - destruct Hprefix as (_ & cached & rest & Hcached & _ & Hrel & _).
    assert (cached = content) as -> by congruence.
    apply List.Forall_forall. intros chunk Hchunk.
    assert (Hin : In chunk (List.filter (chunkIsRelevant (wordsOf sectionTopic))
                              (textChunks content))).
    { rewrite Hrel. apply in_or_app. by left. }
    apply filter_In in Hin as [Hin Hrelevant]. split; [exact Hrelevant |].
    rewrite Hchunks in Hin. apply createPageAwareChunks_windows in Hin.
    exact Hin.
Qed.

Lemma extracted_sections_are_windows_witness :
  match fst (@extractChapterContent basicLatin (PdfAt onePagePdf) (js "Book") (js "a.pdf")
               false (js "now") emptyWorld) with
  | ExtractionCompleted content =>
      match @getChapterSection basicLatin (fun _ => None)
              (snd (@extractChapterContent basicLatin (PdfAt onePagePdf) (js "Book")
                      (js "a.pdf") false (js "now") emptyWorld))
              (js "Book") (js "a.pdf") (js "aaaa") (js "brief") with
      | Some (Sections chunks) =>
          Forall (fun chunk =>
              text chunk = substring (contentText content) (startChar chunk) (endChar chunk))
            chunks
      | _ => False
      end
  | _ => False
  end.
Proof.
  destruct (@extractChapterContent basicLatin (PdfAt onePagePdf) (js "Book") (js "a.pdf")
              false (js "now") emptyWorld) as [[cached | content | error] w'] eqn:Hrun;
    cbn [fst snd].
  - apply (f_equal (fun run => match fst run with
                               | ExtractionCompleted _ => true
                               | _ => false
                               end)) in Hrun.
    vm_compute in Hrun. discriminate.
  - pose proof (extracted_sections_are_windows basicLatin (fun _ => None)
                  (PdfAt onePagePdf) (js "Book") (js "a.pdf") false (js "now") emptyWorld
                  w' content (js "aaaa") (js "brief") Hrun) as Hsections.
    destruct (@getChapterSection basicLatin (fun _ => None) w' (js "Book") (js "a.pdf")
                (js "aaaa") (js "brief")) as [[| | chunks] |] eqn:Hsection.
    + exact Hsections.
    + exfalso. apply (f_equal snd) in Hrun. cbn [snd] in Hrun. subst w'.
      apply (f_equal (fun response => match response with
                                      | Some (Sections _) => true
                                      | _ => false
                                      end)) in Hsection.
      vm_compute in Hsection. discriminate.
    + eapply Forall_impl; [exact Hsections |]. intros chunk (_ & _ & _ & Htext & _).
      exact Htext.
    + discriminate Hsections.
  - apply (f_equal (fun run => match fst run with
                               | ExtractionCompleted _ => true
                               | _ => false
                               end)) in Hrun.
    vm_compute in Hrun. discriminate.
Defined.

(** ** Page references *)

Lemma hitIndices_scanGo (re : regex) (s : jsstring) : forall (skip : nat) (base : Z),
  (skip <= List.length s)%nat ->
  Forall (fun index =>
      exists k : nat, index = (base + Z.of_nat k)%Z /\ (skip <= k <= List.length s)%nat
                      /\ is_Some (matchHere re (skipn k s)))
    (hitIndices (scanGo re s skip) (base + Z.of_nat skip)).
Proof.
  induction s as [| c s IH]; intros skip base Hskip.
  - assert (skip = 0%nat) as -> by (simpl in Hskip; lia). cbn [scanGo].
    destruct (matchHere re []) as [[pieces rest] |] eqn:Hm; [| constructor].
    cbn [hitIndices]. constructor; [| constructor].
    exists 0%nat. split; [done |]. split; [simpl; lia |]. cbn [skipn]. by rewrite Hm.
  - assert (Hshift : forall skip' base',
              (skip' <= List.length s)%nat -> (base' = base + 1)%Z ->
              Forall (fun index =>
                  exists k : nat, index = (base + Z.of_nat k)%Z
                                  /\ (skip <= k <= List.length (c :: s))%nat
                                  /\ is_Some (matchHere re (skipn k (c :: s))))
                (hitIndices (scanGo re s skip') (base' + Z.of_nat skip')) \/ (S skip' < skip)%nat).
    { intros skip' base' Hskip' ->.
      destruct (le_lt_dec skip (S skip')) as [Hle | Hlt]; [left | by right].
      eapply Forall_impl; [apply (IH skip' (base + 1)%Z Hskip') |].
      intros index (k & -> & Hk & Hmatch). exists (S k).
      split; [lia |]. split; [simpl; lia | exact Hmatch]. }
    cbn [scanGo]. destruct skip as [| skip].
    + destruct (matchHere re (c :: s)) as [[pieces rest] |] eqn:Hm.
      * pose proof (matchHere_sound re _ _ _ Hm) as Hsound.
        assert (Hlen : (List.length (c :: s) - List.length rest)%nat
                       = List.length (List.concat pieces)).
        { rewrite <- Hsound, length_app. lia. }
        assert (Hfits : (List.length (List.concat pieces) <= List.length (c :: s))%nat).
        { rewrite <- Hsound, length_app. lia. }
        assert (Hhere : exists k : nat,
                  (base + Z.of_nat 0)%Z = (base + Z.of_nat k)%Z
                  /\ (0 <= k <= List.length (c :: s))%nat
                  /\ is_Some (matchHere re (skipn k (c :: s)))).
        { exists 0%nat. split; [done |]. split; [simpl; lia |]. cbn [skipn]. by rewrite Hm. }
        rewrite Hlen. destruct (List.length (List.concat pieces)) as [| n] eqn:Hn;
          cbn [hitIndices]; unfold jslen; rewrite Hn.
        -- constructor; [exact Hhere |].
           destruct (Hshift 0%nat (base + 1)%Z ltac:(lia) eq_refl) as [Hrest | Habs]; [| lia].
           replace (base + Z.of_nat 0 + Z.of_nat 0 + 1)%Z with (base + 1 + Z.of_nat 0)%Z by lia.
           exact Hrest.
        -- constructor; [exact Hhere |].
           destruct (Hshift n (base + 1)%Z ltac:(simpl in Hfits; lia) eq_refl)
             as [Hrest | Habs]; [| lia].
           replace (base + Z.of_nat 0 + Z.of_nat (S n))%Z with (base + 1 + Z.of_nat n)%Z by lia.
           exact Hrest.
      * cbn [hitIndices].
        destruct (Hshift 0%nat (base + 1)%Z ltac:(lia) eq_refl) as [Hrest | Habs]; [| lia].
        replace (base + Z.of_nat 0 + 1)%Z with (base + 1 + Z.of_nat 0)%Z by lia.
        exact Hrest.
    + destruct (Hshift skip (base + 1)%Z ltac:(simpl in Hskip; lia) eq_refl)
        as [Hrest | Habs]; [| lia].
      replace (base + Z.of_nat (S skip))%Z with (base + 1 + Z.of_nat skip)%Z by lia.
      exact Hrest.
Qed.

Lemma matchHere_literalI (w s : jsstring) (r : list jsstring * jsstring) :
  matchHere (literalI w) s = Some r ->
  exists found, s = found ++ snd r /\ Forall2 (fun c d => sameLetter c d = true) w found.
Proof.
  revert s r. induction w as [| c w IH]; intros s r.
  - intros [= <-]. exists []. by split; [| constructor].
  - cbn [literalI List.map matchHere matchItem one]. fold (literalI w).
    destruct s as [| d s]; [discriminate |]. destruct (sameLetter c d) eqn:Hcd; [| discriminate].
    unfold withPiece.
    destruct (matchHere (literalI w) s) as [[pieces rest] |] eqn:Hm; [| discriminate].
    intros [= <-]. destruct (IH s _ Hm) as (found & Hs & Hfound). cbn [snd] in *.
    exists (d :: found). split; [by rewrite Hs | by constructor].
Qed.

Lemma hitIndices_length (segments : list segment) : forall index,
  List.length (hitIndices segments index) = List.length (List.filter isHit segments).
Proof.
  induction segments as [| [c | pieces] rest IH]; intros index; cbn [hitIndices List.filter isHit];
    [reflexivity | apply IH |]. cbn [List.length]. f_equal. apply IH.
Qed.

(** X24. Each page reference of a text names one of the topics of the text
    and quotes at most 100 code units of it: the window from 50 before to 50
    after an index at which the term stands in the text, in whatever case.
    The references of a term are as many as the matches of the term in the
    text. *)
Theorem extractPageReferences_contexts (rt : Runtime) (text : jsstring) (startPage : Z)
    (endPage : option Z) :
  Forall (fun reference =>
      In (term reference) (extractTopics text)
      /\ (jslen (context reference) <= 100)%Z
      /\ exists index,
           standsAt (term reference) text index
           /\ context reference = substring text (Z.max 0 (index - 50)) (index + 50))
    (extractPageReferences text startPage endPage)
  /\ List.length (extractPageReferences text startPage endPage)
     = list_sum (List.map (fun keyTerm => countMatches (literalI keyTerm) text)
                   (extractTopics text)).
Proof.
  unfold extractPageReferences. split.
  - apply List.Forall_forall. intros reference Hin.
    apply in_flat_map in Hin as (keyTerm & Hterm & Hin).
    apply in_map_iff in Hin as (index & <- & Hindex). cbn [term context].
    pose proof (hitIndices_scanGo (literalI keyTerm) text 0 0 ltac:(lia)) as Hall.
    rewrite List.Forall_forall in Hall. specialize (Hall index Hindex).
    destruct Hall as (k & -> & Hk & [r Hmatch]).
    split; [exact Hterm |]. split.
    + rewrite substring_length. unfold clampIndex. pose proof (jslen_nonneg text). lia.
    + exists (0 + Z.of_nat k)%Z. split; [| reflexivity].
      destruct (matchHere_literalI _ _ _ Hmatch) as (found & Hfound & Hsame).
      exists (firstn k text), found, (snd r). split; [| split; [| exact Hsame]].
      * by rewrite <- Hfound, firstn_skipn.
      * unfold jslen. rewrite length_firstn. lia.
  - induction (extractTopics text) as [| keyTerm terms IH]; [reflexivity |].
    cbn [List.flat_map List.map list_sum fold_right]. rewrite length_app, IH, length_map.
    unfold matchIndices, countMatches at 2. by rewrite hitIndices_length.
Qed.

(** ** Section headings *)

Lemma trimStart_spaces (s : jsstring) :
  exists pre, s = pre ++ trimStart s /\ forallb isSpace pre = true.
Proof.
  induction s as [| c s (pre & IH & Hpre)]; [by exists [] |]. cbn [trimStart].
  destruct (isSpace c) eqn:Hc; [| by exists []].
  exists (c :: pre). cbn [app forallb]. rewrite Hc, Hpre. split; [by f_equal | done].
Qed.

(** Trimming a string that starts with a character other than whitespace
    leaves its first character in place. *)
Lemma trim_keeps_head (c : N) (s : jsstring) :
  isSpace c = false -> exists t, trim (c :: s) = c :: t.
Proof.
  intros Hc. unfold trim. cbn [trimStart]. rewrite Hc. unfold trimEnd.
  destruct (trimStart_spaces (reverse (c :: s))) as (pre & Hrev & Hpre).
  destruct (reverse (trimStart (reverse (c :: s)))) as [| d t] eqn:Hkept.
  - exfalso. apply (f_equal reverse) in Hkept. rewrite reverse_involutive in Hkept.
    rewrite Hkept, reverse_nil, app_nil_r in Hrev.
    rewrite forallb_forall in Hpre. specialize (Hpre c).
    rewrite Hpre in Hc; [done |]. rewrite <- Hrev.
    apply list_elem_of_In, elem_of_reverse. by left.
  - exists t. apply (f_equal reverse) in Hrev.
    rewrite reverse_involutive, reverse_app, Hkept in Hrev. by injection Hrev as <- _.
Qed.

Lemma isUpper_not_space (c : N) : isUpper c = true -> isSpace c = false.
Proof.
  unfold isUpper, inRange. intros [Hlo Hhi]%andb_prop.
  apply N.leb_le in Hlo. apply N.leb_le in Hhi.
  destruct (isSpace c) eqn:Hspace; [exfalso | done].
  unfold isSpace, inRange in Hspace.
  rewrite !orb_true_iff, !andb_true_iff, !N.leb_le, !N.eqb_eq in Hspace. lia.
Qed.

Lemma tryRun_piece k (n : nat) (s : jsstring) pieces rest : forall extra,
  tryRun k n extra s = Some (pieces, rest) ->
  exists j ps, pieces = firstn (n + j) s :: ps.
Proof.
  induction extra as [| extra IH]; cbn [tryRun]; unfold withPiece.
  - destruct (k (skipn (n + 0) s)) as [[ps out] |]; [| discriminate].
    intros [= <- <-]. by exists 0%nat, ps.
  - destruct (k (skipn (n + S extra) s)) as [[ps out] |]; [| exact IH].
    intros [= <- <-]. by exists (S extra), ps.
Qed.

Lemma tryAlts_piece k (alts : list jsstring) (s : jsstring) pieces rest :
  tryAlts k alts s = Some (pieces, rest) -> exists a ps, pieces = a :: ps /\ In a alts.
Proof.
  induction alts as [| a alts IH]; cbn [tryAlts]; [discriminate |].
  assert (Hnext : tryAlts k alts s = Some (pieces, rest) ->
                  exists a' ps, pieces = a' :: ps /\ In a' (a :: alts)).
  { intros Hm. destruct (IH Hm) as (a' & ps & -> & Hin). exists a', ps. split; [done | by right]. }
  destruct (startsWith a s); [| exact Hnext]. unfold withPiece.
  destruct (k (skipn (List.length a) s)) as [[ps out] |]; [| exact Hnext].
  intros [= <- <-]. exists a, ps. split; [done | by left].
Qed.

(** Whatever a heading pattern matches starts with a capital letter or a
    digit. *)
Lemma headingPatterns_first (pattern : regex) (group : nat) (s : jsstring) pieces rest :
  In (pattern, group) headingPatterns ->
  matchToLineEnd pattern s = Some (pieces, rest) ->
  exists c p, List.concat (firstn group pieces) = c :: p /\ (isUpper c || isDigit c) = true.
Proof.
  unfold headingPatterns.
  intros [[= <- <-] | [[= <- <-] | [[= <- <-] | [[= <- <-] | []]]]];
    cbn [matchToLineEnd matchItem one plus atLeast oneOf].
  - destruct s as [| c s]; [discriminate |]. destruct (isUpper c) eqn:Hc; [| discriminate].
    unfold withPiece at 1. destruct (matchItem _ _ s) as [[ps out] |]; [| discriminate].
    intros [= <- <-]. destruct ps as [| p1 ps]; eexists c, _; (split; [reflexivity |]);
      by rewrite Hc.
  - destruct s as [| c s]; [discriminate |]. destruct (isUpper c) eqn:Hc; [| discriminate].
    unfold withPiece at 1. destruct (matchItem _ _ s) as [[ps out] |]; [| discriminate].
    intros [= <- <-]. destruct ps as [| p1 ps]; eexists c, _; (split; [reflexivity |]);
      by rewrite Hc.
  - destruct (runLength isDigit s <? 1)%nat eqn:Hrun; [discriminate |].
    apply Nat.ltb_ge in Hrun. intros Hm.
    destruct (tryRun_piece _ _ _ _ _ _ Hm) as (j & ps & ->).
    destruct s as [| c s]; [simpl in Hrun; lia |]. cbn [runLength] in Hrun.
    destruct (isDigit c) eqn:Hc; [| lia].
    exists c, (firstn j s ++ List.concat (firstn 4 ps)). split; [reflexivity |].
    by rewrite Hc, orb_true_r.
  - intros Hm. destruct (tryAlts_piece _ _ _ _ _ Hm) as (a & ps & -> & Hin).
    cbn [List.map] in Hin.
    destruct Hin as [<- | [<- | [<- | [<- | [<- | []]]]]];
      eexists _, _; (split; [reflexivity | reflexivity]).
Qed.

Lemma atLineEnd_sound : soundMatcher atLineEnd.
Proof.
  intros [| c s] pieces rest; cbn [atLineEnd]; [by intros [= <- <-] |].
  destruct (isLineTerminator c); [by intros [= <- <-] | discriminate].
Qed.

Lemma matchToLineEnd_sound (re : regex) : soundMatcher (matchToLineEnd re).
Proof.
  induction re as [| it re IH]; [apply atLineEnd_sound |]. by apply matchItem_sound.
Qed.

Lemma searchLines_found (re : regex) (s : jsstring) : forall atLineStart pieces rest,
  searchLines re s atLineStart = Some (pieces, rest) ->
  exists before s',
    s = before ++ s' /\ matchToLineEnd re s' = Some (pieces, rest).
Proof.
  induction s as [| c s IH]; intros atLineStart pieces rest; cbn [searchLines].
  - destruct atLineStart; [| discriminate].
    destruct (matchToLineEnd re []) as [r |] eqn:Hm; [| discriminate].
    intros [= ->]. by exists [], [].
  - assert (Hnext : searchLines re s (isLineTerminator c) = Some (pieces, rest) ->
                    exists before s',
                      c :: s = before ++ s' /\ matchToLineEnd re s' = Some (pieces, rest)).
    { intros Hm. destruct (IH _ _ _ Hm) as (before & s' & -> & Hs').
      by exists (c :: before), s'. }
    destruct atLineStart; [| exact Hnext].
    destruct (matchToLineEnd re (c :: s)) as [r |] eqn:Hm; [| exact Hnext].
    intros [= ->]. by exists [], (c :: s).
Qed.

Lemma trim_part (s : jsstring) : exists pre post, s = pre ++ trim s ++ post.
Proof.
  unfold trim. destruct (trimStart_suffix s) as [pre Hpre].
  destruct (trimEnd_prefix (trimStart s)) as [post Hpost].
  exists pre, post. by rewrite <- Hpost.
Qed.

Lemma firstHeadingMatch_spec (text : jsstring) (heading : jsstring) :
  forall patterns,
  (forall pr, In pr patterns -> In pr headingPatterns) ->
  firstHeadingMatch patterns text = Some heading ->
  (exists c t, heading = c :: t /\ (isUpper c || isDigit c) = true)
  /\ edgesClean heading
  /\ exists before after, text = before ++ heading ++ after.
Proof.
  induction patterns as [| [pattern group] patterns IH]; intros Hsub; [discriminate |].
  cbn [firstHeadingMatch].
  destruct (searchLines pattern text true) as [[pieces rest] |] eqn:Hsearch.
  - intros [= <-].
    destruct (searchLines_found _ _ _ _ _ Hsearch) as (before & s' & -> & Hm).
    destruct (headingPatterns_first pattern group s' pieces rest
                (Hsub _ (or_introl eq_refl)) Hm) as (c & p & Hgroup & Hc).
    split; [| split; [apply trim_edgesClean |]].
    + rewrite Hgroup. destruct (trim_keeps_head c p) as [t Ht].
      * apply orb_prop in Hc as [Hc | Hc];
          [by apply isUpper_not_space | by apply isDigit_not_space].
      * by exists c, t.
    + pose proof (matchToLineEnd_sound pattern _ _ _ Hm) as Hsound.
      rewrite <- (firstn_skipn group pieces), concat_app in Hsound.
      destruct (trim_part (List.concat (firstn group pieces))) as (pre & post & Htrim).
      exists (before ++ pre), (post ++ List.concat (skipn group pieces) ++ rest).
      rewrite <- Hsound. rewrite Htrim at 1. by rewrite <- !app_assoc.
  - apply IH. intros pr Hpr. apply Hsub. by right.
Qed.

Lemma commonSections_headings :
  Forall (fun section =>
      exists c t, join (js " ") (List.map capitalize (splitOn 32 section)) = c :: t
                  /\ (isUpper c || isDigit c) = true
                  /\ edgesClean (c :: t))
    commonSections.
Proof.
  unfold commonSections. cbn [List.map].
  repeat (constructor;
          [eexists _, _; split; [vm_compute; reflexivity |];
           split; [reflexivity |];
           split; intros c Hc; vm_compute in Hc; injection Hc as <-; reflexivity |]).
  constructor.
Qed.

(** X25. A section heading, when one is detected, is not empty, starts with
    a capital letter or a digit and has no whitespace at either end.  It is
    either a part of the text, or one of the known section names in
    capitals, the lower-cased text holding that name. *)
Theorem detectSectionHeading_heading (rt : Runtime) (text heading : jsstring) :
  detectSectionHeading text = Some heading ->
  (exists c t, heading = c :: t /\ (isUpper c || isDigit c) = true)
  /\ edgesClean heading
  /\ ((exists before after, text = before ++ heading ++ after)
      \/ (exists section,
            In section commonSections
            /\ includes (toLowerCase text) section = true
            /\ heading = join (js " ") (List.map capitalize (splitOn 32 section)))).
Proof.
  unfold detectSectionHeading.
  destruct (firstHeadingMatch headingPatterns text) as [found |] eqn:Hfound.
  - intros [= <-].
    destruct (firstHeadingMatch_spec text found headingPatterns ltac:(auto) Hfound)
      as (Hhead & Hclean & Hpart).
    split; [exact Hhead |]. split; [exact Hclean | by left].
  - clear Hfound. pose proof commonSections_headings as Hall. revert Hall.
    assert (Hsub : forall section, In section commonSections -> In section commonSections)
      by auto.
    revert Hsub. generalize commonSections at 1 3 4 as sections.
    induction sections as [| section sections IH]; intros Hsub Hall; [discriminate |].
    apply Forall_cons in Hall as [(c & t & Hshape & Hc & Hclean) Hall].
    cbn [firstSection]. destruct (includes (toLowerCase text) section) eqn:Hinc.
    + intros [= <-]. rewrite Hshape. split; [by exists c, t |]. split; [exact Hclean |].
      right. exists section. split; [apply Hsub; by left |]. by split.
    + apply IH; [| exact Hall]. intros s Hs. apply Hsub. by right.
Qed.

Lemma detectSectionHeading_heading_witness :
  @detectSectionHeading basicLatin (js "we talk about rock protection and first aid")
  = Some (js "Rock Protection")
  /\ edgesClean (js "Rock Protection").
Proof.
  split; [vm_compute; reflexivity |].
  apply (detectSectionHeading_heading basicLatin
           (js "we talk about rock protection and first aid") (js "Rock Protection")).
  vm_compute. reflexivity.
Defined.
